(** * Arduino MCP IPC server: transport framing, routing and task lifecycle

    A shallow embedding of [arduino-mcp-extension/src/node/ipc-server.ts]
    (class [ArduinoIPCServer]) together with the protocol types of
    [common/ipc-protocol.ts], and the properties of the transport-and-task
    core that the design document states about it.

    Conventions of the embedding.
    - A JavaScript string is a Rocq [string] holding the UTF-8 encoding of its
      code points, so ASCII literals of the source are written as they are.
    - A JavaScript value of type [unknown] is a [value]; numbers are the
      integer-valued ones ([Z]) that print in plain decimal, which is all the
      server itself produces.
    - The execution of a task is cut where it waits for [coreService]: the
      callback runs up to its [await], and the rest runs when the call is
      settled.  A request is handled in one step; what the services it awaits
      answer is an input of that step.
    - The server object is the record [Server]; every method takes the server
      and returns the server it leaves behind.
    - [socket.write] on a [net.Socket] does not raise for a string: a write
      that fails shows as the ['error'] event of the socket.  Socket objects
      whose [write] raises are in the embedding as well, for the [catch]
      clauses that the source puts around [write]. *)

From Stdlib Require Import ZArith NArith Ascii String List.
From Stdlib.Strings Require Import Byte.
From stdpp Require Import base option list strings pretty gmap.

Set Warnings "-register-all".
Open Scope string_scope.
Open Scope list_scope.
Open Scope Z_scope.

Notation "a === b" := (String.eqb a b) (at level 70, no associativity).

(** ** JavaScript values and completions *)

Module JS.

Inductive value : Type :=
| VUndefined
| VNull
| VBool (b : bool)
| VNum (n : Z)
| VStr (s : string)
| VArr (items : list value)
| VObj (fields : list (string * value)).

(** What a [throw] carries: an [Error] instance with its [message], or any
    other value. *)
Inductive Thrown : Type :=
| JsError (message : string)
| JsThrown (v : value).

(** How a call ends: [return v] or [throw e]. *)
Inductive Completion (A : Type) : Type :=
| Return (a : A)
| Throw (e : Thrown).
Arguments Return {A} a.
Arguments Throw {A} e.

(** Property read [o.k] on a record of properties, whose names are distinct;
    a missing property reads [undefined]. *)
Fixpoint field (k : string) (fields : list (string * value)) : value :=
  match fields with
  | [] => VUndefined
  | (k', v) :: rest => if String.eqb k k' then v else field k rest
  end.

(** Optional chaining [v?.k] for a data property [k]. *)
Definition optchain (v : value) (k : string) : value :=
  match v with
  | VObj fields => field k fields
  | _ => VUndefined
  end.

(** ToBoolean. *)
Definition truthy (v : value) : bool :=
  match v with
  | VUndefined | VNull => false
  | VBool b => b
  | VNum n => negb (n =? 0)
  | VStr s => negb (String.eqb s "")
  | VArr _ | VObj _ => true
  end.

(** [a || b] and [a ?? b]. *)
Definition js_or (a b : value) : value := if truthy a then a else b.
Definition js_nullish (a b : value) : value :=
  match a with
  | VUndefined | VNull => b
  | _ => a
  end.

(** ToString, as a template literal applies it. *)
Fixpoint js_to_string (v : value) : string :=
  match v with
  | VUndefined => "undefined"
  | VNull => "null"
  | VBool true => "true"
  | VBool false => "false"
  | VNum n => pretty n
  | VStr s => s
  | VArr items =>
      let item v :=
        match v with
        | VUndefined | VNull => ""
        | _ => js_to_string v
        end in
      (fix join (l : list value) : string :=
         match l with
         | [] => ""
         | [v] => item v
         | v :: l' => item v +:+ "," +:+ join l'
         end) items
  | VObj _ => "[object Object]"
  end.

(** [v === 'literal']. *)
Definition strict_eq_str (v : value) (lit : string) : bool :=
  match v with
  | VStr s => String.eqb s lit
  | _ => false
  end.

(** [error instanceof Error ? error.message : 'Unknown error']. *)
Definition error_message (e : Thrown) : string :=
  match e with
  | JsError m => m
  | JsThrown _ => "Unknown error"
  end.

(** [`${e instanceof Error ? e.message : e}`]. *)
Definition error_text (e : Thrown) : string :=
  match e with
  | JsError m => m
  | JsThrown v => js_to_string v
  end.


Definition opt_str (o : option string) : value :=
  match o with Some s => VStr s | None => VUndefined end.
Definition opt_num (o : option Z) : value :=
  match o with Some n => VNum n | None => VUndefined end.

End JS.
Export JS.

(** ** Text: decoding, splitting and trimming *)

Module Text.

Definition byte_in (lo hi : N) (b : byte) : bool :=
  ((lo <=? Byte.to_N b) && (Byte.to_N b <=? hi))%N.

Definition chr (b : byte) : string := String (ascii_of_byte b) "".

(** U+FFFD REPLACEMENT CHARACTER. *)
Definition replacement : string := chr xef +:+ chr xbf +:+ chr xbd.

(** Range of the second byte of a three- or four-byte sequence that starts
    with lead byte [b]. *)
Definition second_byte_range (b : byte) : N * N :=
  match b with
  | xe0 => (0xA0, 0xBF)%N
  | xed => (0x80, 0x9F)%N
  | xf0 => (0x90, 0xBF)%N
  | xf4 => (0x80, 0x8F)%N
  | _ => (0x80, 0xBF)%N
  end.

Definition continuation (b : byte) : bool := byte_in 0x80 0xBF b.

(** [Buffer.prototype.toString()] (encoding 'utf8'): well-formed sequences are
    kept; every maximal ill-formed part, an unfinished sequence at the end of
    the buffer included, becomes one U+FFFD. *)
Fixpoint Buffer_toString (data : list byte) : string :=
  match data with
  | [] => ""
  | b0 :: r0 =>
      if byte_in 0x00 0x7F b0 then chr b0 +:+ Buffer_toString r0
      else if byte_in 0xC2 0xDF b0 then
        match r0 with
        | [] => replacement
        | b1 :: r1 =>
            if continuation b1 then chr b0 +:+ chr b1 +:+ Buffer_toString r1
            else replacement +:+ Buffer_toString r0
        end
      else if byte_in 0xE0 0xEF b0 then
        match r0 with
        | [] => replacement
        | b1 :: r1 =>
            if byte_in (fst (second_byte_range b0)) (snd (second_byte_range b0)) b1 then
              match r1 with
              | [] => replacement
              | b2 :: r2 =>
                  if continuation b2
                  then chr b0 +:+ chr b1 +:+ chr b2 +:+ Buffer_toString r2
                  else replacement +:+ Buffer_toString r1
              end
            else replacement +:+ Buffer_toString r0
        end
      else if byte_in 0xF0 0xF4 b0 then
        match r0 with
        | [] => replacement
        | b1 :: r1 =>
            if byte_in (fst (second_byte_range b0)) (snd (second_byte_range b0)) b1 then
              match r1 with
              | [] => replacement
              | b2 :: r2 =>
                  if continuation b2 then
                    match r2 with
                    | [] => replacement
                    | b3 :: r3 =>
                        if continuation b3
                        then chr b0 +:+ chr b1 +:+ chr b2 +:+ chr b3
                             +:+ Buffer_toString r3
                        else replacement +:+ Buffer_toString r2
                    end
                  else replacement +:+ Buffer_toString r1
              end
            else replacement +:+ Buffer_toString r0
        end
      else replacement +:+ Buffer_toString r0
  end.

Definition newline : ascii := ascii_of_byte x0a.

(** [s.split('\n')]: never empty; a text without newline is its own only
    fragment. *)
Fixpoint split_lines (s : string) : list string :=
  match s with
  | "" => [""]
  | String c rest =>
      if Ascii.eqb c newline then "" :: split_lines rest
      else match split_lines rest with
           | [] => [String c ""]
           | first :: others => String c first :: others
           end
  end.

(** The encodings of the White_Space and LineTerminator code points, which
    [String.prototype.trim] removes: U+0009..U+000D, U+0020, U+00A0, U+1680,
    U+2000..U+200A, U+2028, U+2029, U+202F, U+205F, U+3000, U+FEFF. *)
Definition white_space : list string :=
  map string_of_list_byte
    [ [x09]; [x0a]; [x0b]; [x0c]; [x0d]; [x20]; [xc2; xa0]; [xe1; x9a; x80];
      [xe2; x80; x80]; [xe2; x80; x81]; [xe2; x80; x82]; [xe2; x80; x83];
      [xe2; x80; x84]; [xe2; x80; x85]; [xe2; x80; x86]; [xe2; x80; x87];
      [xe2; x80; x88]; [xe2; x80; x89]; [xe2; x80; x8a]; [xe2; x80; xa8];
      [xe2; x80; xa9]; [xe2; x80; xaf]; [xe2; x81; x9f]; [xe3; x80; x80];
      [xef; xbb; xbf] ].

(** [strip p s]: [s] without its prefix [p], when it starts with [p]. *)
Fixpoint strip (p s : string) : option string :=
  match p, s with
  | "", _ => Some s
  | String a p', String b s' => if Ascii.eqb a b then strip p' s' else None
  | String _ _, "" => None
  end.

(** What is left of [s] after one leading sequence of [table], if any. *)
Fixpoint skip_one (table : list string) (s : string) : option string :=
  match table with
  | [] => None
  | w :: table' =>
      match strip w s with
      | Some rest => Some rest
      | None => skip_one table' s
      end
  end.

(** Removes leading sequences of [table]; the fuel is the length of the
    text, which bounds their number. *)
Fixpoint skip_all (table : list string) (fuel : nat) (s : string) : string :=
  match fuel with
  | O => s
  | S fuel' =>
      match skip_one table s with
      | Some rest => skip_all table fuel' rest
      | None => s
      end
  end.

Definition trimStart (s : string) : string :=
  skip_all white_space (String.length s) s.
Definition trimEnd (s : string) : string :=
  String.rev (skip_all (map String.rev white_space) (String.length s) (String.rev s)).

(** [s.trim()]. *)
Definition trim (s : string) : string := trimEnd (trimStart s).

(** [!s.trim()]: the text is empty or white space only. *)
Definition is_blank (s : string) : bool := trim s === "".

(** [s.startsWith(p)] and [s.includes(p)]. *)
Definition startsWith (s p : string) : bool := String.prefix p s.
Definition includes (s p : string) : bool :=
  match String.index 0 p s with
  | Some _ => true
  | None => false
  end.

(** Whether the character [c] occurs in [s]. *)
Fixpoint occurs (c : ascii) (s : string) : bool :=
  match s with
  | "" => false
  | String c' rest => Ascii.eqb c c' || occurs c rest
  end.

(** The newline the wire protocol ends every message with. *)
Definition nl : string := String newline "".

End Text.
Export Text.

(** ** Protocol types ([common/ipc-protocol.ts]) *)

(** [IPCRequest].  [params] is whatever the line carried under that key: the
    source declares an object and does not check, so for a line without
    [params] it is [undefined]. *)
Record IPCRequest : Type := {
  req_id : string;
  req_method : string;
  req_params : value
}.

(** The [error] member of an [IPCResponse]. *)
Record IPCError : Type := {
  err_code : Z;
  err_message : string;
  err_data : option value
}.

(** [IPCResponse]: [result] and [error] are optional members. *)
Record IPCResponse : Type := {
  resp_id : string;
  resp_result : option value;
  resp_error : option IPCError
}.

(** [IPCEvent]. *)
Record IPCEvent : Type := {
  event : string;
  data : value
}.

Inductive TaskStatus : Type := pending | running | completed | failed | cancelled.

Global Instance TaskStatus_eq_dec : EqDecision TaskStatus.
Proof. solve_decision. Defined.

(** [Task].  [tool] and [arguments] are whatever the creating request
    carried: the source casts them without checking. *)
Record Task : Type := {
  task_id : string;
  status : TaskStatus;
  tool : value;
  arguments : value;
  result : value;
  error : option string;
  progress : option Z;
  progressMessage : option string
}.

Definition status_name (st : TaskStatus) : string :=
  match st with
  | pending => "pending"
  | running => "running"
  | completed => "completed"
  | failed => "failed"
  | cancelled => "cancelled"
  end.

Definition set_status (st : TaskStatus) (t : Task) : Task :=
  {| task_id := task_id t; status := st; tool := tool t; arguments := arguments t;
     result := result t; error := error t; progress := progress t;
     progressMessage := progressMessage t |}.
Definition set_error (e : string) (t : Task) : Task :=
  {| task_id := task_id t; status := status t; tool := tool t; arguments := arguments t;
     result := result t; error := Some e; progress := progress t;
     progressMessage := progressMessage t |}.
Definition set_result (r : value) (t : Task) : Task :=
  {| task_id := task_id t; status := status t; tool := tool t; arguments := arguments t;
     result := r; error := error t; progress := progress t;
     progressMessage := progressMessage t |}.

(** The object literals the server serializes. *)
Definition event_json (e : IPCEvent) : value :=
  VObj [("event", VStr (event e)); ("data", data e)].

Definition error_json (e : IPCError) : value :=
  VObj ([("code", VNum (err_code e)); ("message", VStr (err_message e))]
        ++ match err_data e with Some d => [("data", d)] | None => [] end).

Definition response_json (r : IPCResponse) : value :=
  VObj ([("id", VStr (resp_id r))]
        ++ match resp_result r with Some v => [("result", v)] | None => [] end
        ++ match resp_error r with Some e => [("error", error_json e)] | None => [] end).

(** ** The server object *)

(** The [Sketch] interface of the IDE. *)
Record Sketch : Type := {
  name : string;
  uri : string;
  mainFileUri : string;
  otherSketchFileUris : list string;
  additionalFileUris : list string;
  rootFolderFileUris : list string
}.

(** What a call of [sketchesService], whose results have type [any], resolves
    to where the source goes on as with a sketch: a sketch, or [undefined]
    ([Nothing false]) or [null] ([Nothing true]). *)
Inductive Resolved : Type :=
| Got (sketch : Sketch)
| Nothing (null : bool).

(** The sketch that is stored when [this.currentSketch] is assigned such a
    result; [undefined] and [null] both count as no sketch from then on. *)
Definition as_current (r : Resolved) : option Sketch :=
  match r with
  | Got sketch => Some sketch
  | Nothing _ => None
  end.

(** The [TypeError] of the member read [o.k] where [o] is [undefined] or
    [null]. *)
Definition reading_nothing (null : bool) (k : string) : Thrown :=
  JsError ("Cannot read properties of " +:+ (if null then "null" else "undefined")
           +:+ " (reading '" +:+ k +:+ "')").

(** One accepted connection: the socket object as the server sees it, and the
    [buffer] variable that [handleClientConnection] closes over.  [written]
    is what [socket.write] was called with and took.  [write_fault] is the
    exception [socket.write] raises, if it raises: no [net.Socket] raises on
    a string (a write that fails is reported by the ['error'] event of the
    socket), so on a running server it is [None]; [Some] is a socket object
    whose [write] does raise, the case the [catch] clauses around
    [socket.write] are written for. *)
Record Connection : Type := {
  write_fault : option Thrown;
  written : list string;
  buffer : string
}.

(** What one [console] call received after its text. *)
Inductive LogArg : Type :=
| NoArg
| TextArg (s : string)
| ThrownArg (e : Thrown).

Inductive ConsoleEntry : Type :=
| console_log (text : string)
| console_error (text : string) (arg : LogArg).

(** A call to the injected [coreService] that a task is waiting for, with the
    options the source passes. *)
Inductive CoreCall : Type :=
| Compile (sketch : Sketch) (fqbn verbose : value)
| Upload (sketch : Sketch) (fqbn port verify : value).

(** [ArduinoIPCServer].  The first six members are the fields of the class.
    [sockets] holds the socket objects by reference (a [nat]), [immediates]
    is the queue of [setImmediate(() => this.runTask(taskId))] callbacks,
    [awaiting] the [runTask] calls suspended at their [await] of a
    [coreService] call, and [console] what was logged.  [taskCounter] is a
    natural number: the embedding assumes fewer than 2^53 tasks, below which
    [++] on a JavaScript number is exact. *)
Record Server : Type := {
  clients : list nat;
  tasks : gmap string Task;
  taskCounter : N;
  lastBuildOutput : option (string * string);
  currentSketch : option Sketch;
  libraryService : bool;
  sockets : gmap nat Connection;
  immediates : list string;
  awaiting : list (string * CoreCall);
  console : list ConsoleEntry
}.

Definition with_clients (f : list nat → list nat) (s : Server) : Server :=
  {| clients := f (clients s); tasks := tasks s; taskCounter := taskCounter s;
     lastBuildOutput := lastBuildOutput s; currentSketch := currentSketch s;
     libraryService := libraryService s; sockets := sockets s;
     immediates := immediates s; awaiting := awaiting s; console := console s |}.
Definition with_tasks (f : gmap string Task → gmap string Task) (s : Server) : Server :=
  {| clients := clients s; tasks := f (tasks s); taskCounter := taskCounter s;
     lastBuildOutput := lastBuildOutput s; currentSketch := currentSketch s;
     libraryService := libraryService s; sockets := sockets s;
     immediates := immediates s; awaiting := awaiting s; console := console s |}.
Definition with_taskCounter (n : N) (s : Server) : Server :=
  {| clients := clients s; tasks := tasks s; taskCounter := n;
     lastBuildOutput := lastBuildOutput s; currentSketch := currentSketch s;
     libraryService := libraryService s; sockets := sockets s;
     immediates := immediates s; awaiting := awaiting s; console := console s |}.
Definition with_lastBuildOutput (o : option (string * string)) (s : Server) : Server :=
  {| clients := clients s; tasks := tasks s; taskCounter := taskCounter s;
     lastBuildOutput := o; currentSketch := currentSketch s;
     libraryService := libraryService s; sockets := sockets s;
     immediates := immediates s; awaiting := awaiting s; console := console s |}.
Definition with_currentSketch (o : option Sketch) (s : Server) : Server :=
  {| clients := clients s; tasks := tasks s; taskCounter := taskCounter s;
     lastBuildOutput := lastBuildOutput s; currentSketch := o;
     libraryService := libraryService s; sockets := sockets s;
     immediates := immediates s; awaiting := awaiting s; console := console s |}.
Definition with_sockets (f : gmap nat Connection → gmap nat Connection) (s : Server) : Server :=
  {| clients := clients s; tasks := tasks s; taskCounter := taskCounter s;
     lastBuildOutput := lastBuildOutput s; currentSketch := currentSketch s;
     libraryService := libraryService s; sockets := f (sockets s);
     immediates := immediates s; awaiting := awaiting s; console := console s |}.
Definition with_immediates (f : list string → list string) (s : Server) : Server :=
  {| clients := clients s; tasks := tasks s; taskCounter := taskCounter s;
     lastBuildOutput := lastBuildOutput s; currentSketch := currentSketch s;
     libraryService := libraryService s; sockets := sockets s;
     immediates := f (immediates s); awaiting := awaiting s; console := console s |}.
Definition with_awaiting (f : list (string * CoreCall) → list (string * CoreCall))
    (s : Server) : Server :=
  {| clients := clients s; tasks := tasks s; taskCounter := taskCounter s;
     lastBuildOutput := lastBuildOutput s; currentSketch := currentSketch s;
     libraryService := libraryService s; sockets := sockets s;
     immediates := immediates s; awaiting := f (awaiting s); console := console s |}.
Definition log (e : ConsoleEntry) (s : Server) : Server :=
  {| clients := clients s; tasks := tasks s; taskCounter := taskCounter s;
     lastBuildOutput := lastBuildOutput s; currentSketch := currentSketch s;
     libraryService := libraryService s; sockets := sockets s;
     immediates := immediates s; awaiting := awaiting s; console := console s ++ [e] |}.

(** A freshly constructed server: the field initializers of the class. *)
Definition new_server (library_injected : bool) : Server :=
  {| clients := []; tasks := ∅; taskCounter := 0%N; lastBuildOutput := None;
     currentSketch := None; libraryService := library_injected; sockets := ∅;
     immediates := []; awaiting := []; console := [] |}.

(** The runtime's JSON codec.  [JSON_parse] is [JSON.parse] on a line
    ([None]: it throws); what it returns is taken to have a string [id] and a
    string [method], as the source declares it without checking, so a line
    such as [null] or [42] is outside the embedding; its [params] is any
    value.  [JSON_stringify] is [JSON.stringify] on the
    object literals above; on a [value], which has neither cycles nor
    [BigInt], it does not throw. *)
Class Runtime : Type := {
  JSON_parse : string → option IPCRequest;
  JSON_stringify : value → string
}.

(** What the environment answers while one request is handled: the clock, how
    the awaited backend work of the matched case ends, and what
    [sketchesService.loadSketch] and [sketchesService.copy] give. *)
Record Ext : Type := {
  Date_now : Z;
  service : Completion value;
  loadSketch : Completion Resolved;
  copy : Completion Resolved
}.

(** ** Event emission *)

Section Operations.
Context `{Runtime}.

(** [socket.write(message)]: raises the socket's fault, or appends to what
    was written.  (Only accepted sockets are ever written to; for any other
    reference nothing happens.) *)
Definition socket_write (socket : nat) (message : string) (s : Server)
    : Completion unit * Server :=
  match sockets s !! socket with
  | None => (Return tt, s)
  | Some c =>
      match write_fault c with
      | Some e => (Throw e, s)
      | None =>
          (Return tt,
           with_sockets
             (insert socket {| write_fault := None;
                               written := written c ++ [message];
                               buffer := buffer c |}) s)
      end
  end.

(** The body of the loop of [broadcast]: [try { client.write(message) }
    catch (e) { console.error(...) }]. *)
Definition broadcast_to (message : string) (s : Server) (client : nat) : Server :=
  match socket_write client message s with
  | (Return _, s') => s'
  | (Throw e, s') =>
      log (console_error "[arduino-mcp] Failed to send event:" (ThrownArg e)) s'
  end.

(** [broadcast(event)].  It cannot throw: the one call that can,
    [client.write], is inside the [try]. *)
Definition broadcast (ev : IPCEvent) (s : Server) : Server :=
  let message := JSON_stringify (event_json ev) +:+ nl in
  foldl (broadcast_to message) s (clients s).

(** [emitProgress(taskId, progress, message)]. *)
Definition emitProgress (taskId : string) (percent : Z) (message : string)
    (s : Server) : Server :=
  broadcast
    {| event := "task/progress";
       data := VObj [("taskId", VStr taskId); ("progress", VNum percent);
                     ("total", VNum 100); ("message", VStr message)] |} s.

(** [emitRootsChanged()]. *)
Definition emitRootsChanged (s : Server) : Server :=
  broadcast {| event := "roots/changed"; data := VObj [] |} s.

(** [sketch?.uri]. *)
Definition uri_of (sketch : option Sketch) : option string := uri <$> sketch.

(** [setCurrentSketch(sketch)]. *)
Definition setCurrentSketch (sketch : option Sketch) (s : Server) : Server :=
  let changed := negb (bool_decide (uri_of (currentSketch s) = uri_of sketch)) in
  let s1 := with_currentSketch sketch s in
  if changed then emitRootsChanged s1 else s1.

(** [setBuildOutput(stdout, stderr)]. *)
Definition setBuildOutput (stdout stderr : string) (s : Server) : Server :=
  with_lastBuildOutput (Some (stdout, stderr)) s.

(** ** Task handlers *)

(** [`task_${++this.taskCounter}_${Date.now()}`], for the incremented
    counter. *)
Definition make_task_id (counter : N) (now : Z) : string :=
  "task_" +:+ pretty counter +:+ "_" +:+ pretty now.

(** [this.tasks.get(taskId)] for a [taskId] cast from [unknown]: the keys of
    the table are strings, so no other value finds anything. *)
Definition tasks_get (taskId : value) (s : Server) : option Task :=
  match taskId with
  | VStr k => tasks s !! k
  | _ => None
  end.

(** An assignment to a member of the task object stored under [taskId]. *)
Definition update_task (taskId : string) (f : Task → Task) (s : Server) : Server :=
  with_tasks (alter f taskId) s.

(** The object [task/get] returns. *)
Definition snapshot (task : Task) : value :=
  VObj [("status", VStr (status_name (status task)));
        ("result", result task);
        ("error", opt_str (error task));
        ("progress", opt_num (progress task));
        ("progressMessage", opt_str (progressMessage task))].

(** Member read [o.k] where [o] was cast from [unknown]: a [TypeError] on
    [undefined] and [null]. *)
Definition get_prop (o : value) (k : string) : Completion value :=
  match o with
  | VUndefined =>
      Throw (JsError ("Cannot read properties of undefined (reading '" +:+ k +:+ "')"))
  | VNull =>
      Throw (JsError ("Cannot read properties of null (reading '" +:+ k +:+ "')"))
  | _ => Return (optchain o k)
  end.

(** [handleTask(method, params)]; [now] is what [Date.now()] gives.  In
    [task/create] the counter is incremented for the identifier before
    [params] is read. *)
Definition handleTask (now : Z) (method : string) (params : value)
    (s : Server) : Completion value * Server :=
  if method === "task/create" then
    let counter := (taskCounter s + 1)%N in
    let taskId := make_task_id counter now in
    let s1 := with_taskCounter counter s in
    match get_prop params "tool" with
    | Throw e => (Throw e, s1)
    | Return tool =>
        let task := {| task_id := taskId; status := pending;
                       tool := tool;
                       arguments := optchain params "arguments";
                       result := VUndefined; error := None;
                       progress := None; progressMessage := None |} in
        (Return (VObj [("taskId", VStr taskId)]),
         with_immediates (λ q : list string, q ++ [taskId])
           (with_tasks (insert taskId task) s1))
    end
  else if method === "task/get" then
    match get_prop params "taskId" with
    | Throw e => (Throw e, s)
    | Return taskId =>
        match tasks_get taskId s with
        | None => (Throw (JsError ("Task not found: " +:+ js_to_string taskId)), s)
        | Some task => (Return (snapshot task), s)
        end
    end
  else if method === "task/cancel" then
    match get_prop params "taskId" with
    | Throw e => (Throw e, s)
    | Return taskId =>
        match taskId, tasks_get taskId s with
        | VStr k, Some task =>
            if bool_decide (status task = pending) || bool_decide (status task = running)
            then (Return (VObj [("cancelled", VBool true)]),
                  update_task k (set_error "Cancelled by user")
                    (update_task k (set_status cancelled) s))
            else (Return (VObj [("cancelled", VBool false)]), s)
        | _, _ => (Return (VObj [("cancelled", VBool false)]), s)
        end
    end
  else (Throw (JsError ("Unknown task method: " +:+ method)), s).

(** ** Task execution *)

(** [runCompileTask] up to its [await]: it throws, or it has called
    [coreService.compile] and waits. *)
Definition runCompileTask_begin (task : Task) (taskId : string) (s : Server)
    : Completion CoreCall * Server :=
  let s1 := emitProgress taskId 10 "Preparing compilation..." s in
  match currentSketch s1 with
  | None => (Throw (JsError "No sketch is currently open"), s1)
  | Some sketch =>
      match get_prop (arguments task) "fqbn" with
      | Throw e => (Throw e, s1)
      | Return fqbn =>
          if negb (truthy fqbn)
          then (Throw (JsError "No board selected (fqbn required)"), s1)
          else
            let s2 := emitProgress taskId 20 "Compiling..." s1 in
            (Return (Compile sketch fqbn
                       (js_or (optchain (arguments task) "verbose") (VBool false))),
             s2)
      end
  end.

(** [runCompileTask] from its [await] on: [outcome] is how
    [coreService.compile] ended. *)
Definition runCompileTask_resume (taskId : string) (outcome : Completion value)
    (s : Server) : Completion unit * Server :=
  match outcome with
  | Return res =>
      let s1 :=
        update_task taskId
          (set_result (VObj [("success", VBool true);
                             ("buildPath", optchain res "buildPath");
                             ("executableSectionsSize",
                              optchain res "executableSectionsSize")])) s in
      let s2 := update_task taskId (set_status completed) s1 in
      (Return tt, emitProgress taskId 100 "Compilation complete" s2)
  | Throw e => (Throw (JsError ("Compilation failed: " +:+ error_text e)), s)
  end.

(** [runUploadTask] up to its [await]. *)
Definition runUploadTask_begin (task : Task) (taskId : string) (s : Server)
    : Completion CoreCall * Server :=
  let s1 := emitProgress taskId 10 "Preparing upload..." s in
  match currentSketch s1 with
  | None => (Throw (JsError "No sketch is currently open"), s1)
  | Some sketch =>
      match get_prop (arguments task) "fqbn" with
      | Throw e => (Throw e, s1)
      | Return fqbn =>
          let port := optchain (arguments task) "port" in
          if negb (truthy fqbn)
          then (Throw (JsError "No board selected (fqbn required)"), s1)
          else if negb (truthy port)
          then (Throw (JsError "No port specified"), s1)
          else
            let s2 := emitProgress taskId 20 "Compiling..." s1 in
            let s3 := emitProgress taskId 50 "Uploading to board..." s2 in
            (Return (Upload sketch fqbn port
                       (js_nullish (optchain (arguments task) "verify") (VBool true))),
             s3)
      end
  end.

(** [runUploadTask] from its [await] on. *)
Definition runUploadTask_resume (taskId : string) (outcome : Completion value)
    (s : Server) : Completion unit * Server :=
  match outcome with
  | Return res =>
      match get_prop res "portAfterUpload" with
      | Throw e => (Throw (JsError ("Upload failed: " +:+ error_text e)), s)
      | Return portAfterUpload =>
          let s1 :=
            update_task taskId
              (set_result (VObj [("success", VBool true);
                                 ("portAfterUpload", portAfterUpload)])) s in
          let s2 := update_task taskId (set_status completed) s1 in
          (Return tt, emitProgress taskId 100 "Upload complete" s2)
      end
  | Throw e => (Throw (JsError ("Upload failed: " +:+ error_text e)), s)
  end.

(** The [catch] clause of [runTask]. *)
Definition runTask_catch (taskId : string) (e : Thrown) (s : Server) : Server :=
  update_task taskId (set_error (error_message e))
    (update_task taskId (set_status failed) s).

(** [runTask(taskId)] as the [setImmediate] callback runs it: up to the point
    where it is done or waits for [coreService]. *)
Definition runTask (taskId : string) (s : Server) : Server :=
  match tasks s !! taskId with
  | None => s
  | Some task =>
      let s1 := update_task taskId (set_status running) s in
      let s2 := emitProgress taskId 0 "Starting..." s1 in
      let '(started, s3) :=
        if strict_eq_str (tool task) "arduino_compile"
        then runCompileTask_begin task taskId s2
        else if strict_eq_str (tool task) "arduino_upload"
        then runUploadTask_begin task taskId s2
        else (Throw (JsError ("Task not supported for tool: "
                              +:+ js_to_string (tool task))), s2) in
      match started with
      | Return call => with_awaiting (λ l : list (string * CoreCall), l ++ [(taskId, call)]) s3
      | Throw e => runTask_catch taskId e s3
      end
  end.

(** The event loop runs the oldest [setImmediate] callback. *)
Definition run_immediate (s : Server) : Server :=
  match immediates s with
  | [] => s
  | taskId :: rest => runTask taskId (with_immediates (λ _, rest) s)
  end.

Fixpoint take_call (taskId : string) (l : list (string * CoreCall))
    : option (CoreCall * list (string * CoreCall)) :=
  match l with
  | [] => None
  | (k, call) :: rest =>
      if k === taskId then Some (call, rest)
      else match take_call taskId rest with
           | Some (found, rest') => Some (found, (k, call) :: rest')
           | None => None
           end
  end.

(** The [coreService] call that task [taskId] waits for ends with [outcome]:
    the rest of [runTask] runs. *)
Definition settle (taskId : string) (outcome : Completion value) (s : Server)
    : Server :=
  match take_call taskId (awaiting s) with
  | None => s
  | Some (call, rest) =>
      let s1 := with_awaiting (λ _, rest) s in
      let '(ended, s2) :=
        match call with
        | Compile _ _ _ => runCompileTask_resume taskId outcome s1
        | Upload _ _ _ _ => runUploadTask_resume taskId outcome s1
        end in
      match ended with
      | Return _ => s2
      | Throw e => runTask_catch taskId e s2
      end
  end.

(** ** Domain handlers

    The cases that only await an injected IDE service (or the file system)
    and shape its answer are opaque at this layer: after the checks the
    source makes on [params], such a case ends the way the environment says
    ([service ext]). *)

Definition strs (l : list string) : value := VArr (VStr <$> l).
Definition nums (l : list Z) : value := VArr (VNum <$> l).

(** [handleContext(method, params)]. *)
Definition handleContext (ext : Ext) (method : string)
    (params : value) (s : Server) : Completion value * Server :=
  if method === "context/getState" then
    let '(connectedBoards, s1) :=
      match service ext with
      | Return boards => (boards, s)
      | Throw e =>
          (VArr [],
           log (console_error "[arduino-mcp] Error getting detected ports:"
                  (ThrownArg e)) s)
      end in
    (Return
       (VObj [("open_sketch",
               match currentSketch s1 with
               | Some sk => VObj [("name", VStr (name sk)); ("uri", VStr (uri sk));
                                  ("mainFileUri", VStr (mainFileUri sk))]
               | None => VNull
               end);
              ("selected_board", VNull);
              ("connected_boards", connectedBoards);
              ("serial_connected", VBool false);
              ("mcp_version", VStr "0.1.0")]),
     s1)
  else (Throw (JsError ("Unknown context method: " +:+ method)), s).

(** [handleRoots(method, params)]. *)
Definition handleRoots (method : string) (params : value)
    (s : Server) : Completion value * Server :=
  if method === "roots/list" then
    match currentSketch s with
    | Some sk =>
        (Return (VArr [VObj [("uri", VStr (uri sk)); ("name", VStr (name sk));
                             ("isReadOnly", VBool false)]]), s)
    | None => (Return (VArr []), s)
    end
  else (Throw (JsError ("Unknown roots method: " +:+ method)), s).

(** The object that [sketch/getCurrent] and [sketch/open] return. *)
Definition sketch_json (sk : Sketch) : value :=
  VObj [("name", VStr (name sk)); ("uri", VStr (uri sk));
        ("mainFileUri", VStr (mainFileUri sk));
        ("otherSketchFileUris", strs (otherSketchFileUris sk));
        ("additionalFileUris", strs (additionalFileUris sk))].

(** [handleSketch(method, params)].  In [sketch/open] and
    [sketch/fromExample] the current sketch is set before the members of the
    results are read. *)
Definition handleSketch (ext : Ext) (method : string)
    (params : value) (s : Server) : Completion value * Server :=
  if method === "sketch/getCurrent" then
    (Return match currentSketch s with
            | Some sk => sketch_json sk
            | None => VNull
            end, s)
  else if method === "sketch/getContent" then
    match get_prop params "path" with
    | Throw e => (Throw e, s)
    | Return path =>
        if negb (truthy path)
        then (Throw (JsError "path is required"), s)
        else (service ext, s)
    end
  else if method === "sketch/setContent" then
    match get_prop params "path" with
    | Throw e => (Throw e, s)
    | Return path =>
        if negb (truthy path)
        then (Throw (JsError "path is required"), s)
        else match optchain params "content" with
             | VUndefined => (Throw (JsError "content is required"), s)
             | _ => (service ext, s)
             end
    end
  else if method === "sketch/list" then (service ext, s)
  else if method === "sketch/create" then (service ext, s)
  else if method === "sketch/open" then
    match get_prop params "path" with
    | Throw e => (Throw e, s)
    | Return path =>
        if negb (truthy path)
        then (Throw (JsError "path is required"), s)
        else match loadSketch ext with
             | Throw e => (Throw e, s)
             | Return loaded =>
                 let s1 := setCurrentSketch (as_current loaded) s in
                 match loaded with
                 | Got sk => (Return (sketch_json sk), s1)
                 | Nothing null => (Throw (reading_nothing null "name"), s1)
                 end
             end
    end
  else if method === "sketch/getFiles" then
    match currentSketch s with
    | None => (Throw (JsError "No sketch is currently open"), s)
    | Some sk =>
        (Return (VObj [("mainFile", VStr (mainFileUri sk));
                       ("otherSketchFiles", strs (otherSketchFileUris sk));
                       ("additionalFiles", strs (additionalFileUris sk));
                       ("rootFolderFiles", strs (rootFolderFileUris sk))]), s)
    end
  else if method === "sketch/save" then
    (Return (VObj [("success", VBool true)]), s)
  else if method === "sketch/listExamples" then
    match get_prop params "category" with
    | Throw e => (Throw e, s)
    | Return _ => (service ext, s)
    end
  else if method === "sketch/fromExample" then
    match get_prop params "example_path" with
    | Throw e => (Throw e, s)
    | Return examplePath =>
        if negb (truthy examplePath)
        then (Throw (JsError "example_path is required"), s)
        else match loadSketch ext with
             | Throw e => (Throw e, s)
             | Return example =>
                 match copy ext with
                 | Throw e => (Throw e, s)
                 | Return created =>
                     let s1 := setCurrentSketch (as_current created) s in
                     match created, example with
                     | Nothing null, _ => (Throw (reading_nothing null "name"), s1)
                     | Got _, Nothing null =>
                         (Throw (reading_nothing null "name"), s1)
                     | Got newSketch, Got exampleSketch =>
                         (Return (VObj [("name", VStr (name newSketch));
                                        ("uri", VStr (uri newSketch));
                                        ("mainFileUri", VStr (mainFileUri newSketch));
                                        ("message",
                                         VStr ("Created sketch from example: "
                                               +:+ name exampleSketch))]),
                          s1)
                     end
                 end
             end
    end
  else (Throw (JsError ("Unknown sketch method: " +:+ method)), s).

(** The loop of [build/getErrors] over the lines of [stderr]. *)
Fixpoint collect_diagnostics (lines : list string) : list string * list string :=
  match lines with
  | [] => ([], [])
  | line :: rest =>
      let '(errors, warnings) := collect_diagnostics rest in
      if includes line "error:" then (trim line :: errors, warnings)
      else if includes line "warning:" then (errors, trim line :: warnings)
      else (errors, warnings)
  end.

(** [handleBuild(method, params)]. *)
Definition handleBuild (ext : Ext) (method : string)
    (params : value) (s : Server) : Completion value * Server :=
  if method === "build/compile" then
    match currentSketch s with
    | None => (Throw (JsError "No sketch is currently open"), s)
    | Some _ =>
        match get_prop params "fqbn" with
        | Throw e => (Throw e, s)
        | Return fqbn =>
            if negb (truthy fqbn)
            then (Throw (JsError "No board selected (fqbn required)"), s)
            else match service ext with
                 | Throw e => (Throw e, s)
                 | Return res =>
                     (Return (VObj [("success", VBool true);
                                    ("buildPath", optchain res "buildPath");
                                    ("executableSectionsSize",
                                     optchain res "executableSectionsSize")]), s)
                 end
        end
    end
  else if method === "build/upload" then
    (Throw (JsError "Use arduino_upload tool for uploads (task-based)"), s)
  else if method === "build/getOutput" then
    (Return match lastBuildOutput s with
            | Some (out, err) => VObj [("stdout", VStr out); ("stderr", VStr err)]
            | None => VObj [("stdout", VStr ""); ("stderr", VStr "")]
            end, s)
  else if method === "build/getErrors" then
    match lastBuildOutput s with
    | None => (Return (VObj [("errors", VArr []); ("warnings", VArr [])]), s)
    | Some (_, err) =>
        let '(errors, warnings) := collect_diagnostics (split_lines err) in
        (Return (VObj [("errors", strs errors); ("warnings", strs warnings)]), s)
    end
  else (Throw (JsError ("Unknown build method: " +:+ method)), s).

(** The static table of [getBoardPinInfo]. *)
Definition boardPinInfo : list (string * value) :=
  [("arduino:avr:uno",
    VObj [("digitalPins", VNum 14); ("analogPins", VNum 6);
          ("pwmPins", nums [3; 5; 6; 9; 10; 11]);
          ("i2cPins", VObj [("sda", VNum 18); ("scl", VNum 19)]);
          ("spiPins", VObj [("mosi", VNum 11); ("miso", VNum 12);
                            ("sck", VNum 13); ("ss", VNum 10)]);
          ("ledPin", VNum 13);
          ("notes", VStr "PWM pins are marked with ~ on the board. A4/A5 can also be used as analog inputs.")]);
   ("arduino:avr:nano",
    VObj [("digitalPins", VNum 14); ("analogPins", VNum 8);
          ("pwmPins", nums [3; 5; 6; 9; 10; 11]);
          ("i2cPins", VObj [("sda", VNum 18); ("scl", VNum 19)]);
          ("spiPins", VObj [("mosi", VNum 11); ("miso", VNum 12);
                            ("sck", VNum 13); ("ss", VNum 10)]);
          ("ledPin", VNum 13);
          ("notes", VStr "Same pinout as Uno but with extra analog pins A6, A7 (input only).")]);
   ("arduino:avr:mega",
    VObj [("digitalPins", VNum 54); ("analogPins", VNum 16);
          ("pwmPins", nums [2; 3; 4; 5; 6; 7; 8; 9; 10; 11; 12; 13; 44; 45; 46]);
          ("i2cPins", VObj [("sda", VNum 20); ("scl", VNum 21)]);
          ("spiPins", VObj [("mosi", VNum 51); ("miso", VNum 50);
                            ("sck", VNum 52); ("ss", VNum 53)]);
          ("ledPin", VNum 13);
          ("notes", VStr "Multiple hardware serial ports: Serial1 (19,18), Serial2 (17,16), Serial3 (15,14).")]);
   ("arduino:avr:leonardo",
    VObj [("digitalPins", VNum 20); ("analogPins", VNum 12);
          ("pwmPins", nums [3; 5; 6; 9; 10; 11; 13]);
          ("i2cPins", VObj [("sda", VNum 2); ("scl", VNum 3)]);
          ("spiPins", VObj [("mosi", VNum 16); ("miso", VNum 14);
                            ("sck", VNum 15); ("ss", VNum 17)]);
          ("ledPin", VNum 13);
          ("notes", VStr "Can act as USB HID device (keyboard/mouse). Pins 2,3 are also I2C.")]);
   ("esp32:esp32:esp32",
    VObj [("digitalPins", VNum 34); ("analogPins", VNum 18);
          ("pwmPins", nums [0; 2; 4; 5; 12; 13; 14; 15; 16; 17; 18; 19; 21; 22;
                            23; 25; 26; 27; 32; 33]);
          ("i2cPins", VObj [("sda", VNum 21); ("scl", VNum 22)]);
          ("spiPins", VObj [("mosi", VNum 23); ("miso", VNum 19);
                            ("sck", VNum 18); ("ss", VNum 5)]);
          ("notes", VStr "WiFi and Bluetooth built-in. All PWM-capable pins support up to 16 channels.")])].

(** [getBoardPinInfo(fqbn)]: [boardPinInfo[fqbn] || null] for a key that is
    not among the [prototype_members].  Under one of those the source finds
    an inherited function (or the prototype), which is no [value]; the
    properties that speak of the pin information exclude these keys. *)
Definition getBoardPinInfo (fqbn : value) : value :=
  js_or (field (js_to_string fqbn) boardPinInfo) VNull.

(** [handleBoard(method, params)]. *)
Definition handleBoard (ext : Ext) (method : string)
    (params : value) (s : Server) : Completion value * Server :=
  if method === "board/listConnected" then (service ext, s)
  else if method === "board/listAvailable" then (service ext, s)
  else if method === "board/getSelected" then (Return VNull, s)
  else if method === "board/getInfo" then
    match get_prop params "fqbn" with
    | Throw e => (Throw e, s)
    | Return fqbn =>
        if negb (truthy fqbn)
        then (Throw (JsError "fqbn is required for get_info"), s)
        else
          let fallback := VObj [("fqbn", fqbn); ("pinInfo", getBoardPinInfo fqbn)] in
          match service ext with
          | Throw _ => (Return fallback, s)
          | Return details =>
              match get_prop details "name" with
              | Throw _ => (Return fallback, s)
              | Return details_name =>
                  (Return (VObj [("name", details_name);
                                 ("fqbn", optchain details "fqbn");
                                 ("package",
                                  optchain (optchain details "package") "name");
                                 ("platform",
                                  optchain (optchain details "platform") "name");
                                 ("pinInfo", getBoardPinInfo fqbn)]), s)
              end
          end
    end
  else if method === "board/select" then
    (Throw (JsError "board/select not yet implemented"), s)
  else if method === "board/search" then
    match get_prop params "query" with
    | Throw e => (Throw e, s)
    | Return _ => (service ext, s)
    end
  else if method === "board/installCore" then
    match get_prop params "core" with
    | Throw e => (Throw e, s)
    | Return _ => (service ext, s)
    end
  else (Throw (JsError ("Unknown board method: " +:+ method)), s).

(** [handleSerial(method, params)]. *)
Definition handleSerial (ext : Ext) (method : string)
    (params : value) (s : Server) : Completion value * Server :=
  if method === "serial/listPorts" then (service ext, s)
  else if (method === "serial/connect") || (method === "serial/disconnect")
          || (method === "serial/read") || (method === "serial/write") then
    (Throw (JsError (method +:+ " not yet implemented - requires MonitorService integration")), s)
  else (Throw (JsError ("Unknown serial method: " +:+ method)), s).

(** [handleLibrary(method, params)]. *)
Definition handleLibrary (ext : Ext) (method : string)
    (params : value) (s : Server) : Completion value * Server :=
  if negb (libraryService s)
  then (Throw (JsError "LibraryService not available"), s)
  else if method === "library/list" then (service ext, s)
  else if method === "library/search" then
    match get_prop params "query" with
    | Throw e => (Throw e, s)
    | Return _ => (service ext, s)
    end
  else if (method === "library/install") || (method === "library/remove")
          || (method === "library/getInfo") then
    match get_prop params "name" with
    | Throw e => (Throw e, s)
    | Return _ => (service ext, s)
    end
  else (Throw (JsError ("Unknown library method: " +:+ method)), s).

(** ** Routing and connections *)

(** [routeRequest(request)]. *)
Definition routeRequest (ext : Ext) (request : IPCRequest) (s : Server)
    : Completion value * Server :=
  let method := req_method request in
  let params := req_params request in
  let s := log (console_log ("[arduino-mcp] Handling: " +:+ method)) s in
  if startsWith method "context/" then handleContext ext method params s
  else if startsWith method "roots/" then handleRoots method params s
  else if startsWith method "task/" then handleTask (Date_now ext) method params s
  else if startsWith method "sketch/" then handleSketch ext method params s
  else if startsWith method "build/" then handleBuild ext method params s
  else if startsWith method "board/" then handleBoard ext method params s
  else if startsWith method "serial/" then handleSerial ext method params s
  else if startsWith method "library/" then handleLibrary ext method params s
  else (Throw (JsError ("Unknown IPC method: " +:+ method)), s).

(** The two responses [handleMessage] builds. *)
Definition result_response (request : IPCRequest) (res : value) : IPCResponse :=
  {| resp_id := req_id request; resp_result := Some res; resp_error := None |}.
Definition error_response (request : IPCRequest) (e : Thrown) : IPCResponse :=
  {| resp_id := req_id request; resp_result := None;
     resp_error := Some {| err_code := -1; err_message := error_message e;
                           err_data := None |} |}.

(** [JSON.stringify(response) + '\n']. *)
Definition response_line (r : IPCResponse) : string :=
  JSON_stringify (response_json r) +:+ nl.

(** [handleMessage(socket, message)].  The completion is that of the promise
    the method returns: it is rejected only when the [catch] clause itself
    throws. *)
Definition handleMessage (ext : Ext) (socket : nat) (message : string) (s : Server)
    : Completion unit * Server :=
  match JSON_parse message with
  | None =>
      (Return tt, log (console_error "[arduino-mcp] Invalid JSON:" (TextArg message)) s)
  | Some request =>
      let '(routed, s1) := routeRequest ext request s in
      let '(tried, s2) :=
        match routed with
        | Return res => socket_write socket (response_line (result_response request res)) s1
        | Throw e => (Throw e, s1)
        end in
      match tried with
      | Return _ => (Return tt, s2)
      | Throw e => socket_write socket (response_line (error_response request e)) s2
      end
  end.

(** The loop of the ['data'] listener over the complete lines; [exts k] is
    what the environment answers while line [k] of this chunk is handled.  A
    rejected [handleMessage] ends the listener. *)
Fixpoint handle_lines (exts : nat → Ext) (k : nat) (socket : nat)
    (lines : list string) (s : Server) : Completion unit * Server :=
  match lines with
  | [] => (Return tt, s)
  | line :: rest =>
      if is_blank line then handle_lines exts (S k) socket rest s
      else match handleMessage (exts k) socket line s with
           | (Return _, s') => handle_lines exts (S k) socket rest s'
           | (Throw e, s') => (Throw e, s')
           end
  end.

(** The framing of the ['data'] listener: [buffer += data.toString(); lines =
    buffer.split('\n'); buffer = lines.pop() || '']. Gives the complete lines
    and the new buffer. *)
Definition frame (buf : string) (chunk : list byte) : list string * string :=
  let lines := split_lines (buf +:+ Buffer_toString chunk) in
  (removelast lines, List.last lines "").

(** The ['data'] listener of a connection. *)
Definition on_data (exts : nat → Ext) (socket : nat) (chunk : list byte)
    (s : Server) : Completion unit * Server :=
  match sockets s !! socket with
  | None => (Return tt, s)
  | Some c =>
      let '(lines, rest) := frame (buffer c) chunk in
      let s1 := with_sockets
                  (insert socket {| write_fault := write_fault c;
                                    written := written c; buffer := rest |}) s in
      handle_lines exts 0 socket lines s1
  end.

(** [this.clients.add(socket)] and [this.clients.delete(socket)] on the
    insertion-ordered set. *)
Definition clients_add (socket : nat) (l : list nat) : list nat :=
  if bool_decide (socket ∈ l) then l else l ++ [socket].
Definition clients_delete (socket : nat) (l : list nat) : list nat :=
  filter (λ x, x ≠ socket) l.

(** [handleClientConnection(socket)] for a new socket object. *)
Definition handleClientConnection (socket : nat) (s : Server) : Server :=
  let s1 := log (console_log "[arduino-mcp] Sidecar connected") s in
  let s2 := with_clients (clients_add socket) s1 in
  with_sockets
    (insert socket {| write_fault := None; written := []; buffer := "" |}) s2.

(** The ['close'] and ['error'] listeners of a connection. *)
Definition on_close (socket : nat) (s : Server) : Server :=
  with_clients (clients_delete socket)
    (log (console_log "[arduino-mcp] Sidecar disconnected") s).
Definition on_error (socket : nat) (err : Thrown) (s : Server) : Server :=
  with_clients (clients_delete socket)
    (log (console_error "[arduino-mcp] Socket error:" (ThrownArg err)) s).

(** The socket object becomes one whose [write] raises [err].  This is not
    what a [net.Socket] does when its peer goes away (see [Connection]); it
    is the case that the [catch] clauses around [socket.write] provide
    for. *)
Definition raise_on_write (socket : nat) (err : Thrown) (s : Server) : Server :=
  with_sockets
    (alter (λ c, {| write_fault := Some err; written := written c;
                    buffer := buffer c |}) socket) s.

(** ** The server as a transition system

    What can happen to a running server: the listeners of its sockets, the
    event loop running a [setImmediate] callback or resuming a waiting task,
    and the IDE calling the public methods.  (Binding and unbinding the
    listening address, [start] and [stop], is outside the embedding.)  One
    ['data'] event is handled to its end before the next event: the requests
    of a connection are taken one at a time.  A write that fails on a
    [net.Socket] shows as the [SocketError] of that socket; [WriteRaises] is
    there for socket objects whose [write] raises, which a server that runs
    on [net] does not meet. *)
Inductive Event : Type :=
| Connect (socket : nat)
| Data (socket : nat) (chunk : list byte) (exts : nat → Ext)
| Close (socket : nat)
| SocketError (socket : nat) (err : Thrown)
| WriteRaises (socket : nat) (err : Thrown)
| Immediate
| Settle (taskId : string) (outcome : Completion value)
| SetCurrentSketch (sketch : option Sketch)
| SetBuildOutput (stdout stderr : string)
| EmitRootsChanged.

Definition step (s : Server) (ev : Event) : Server :=
  match ev with
  | Connect socket => handleClientConnection socket s
  | Data socket chunk exts => snd (on_data exts socket chunk s)
  | Close socket => on_close socket s
  | SocketError socket err => on_error socket err s
  | WriteRaises socket err => raise_on_write socket err s
  | Immediate => run_immediate s
  | Settle taskId outcome => settle taskId outcome s
  | SetCurrentSketch sketch => setCurrentSketch sketch s
  | SetBuildOutput stdout stderr => setBuildOutput stdout stderr s
  | EmitRootsChanged => emitRootsChanged s
  end.

(** The server after a history of events. *)
Definition run (s : Server) (history : list Event) : Server := foldl step s history.

End Operations.

(** ** Sample data

    A concrete codec and concrete requests, to evaluate the definitions on.
    [sample_stringify] prints a value in a JSON-like way without escaping;
    [sample_parse] knows the request lines below and rejects every other
    text. *)

Module Sample.

Definition dq : string := String (ascii_of_byte x22) EmptyString.

Fixpoint sample_stringify (v : value) : string :=
  match v with
  | VUndefined => "undefined"
  | VNull => "null"
  | VBool true => "true"
  | VBool false => "false"
  | VNum n => pretty n
  | VStr s => dq +:+ s +:+ dq
  | VArr items =>
      "[" +:+ (fix go (l : list value) : string :=
                 match l with
                 | [] => ""
                 | [v] => sample_stringify v
                 | v :: l' => sample_stringify v +:+ "," +:+ go l'
                 end) items +:+ "]"
  | VObj fields =>
      "{" +:+ (fix go (l : list (string * value)) : string :=
                 match l with
                 | [] => ""
                 | [(k, v)] => dq +:+ k +:+ dq +:+ ":" +:+ sample_stringify v
                 | (k, v) :: l' =>
                     dq +:+ k +:+ dq +:+ ":" +:+ sample_stringify v +:+ "," +:+ go l'
                 end) fields +:+ "}"
  end.

(** A request as a line of text. *)
Definition request_line (r : IPCRequest) : string :=
  sample_stringify
    (VObj [("id", VStr (req_id r)); ("method", VStr (req_method r));
           ("params", req_params r)]).

Definition first_id : string := make_task_id 1 1700000000000.

Definition create_compile : IPCRequest :=
  {| req_id := "req_1"; req_method := "task/create";
     req_params := VObj [("tool", VStr "arduino_compile");
                         ("arguments", VObj [("fqbn", VStr "arduino:avr:uno")])] |}.
Definition cancel_first : IPCRequest :=
  {| req_id := "req_2"; req_method := "task/cancel";
     req_params := VObj [("taskId", VStr first_id)] |}.
Definition get_first : IPCRequest :=
  {| req_id := "req_3"; req_method := "task/get";
     req_params := VObj [("taskId", VStr first_id)] |}.
Definition get_missing : IPCRequest :=
  {| req_id := "req_4"; req_method := "task/get";
     req_params := VObj [("taskId", VStr "task_7_0")] |}.
Definition no_such_method : IPCRequest :=
  {| req_id := "req_5"; req_method := "robot/dance"; req_params := VObj [] |}.
Definition no_such_suffix : IPCRequest :=
  {| req_id := "req_6"; req_method := "serial/getConfig"; req_params := VObj [] |}.
Definition list_roots : IPCRequest :=
  {| req_id := "req_7"; req_method := "roots/list"; req_params := VObj [] |}.

Definition known_requests : list IPCRequest :=
  [create_compile; cancel_first; get_first; get_missing; no_such_method;
   no_such_suffix; list_roots].

Definition sample_parse (line : string) : option IPCRequest :=
  List.find (λ r, request_line r === line) known_requests.

Definition sample_runtime : Runtime :=
  {| JSON_parse := sample_parse; JSON_stringify := sample_stringify |}.

(** The bytes of one request on the wire. *)
Definition wire (r : IPCRequest) : list byte :=
  list_byte_of_string (request_line r +:+ nl).

Definition blink : Sketch :=
  {| name := "Blink"; uri := "file:///sketches/Blink";
     mainFileUri := "file:///sketches/Blink/Blink.ino";
     otherSketchFileUris := []; additionalFileUris := [];
     rootFolderFileUris := [] |}.
Definition fade : Sketch :=
  {| name := "Fade"; uri := "file:///sketches/Fade";
     mainFileUri := "file:///sketches/Fade/Fade.ino";
     otherSketchFileUris := []; additionalFileUris := [];
     rootFolderFileUris := [] |}.

(** An environment in which nothing fails and the clock stands still. *)
Definition calm : Ext :=
  {| Date_now := 1700000000000; service := Return VNull;
     loadSketch := Return (Got blink); copy := Return (Got blink) |}.

End Sample.

(** ** Vocabulary of the properties *)

(** [s'] differs from [s] at most in the socket objects and on the console. *)
Definition only_io (s s' : Server) : Prop :=
  clients s' = clients s ∧ tasks s' = tasks s ∧ taskCounter s' = taskCounter s
  ∧ lastBuildOutput s' = lastBuildOutput s ∧ currentSketch s' = currentSketch s
  ∧ libraryService s' = libraryService s ∧ immediates s' = immediates s
  ∧ awaiting s' = awaiting s.

(** [s'] has the task table and the task counter of [s]. *)
Definition same_table (s s' : Server) : Prop :=
  tasks s' = tasks s ∧ taskCounter s' = taskCounter s.

(** Every key of the task table is an identifier made from a counter value
    that was already handed out. *)
Definition ids_issued (s : Server) : Prop :=
  ∀ k t, tasks s !! k = Some t →
    ∃ n now, k = make_task_id n now ∧ (n ≤ taskCounter s)%N.

(** What a connection has received once [message] was written to it
    successfully; a connection whose [write] raises receives nothing. *)
Definition deliver (message : string) (c : Connection) : Connection :=
  match write_fault c with
  | None => {| write_fault := None; written := written c ++ [message];
               buffer := buffer c |}
  | Some _ => c
  end.

(** The console entry of [broadcast] for client [socket], if its [write]
    raises. *)
Definition send_failure (s : Server) (socket : nat) : option ConsoleEntry :=
  c ← sockets s !! socket;
  e ← write_fault c;
  Some (console_error "[arduino-mcp] Failed to send event:" (ThrownArg e)).

(** The event of [emitRootsChanged]. *)
Definition roots_changed : IPCEvent := {| event := "roots/changed"; data := VObj [] |}.

(** Three accepted connections. *)
Definition three_clients : Server :=
  handleClientConnection 3
    (handleClientConnection 2
       (handleClientConnection 1 (new_server true))).

(** The connection [socket] exists and its [write] does not raise. *)
Definition writable (s : Server) (socket : nat) : Prop :=
  ∃ c, sockets s !! socket = Some c ∧ write_fault c = None.

(** [s'] has the set of connections of [s], and every connection that can
    be written to on [s] still can on [s']. *)
Definition keeps_connections (s s' : Server) : Prop :=
  clients s' = clients s ∧ ∀ socket, writable s socket → writable s' socket.

(** The case labels of the [switch] statements of the eight handlers: the
    methods the router knows. *)
Definition known_methods : list string :=
  [ "context/getState"; "roots/list";
    "task/create"; "task/get"; "task/cancel";
    "sketch/getCurrent"; "sketch/getContent"; "sketch/setContent"; "sketch/list";
    "sketch/create"; "sketch/open"; "sketch/getFiles"; "sketch/save";
    "sketch/listExamples"; "sketch/fromExample";
    "build/compile"; "build/upload"; "build/getOutput"; "build/getErrors";
    "board/listConnected"; "board/listAvailable"; "board/getSelected";
    "board/getInfo"; "board/select"; "board/search"; "board/installCore";
    "serial/listPorts"; "serial/connect"; "serial/disconnect"; "serial/read";
    "serial/write";
    "library/list"; "library/search"; "library/install"; "library/remove";
    "library/getInfo" ].

Definition known_method (method : string) : bool :=
  existsb (String.eqb method) known_methods.

(** The message of the error thrown for a method that is not known, by the
    prefix of the method. *)
Definition not_found_message (library_injected : bool) (method : string) : string :=
  if startsWith method "context/" then "Unknown context method: " +:+ method
  else if startsWith method "roots/" then "Unknown roots method: " +:+ method
  else if startsWith method "task/" then "Unknown task method: " +:+ method
  else if startsWith method "sketch/" then "Unknown sketch method: " +:+ method
  else if startsWith method "build/" then "Unknown build method: " +:+ method
  else if startsWith method "board/" then "Unknown board method: " +:+ method
  else if startsWith method "serial/" then "Unknown serial method: " +:+ method
  else if startsWith method "library/" then
    if library_injected then "Unknown library method: " +:+ method
    else "LibraryService not available"
  else "Unknown IPC method: " +:+ method.

Section Replies.
Context `{Runtime}.

(** The response to [request]: what [handleMessage] builds from the way
    [routeRequest] ends. *)
Definition reply (ext : Ext) (request : IPCRequest) (s : Server) : IPCResponse :=
  match fst (routeRequest ext request s) with
  | Return res => result_response request res
  | Throw e => error_response request e
  end.

(** The server after [request] was routed and its response written. *)
Definition respond (ext : Ext) (socket : nat) (request : IPCRequest) (s : Server)
    : Server :=
  snd (socket_write socket (response_line (reply ext request s))
         (snd (routeRequest ext request s))).

(** The server after a line that is not a message was passed over: a blank
    line is skipped, any other one is logged. *)
Definition discard (line : string) (s : Server) : Server :=
  if is_blank line then s
  else log (console_error "[arduino-mcp] Invalid JSON:" (TextArg line)) s.

End Replies.

(** The structure of the [error] of a response, its message text apart: the
    code, and whether there is [data]. *)
Definition error_shape (r : IPCResponse) : option (Z * bool) :=
  (λ e, (err_code e, bool_decide (is_Some (err_data e)))) <$> resp_error r.

(** The complete lines that are not blank, which the ['data'] listener hands
    to [handleMessage] over a sequence of chunks, and the buffer it is left
    with. *)
Fixpoint receive (buf : string) (chunks : list (list byte)) : list string * string :=
  match chunks with
  | [] => ([], buf)
  | chunk :: rest =>
      let '(lines, buf') := frame buf chunk in
      let '(more, final) := receive buf' rest in
      (List.filter (λ l, negb (is_blank l)) lines ++ more, final)
  end.

(** The text that the listener has added to its buffer after [chunks]: each
    chunk decoded on its own. *)
Fixpoint decoded (chunks : list (list byte)) : string :=
  match chunks with
  | [] => ""
  | chunk :: rest => Buffer_toString chunk +:+ decoded rest
  end.

(** The complete lines of a text that are not blank, and the unfinished line
    at its end. *)
Definition lines_of (text : string) : list string * string :=
  (List.filter (λ l, negb (is_blank l)) (removelast (split_lines text)),
   List.last (split_lines text) "").

Definition is_ascii (b : byte) : Prop := byte_in 0x00 0x7F b = true.

(** ** Scenarios *)

Module Scenario.
Import Sample.

(** LATIN SMALL LETTER E WITH ACUTE, U+00E9: two bytes on the wire. *)
Definition e_acute : string := string_of_list_byte [xc3; xa9].

Definition set_content : IPCRequest :=
  {| req_id := "req_8"; req_method := "sketch/setContent";
     req_params := VObj [("path", VStr "/sketches/Cafe/Cafe.ino");
                         ("content", VStr ("// caf" +:+ e_acute))] |}.

(** The line of [set_content] as it arrives when the two bytes of its last
    letter come in different chunks. *)
Definition set_content_broken : string :=
  sample_stringify
    (VObj [("id", VStr "req_8"); ("method", VStr "sketch/setContent");
           ("params",
            VObj [("path", VStr "/sketches/Cafe/Cafe.ino");
                  ("content", VStr ("// caf" +:+ replacement +:+ replacement))])]).

(** The result a successful [coreService.compile] gives. *)
Definition built : value := VObj [("buildPath", VStr "/tmp/arduino/build")].

(** A client creates a compile task, cancels it while the compiler runs and
    asks for its status; the compiler finishes; the client asks again. *)
Definition cancel_while_running (outcome : Completion value) : list Event :=
  [ Connect 1;
    SetCurrentSketch (Some blink);
    Data 1 (wire create_compile) (λ _, calm);
    Immediate;
    Data 1 (wire cancel_first) (λ _, calm);
    Data 1 (wire get_first) (λ _, calm);
    Settle first_id outcome;
    Data 1 (wire get_first) (λ _, calm) ].

(** The lines of the events and responses of the scenarios. *)
Definition progress_line (percent : Z) (message : string) : string :=
  sample_stringify
    (event_json {| event := "task/progress";
                   data := VObj [("taskId", VStr first_id); ("progress", VNum percent);
                                 ("total", VNum 100); ("message", VStr message)] |})
  +:+ nl.
Definition result_line (request : IPCRequest) (res : value) : string :=
  sample_stringify (response_json (result_response request res)) +:+ nl.
Definition status_line (st : string) (res : value) (err : string) : string :=
  result_line get_first
    (VObj [("status", VStr st); ("result", res); ("error", VStr err);
           ("progress", VUndefined); ("progressMessage", VUndefined)]).

Definition error_line (request : IPCRequest) (message : string) : string :=
  sample_stringify (response_json (error_response request (JsError message))) +:+ nl.

(** One accepted connection on a new server. *)
Definition one_client : Server := handleClientConnection 1 (new_server true).

(** Three lines in one chunk: a request, a text that is no JSON, a request. *)
Definition not_json : string := "{not json".
Definition three_lines : list byte :=
  list_byte_of_string
    (request_line list_roots +:+ nl +:+ not_json +:+ nl
     +:+ request_line get_missing +:+ nl).

End Scenario.

(** ** Vocabulary of the further properties *)

(** [s'] has the tasks, the counter and the schedule of [s]. *)
Definition same_tasking (s s' : Server) : Prop :=
  tasks s' = tasks s ∧ taskCounter s' = taskCounter s
  ∧ immediates s' = immediates s ∧ awaiting s' = awaiting s.

(** What [runTask] decides before it waits: the [coreService] call to make,
    or the error the task fails with. *)
Definition admission (t : Task) (sketch : option Sketch) : Completion CoreCall :=
  if strict_eq_str (tool t) "arduino_compile" then
    match sketch with
    | None => Throw (JsError "No sketch is currently open")
    | Some sk =>
        match get_prop (arguments t) "fqbn" with
        | Throw e => Throw e
        | Return fqbn =>
            if truthy fqbn
            then Return (Compile sk fqbn
                           (js_or (optchain (arguments t) "verbose") (VBool false)))
            else Throw (JsError "No board selected (fqbn required)")
        end
    end
  else if strict_eq_str (tool t) "arduino_upload" then
    match sketch with
    | None => Throw (JsError "No sketch is currently open")
    | Some sk =>
        match get_prop (arguments t) "fqbn" with
        | Throw e => Throw e
        | Return fqbn =>
            if truthy fqbn then
              if truthy (optchain (arguments t) "port")
              then Return (Upload sk fqbn (optchain (arguments t) "port")
                             (js_nullish (optchain (arguments t) "verify") (VBool true)))
              else Throw (JsError "No port specified")
            else Throw (JsError "No board selected (fqbn required)")
        end
    end
  else Throw (JsError ("Task not supported for tool: " +:+ js_to_string (tool t))).

(** What a settled [coreService] call means for the task: the result to
    store, or the error to fail with. *)
Definition conclusion (call : CoreCall) (outcome : Completion value) : Completion value :=
  match call, outcome with
  | Compile _ _ _, Return res =>
      Return (VObj [("success", VBool true);
                    ("buildPath", optchain res "buildPath");
                    ("executableSectionsSize", optchain res "executableSectionsSize")])
  | Compile _ _ _, Throw e => Throw (JsError ("Compilation failed: " +:+ error_text e))
  | Upload _ _ _ _, Return res =>
      match get_prop res "portAfterUpload" with
      | Return p => Return (VObj [("success", VBool true); ("portAfterUpload", p)])
      | Throw e => Throw (JsError ("Upload failed: " +:+ error_text e))
      end
  | Upload _ _ _ _, Throw e => Throw (JsError ("Upload failed: " +:+ error_text e))
  end.

(** The task as [task/create] stores it. *)
Definition new_task (taskId : string) (params : value) : Task :=
  {| task_id := taskId; status := pending; tool := optchain params "tool";
     arguments := optchain params "arguments"; result := VUndefined; error := None;
     progress := None; progressMessage := None |}.

(** The identifiers of the tasks whose execution is queued or waiting. *)
Definition scheduled (s : Server) : list string := immediates s ++ (awaiting s).*1.

(** How the members of a task go with its status. *)
Definition consistent (t : Task) : Prop :=
  (status t = pending → result t = VUndefined ∧ error t = None)
  ∧ (status t = failed → is_Some (error t))
  ∧ (status t = cancelled → error t = Some "Cancelled by user")
  ∧ (status t = completed → optchain (result t) "success" = VBool true).

(** The ways in which the server changes a task. *)
Inductive transition (t : Task) : Task → Prop :=
| tr_run : transition t (set_status running t)
| tr_fail (message : string) :
    transition t (set_error message (set_status failed t))
| tr_cancel :
    status t = pending ∨ status t = running →
    transition t (set_error "Cancelled by user" (set_status cancelled t))
| tr_complete (res : value) :
    optchain res "success" = VBool true →
    transition t (set_status completed (set_result res t)).

(** The ways in which the server changes the task table: a new task under a
    key that was free, or a change of one task. *)
Inductive table_step (m : gmap string Task) : gmap string Task → Prop :=
| ts_create (k : string) (params : value) :
    m !! k = None → table_step m (<[k := new_task k params]> m)
| ts_change (k : string) (t t' : Task) :
    m !! k = Some t → transition t t' → table_step m (<[k := t']> m).

(** The task after [runTask], by what it was admitted with or refused with,
    and the entry the schedule gains. *)
Definition admitted (k : string) (t : Task) (sketch : option Sketch)
    : Task * list (string * CoreCall) :=
  match admission t sketch with
  | Return call => (set_status running t, [(k, call)])
  | Throw e => (set_error (error_message e) (set_status failed t), [])
  end.

(** The task after its call was settled. *)
Definition concluded (t : Task) (call : CoreCall) (outcome : Completion value) : Task :=
  match conclusion call outcome with
  | Return res => set_status completed (set_result res t)
  | Throw e => set_error (error_message e) (set_status failed t)
  end.

(** Every [pending] task has its callback queued and every [running] task
    has a call it waits for. *)
Definition nothing_forgotten (s : Server) : Prop :=
  ∀ k t, tasks s !! k = Some t →
    (status t = pending → k ∈ immediates s)
    ∧ (status t = running → k ∈ (awaiting s).*1).

(** No identifier is scheduled twice, and all that are scheduled were
    issued. *)
Definition scheduled_once (s : Server) : Prop :=
  NoDup (scheduled s)
  ∧ ∀ k, k ∈ scheduled s → ∃ n now, k = make_task_id n now ∧ (n ≤ taskCounter s)%N.

(** [s'] is [s] but for what the console holds. *)
Definition same_but_console (s s' : Server) : Prop :=
  clients s' = clients s ∧ tasks s' = tasks s ∧ taskCounter s' = taskCounter s
  ∧ lastBuildOutput s' = lastBuildOutput s ∧ currentSketch s' = currentSketch s
  ∧ libraryService s' = libraryService s ∧ sockets s' = sockets s
  ∧ immediates s' = immediates s ∧ awaiting s' = awaiting s.

(** The methods whose handling can change more than the console. *)
Definition state_changing_methods : list string :=
  ["task/create"; "task/cancel"; "sketch/open"; "sketch/fromExample"].

(** The connections of [s'] are those of [s], each with its buffer and its
    fault, and with what it had received, possibly followed by more. *)
Definition extends_output (s s' : Server) : Prop :=
  ∀ socket,
    match sockets s !! socket with
    | None => sockets s' !! socket = None
    | Some c =>
        ∃ c', sockets s' !! socket = Some c'
          ∧ buffer c' = buffer c ∧ write_fault c' = write_fault c
          ∧ written c `prefix_of` written c'
    end.

(** The methods that the protocol declares ([IPCMethod]). *)
Definition declared_methods : list string :=
  [ "sketch/create"; "sketch/open"; "sketch/save"; "sketch/getContent";
    "sketch/setContent"; "sketch/list"; "sketch/getCurrent"; "sketch/getFiles";
    "build/compile"; "build/upload"; "build/getOutput"; "build/getErrors";
    "board/listConnected"; "board/select"; "board/getSelected"; "board/search";
    "board/installCore";
    "serial/connect"; "serial/disconnect"; "serial/read"; "serial/write";
    "serial/listPorts"; "serial/getConfig"; "serial/setConfig";
    "library/search"; "library/install"; "library/remove"; "library/list";
    "library/getInfo";
    "context/getState";
    "roots/list"; "task/create"; "task/get"; "task/cancel" ].

(** The declared methods that have no working case in any handler. *)
Definition dead_methods : list string :=
  [ "build/upload"; "board/select"; "serial/connect"; "serial/disconnect";
    "serial/read"; "serial/write"; "serial/getConfig"; "serial/setConfig" ].

(** The text that lines and an unfinished line came from. *)
Definition unsplit (lines : list string) (rest : string) : string :=
  foldr (λ l acc, l +:+ nl +:+ acc) rest lines.

(** A request for [method]. *)
Definition request_for (id method : string) (params : value) : IPCRequest :=
  {| req_id := id; req_method := method; req_params := params |}.

(** [s'] has the stored build output and the library service of [s]. *)
Definition same_stored (s s' : Server) : Prop :=
  lastBuildOutput s' = lastBuildOutput s ∧ libraryService s' = libraryService s.

(** The IDE hands over a build output. *)
Definition is_build_output (ev : Event) : bool :=
  match ev with
  | SetBuildOutput _ _ => true
  | _ => false
  end.

(** What [build/getOutput] answers for a stored output. *)
Definition output_json (stored : option (string * string)) : value :=
  match stored with
  | Some (out, err) => VObj [("stdout", VStr out); ("stderr", VStr err)]
  | None => VObj [("stdout", VStr ""); ("stderr", VStr "")]
  end.

(** The lines of a compiler output that report an error, and those that
    report a warning and no error. *)
Definition error_lines (lines : list string) : list string :=
  List.filter (λ line, includes line "error:") lines.
Definition warning_lines (lines : list string) : list string :=
  List.filter (λ line, negb (includes line "error:") && includes line "warning:")
    lines.

(** The root that [roots/list] reports for a sketch. *)
Definition root_json (sk : Sketch) : value :=
  VObj [("uri", VStr (uri sk)); ("name", VStr (name sk)); ("isReadOnly", VBool false)].

(** The chunks that a history of events delivers on one connection. *)
Definition chunks_for (socket : nat) (history : list Event) : list (list byte) :=
  omap (λ ev, match ev with
              | Data k chunk _ => if decide (k = socket) then Some chunk else None
              | _ => None
              end) history.

(** The socket object is not accepted anew. *)
Definition accepts (socket : nat) (ev : Event) : bool :=
  match ev with
  | Connect k => bool_decide (k = socket)
  | _ => false
  end.

(** What a connection's buffer is after an event. *)
Definition buffer_after (socket : nat) (buf : string) (ev : Event) : string :=
  match ev with
  | Data k chunk _ => if decide (k = socket) then snd (frame buf chunk) else buf
  | _ => buf
  end.

(** A socket object starts to raise on [write]: the one event that a server
    on [net] does not meet. *)
Definition raises (ev : Event) : bool :=
  match ev with
  | WriteRaises _ _ => true
  | _ => false
  end.

(** No socket object raises on [write]. *)
Definition fault_free (s : Server) : Prop :=
  ∀ k c, sockets s !! k = Some c → write_fault c = None.

(** The clients are a set, and each of them is an accepted socket. *)
Definition registered (s : Server) : Prop :=
  NoDup (clients s) ∧ ∀ k, k ∈ clients s → is_Some (sockets s !! k).

(** ** Further scenarios *)

Module Cases.
Import Sample Scenario.

(** A client creates a compile task while a sketch is open; the callback of
    the task runs; the compiler is done. *)
Definition compile_created : list Event :=
  [ Connect 1; SetCurrentSketch (Some blink);
    Data 1 (wire create_compile) (λ _, calm) ].
Definition compile_started : list Event := compile_created ++ [Immediate].
Definition compile_finished : list Event :=
  compile_started ++ [Settle first_id (Return built)].

(** The task of these scenarios, as created, while the compiler runs and when
    it is done. *)
Definition created_task : Task :=
  {| task_id := first_id; status := pending; tool := VStr "arduino_compile";
     arguments := VObj [("fqbn", VStr "arduino:avr:uno")];
     result := VUndefined; error := None; progress := None;
     progressMessage := None |}.
Definition running_task : Task := set_status running created_task.
Definition completed_task : Task :=
  set_status completed
    (set_result (VObj [("success", VBool true);
                       ("buildPath", VStr "/tmp/arduino/build");
                       ("executableSectionsSize", VUndefined)]) running_task).
Definition compile_call : CoreCall :=
  Compile blink (VStr "arduino:avr:uno") (VBool false).

Definition list_libraries : IPCRequest := request_for "req_9" "library/list" (VObj []).
Definition read_serial : IPCRequest := request_for "req_10" "serial/read" (VObj []).
Definition blink_path : list (string * value) := [("path", VStr "/sketches/Blink")].
Definition open_blink : IPCRequest := request_for "req_12" "sketch/open" (VObj blink_path).

(** An environment in which [loadSketch] resolves to [undefined]. *)
Definition absent : Ext :=
  {| Date_now := 1700000000000; service := Return VNull;
     loadSketch := Return (Nothing false); copy := Return (Nothing false) |}.

(** One client, and the sketch Fade is the current one. *)
Definition fade_open : Server := with_currentSketch (Some fade) one_client.

(** Two accepted connections; one connection whose socket object raises on
    [write]. *)
Definition two_clients : Server := handleClientConnection 2 one_client.
Definition raising_socket : Server :=
  raise_on_write 1 (JsError "write EPIPE") one_client.

(** A line arrives in two chunks on one connection while another connection
    is accepted, sends a request and reports an error. *)
Definition interleaved : list Event :=
  [ Data 1 (list_byte_of_string "{not js") (λ _, calm);
    Connect 2;
    Data 2 (wire list_roots) (λ _, calm);
    SocketError 2 (JsError "write EPIPE");
    Data 1 (list_byte_of_string "on") (λ _, calm) ].

End Cases.

(** * Properties *)

(** ** Identifiers of tasks *)

Lemma pretty_N_char_plain (x : N) : pretty_N_char x ≠ "_"%char.
Proof. unfold pretty_N_char. repeat case_match; discriminate. Qed.

Lemma pretty_N_go_plain (x : N) (s : string) :
  occurs "_" s = false → occurs "_" (pretty_N_go x s) = false.
Proof.
  revert s. induction (N.lt_wf_0 x) as [x _ IH]. intros s Hs.
  destruct (decide (x = 0)%N) as [->|Hx].
  - by rewrite pretty_N_go_0.
  - rewrite pretty_N_go_step by lia. apply IH.
    + apply N.div_lt; lia.
    + cbn [occurs]. rewrite Hs, orb_false_r.
      apply Ascii.eqb_neq. intros Heq. by apply (pretty_N_char_plain (x `mod` 10)).
Qed.

Lemma pretty_N_plain (x : N) : occurs "_" (pretty x) = false.
Proof.
  unfold pretty, pretty_N. case_decide; [reflexivity|].
  by apply pretty_N_go_plain.
Qed.

Lemma append_separator_inj (c : ascii) (a a' b b' : string) :
  occurs c a = false → occurs c a' = false →
  a +:+ String c b = a' +:+ String c b' → a = a' ∧ b = b'.
Proof.
  revert a'. induction a as [|x a IH]; intros [|x' a']; cbn [occurs append].
  - intros _ _ [= ->]. done.
  - intros _ Ha' [= <- _]. rewrite Ascii.eqb_refl in Ha'. discriminate.
  - intros Ha _ [= -> _]. rewrite Ascii.eqb_refl in Ha. discriminate.
  - intros [_ Ha]%orb_false_elim [_ Ha']%orb_false_elim [= -> Hrest].
    destruct (IH a' Ha Ha' Hrest) as [-> ->]. done.
Qed.

(** Two identifiers agree only if they were made from the same counter and
    the same clock value. *)
Lemma make_task_id_inj (n n' : N) (now now' : Z) :
  make_task_id n now = make_task_id n' now' → n = n' ∧ now = now'.
Proof.
  unfold make_task_id. intros [= Heq].
  apply append_separator_inj in Heq as [Hn Hnow]; auto using pretty_N_plain.
  split; [by apply (inj pretty)|by apply (inj pretty)].
Qed.

Lemma alter_twice_insert (f g : Task → Task) (m : gmap string Task) k t :
  m !! k = Some t → alter f k (alter g k m) = <[k := f (g t)]> m.
Proof.
  intros Hk. apply map_eq. intros j.
  destruct (decide (k = j)) as [->|Hne].
  - rewrite !lookup_alter_eq, Hk, lookup_insert_eq. reflexivity.
  - rewrite !lookup_alter_ne, lookup_insert_ne by done. reflexivity.
Qed.

(** ** Broadcasting *)

Section Broadcast.
Context `{Runtime}.

Lemma only_io_refl (s : Server) : only_io s s.
Proof. repeat split. Qed.

Lemma only_io_trans (s1 s2 s3 : Server) :
  only_io s1 s2 → only_io s2 s3 → only_io s1 s3.
Proof.
  unfold only_io. intros (?&?&?&?&?&?&?&?) (?&?&?&?&?&?&?&?).
  repeat split; congruence.
Qed.

Lemma only_io_same_table (s s' : Server) : only_io s s' → same_table s s'.
Proof. intros (?&?&?&?). by split. Qed.

Lemma socket_write_cases (socket : nat) (message : string) (s : Server) :
  match sockets s !! socket with
  | None => socket_write socket message s = (Return tt, s)
  | Some c =>
      match write_fault c with
      | Some e => socket_write socket message s = (Throw e, s)
      | None => socket_write socket message s
                = (Return tt, with_sockets (insert socket (deliver message c)) s)
      end
  end.
Proof.
  unfold socket_write, deliver.
  destruct (sockets s !! socket) as [c|]; [|done].
  by destruct (write_fault c).
Qed.

Lemma socket_write_only_io (socket : nat) (message : string) (s : Server) :
  only_io s (snd (socket_write socket message s)).
Proof.
  unfold socket_write. repeat case_match; simpl; repeat split.
Qed.

(** One turn of the loop of [broadcast]. *)
Lemma broadcast_to_sockets (message : string) (s : Server) (client socket : nat) :
  sockets (broadcast_to message s client) !! socket
  = if decide (socket = client) then deliver message <$> sockets s !! socket
    else sockets s !! socket.
Proof.
  unfold broadcast_to. pose proof (socket_write_cases client message s) as Hw.
  destruct (sockets s !! client) as [c|] eqn:Hc.
  - unfold deliver in *. destruct (write_fault c) as [e|] eqn:He; rewrite Hw; simpl.
    + case_decide as Heq; [|done]. subst. rewrite Hc. simpl. by rewrite He.
    + case_decide as Heq.
      * subst. rewrite lookup_insert_eq, Hc. simpl. by rewrite He.
      * by rewrite lookup_insert_ne.
  - rewrite Hw. case_decide as Heq; [|done]. subst. by rewrite Hc.
Qed.

Lemma broadcast_to_console (message : string) (s : Server) (client : nat) :
  console (broadcast_to message s client)
  = console s ++ option_list (send_failure s client).
Proof.
  unfold broadcast_to, send_failure.
  pose proof (socket_write_cases client message s) as Hw.
  destruct (sockets s !! client) as [c|]; simpl.
  - destruct (write_fault c); rewrite Hw; simpl; by rewrite ?app_nil_r.
  - rewrite Hw. simpl. by rewrite app_nil_r.
Qed.

Lemma broadcast_to_only_io (message : string) (s : Server) (client : nat) :
  only_io s (broadcast_to message s client).
Proof.
  unfold broadcast_to.
  pose proof (socket_write_only_io client message s) as Hio.
  destruct (socket_write client message s) as [[u|e] s']; simpl in *; [done|].
  eapply only_io_trans; [exact Hio|]. repeat split.
Qed.

Lemma send_failure_broadcast_to (message : string) (s : Server) (client socket : nat) :
  send_failure (broadcast_to message s client) socket = send_failure s socket.
Proof.
  unfold send_failure. rewrite broadcast_to_sockets.
  case_decide; [|done]. destruct (sockets s !! socket) as [c|]; [|done].
  simpl. unfold deliver. by destruct (write_fault c) eqn:He; simpl; rewrite ?He.
Qed.

(** The whole loop, over any list of distinct clients. *)
Lemma broadcast_loop (message : string) (l : list nat) (s : Server) :
  NoDup l →
  let s' := foldl (broadcast_to message) s l in
  only_io s s'
  ∧ (∀ socket, sockets s' !! socket
       = if decide (socket ∈ l) then deliver message <$> sockets s !! socket
         else sockets s !! socket)
  ∧ console s' = console s ++ omap (send_failure s) l.
Proof.
  revert s. induction l as [|client l IH]; intros s Hnd; cbn [foldl].
  - split; [apply only_io_refl|]. split; [|simpl; by rewrite app_nil_r].
    intros socket. rewrite decide_False by apply not_elem_of_nil. done.
  - apply NoDup_cons in Hnd as [Hnotin Hnd].
    destruct (IH (broadcast_to message s client) Hnd) as (Hio & Hsock & Hcon).
    split; [|split].
    + eapply only_io_trans; [apply broadcast_to_only_io|exact Hio].
    + intros socket. rewrite Hsock, broadcast_to_sockets.
      destruct (decide (socket = client)) as [->|Hne].
      * rewrite decide_False by done.
        rewrite decide_True by (apply elem_of_cons; by left). done.
      * destruct (decide (socket ∈ l)) as [Hin|Hnin].
        -- rewrite decide_True by (apply elem_of_cons; by right). done.
        -- rewrite decide_False; [done|]. intros [?|?]%elem_of_cons; done.
    + rewrite Hcon, broadcast_to_console, <-app_assoc. f_equal. simpl.
      rewrite (list_omap_ext (send_failure (broadcast_to message s client))
                 (send_failure s) l l);
        [by destruct (send_failure s client)|].
      apply Forall2_same_length_lookup_2; [done|].
      intros i x y Hx Hy. assert (x = y) as -> by congruence.
      apply send_failure_broadcast_to.
Qed.

Lemma broadcast_only_io (ev : IPCEvent) (s : Server) : only_io s (broadcast ev s).
Proof.
  unfold broadcast. generalize (JSON_stringify (event_json ev) +:+ nl) as m.
  intros m. generalize (clients s) as l. intros l. revert s.
  induction l as [|c l IH]; intros s; simpl; [apply only_io_refl|].
  eapply only_io_trans; [apply broadcast_to_only_io|apply IH].
Qed.

End Broadcast.

(** ** The task table *)

Section TaskTable.
Context `{Runtime}.

Lemma same_table_refl (s : Server) : same_table s s.
Proof. by split. Qed.

Lemma same_table_trans (s1 s2 s3 : Server) :
  same_table s1 s2 → same_table s2 s3 → same_table s1 s3.
Proof. intros [??] [??]. split; congruence. Qed.

Lemma emitProgress_only_io (taskId : string) (percent : Z) (message : string)
    (s : Server) : only_io s (emitProgress taskId percent message s).
Proof. apply broadcast_only_io. Qed.

Lemma setCurrentSketch_same_table (sketch : option Sketch) (s : Server) :
  same_table s (setCurrentSketch sketch s).
Proof.
  unfold setCurrentSketch. case_match; [|by split].
  eapply same_table_trans; [|apply only_io_same_table, broadcast_only_io].
  by split.
Qed.

Lemma ids_issued_same_table (s s' : Server) :
  same_table s s' → ids_issued s → ids_issued s'.
Proof. intros [Ht Hc] Hs k t. rewrite Ht, Hc. apply Hs. Qed.

Lemma ids_issued_update_task (taskId : string) (f : Task → Task) (s : Server) :
  ids_issued s → ids_issued (update_task taskId f s).
Proof.
  intros Hs k t. unfold update_task. simpl. intros Hk.
  destruct (tasks s !! k) as [t0|] eqn:Hk0.
  - by apply (Hs k t0).
  - destruct (decide (taskId = k)) as [->|Hne].
    + rewrite lookup_alter_eq, Hk0 in Hk. discriminate.
    + rewrite lookup_alter_ne, Hk0 in Hk by done. discriminate.
Qed.

Lemma ids_issued_new_server (library_injected : bool) :
  ids_issued (new_server library_injected).
Proof. intros k t. simpl. by rewrite lookup_empty. Qed.

(** An identifier made from the next counter value is not in the table. *)
Lemma next_id_fresh (s : Server) (now : Z) :
  ids_issued s → tasks s !! make_task_id (taskCounter s + 1) now = None.
Proof.
  intros Hs. destruct (tasks s !! _) as [t|] eqn:Hk; [|done].
  destruct (Hs _ _ Hk) as (n & now' & Heq & Hle).
  apply make_task_id_inj in Heq as [<- _]. lia.
Qed.

Lemma handleTask_ids_issued (now : Z) (method : string)
    (params : value) (s : Server) :
  ids_issued s → ids_issued (snd (handleTask now method params s)).
Proof.
  intros Hs. unfold handleTask.
  destruct (method === "task/create").
  { assert (ids_issued (with_taskCounter (taskCounter s + 1) s)) as Hs1.
    { intros k t Hk. destruct (Hs k t Hk) as (n & now' & -> & Hle).
      exists n, now'. split; [done|]. cbn [taskCounter with_taskCounter]. lia. }
    destruct (get_prop params "tool") as [tool|e]; [|exact Hs1].
    intros k t. simpl.
    destruct (decide (make_task_id (taskCounter s + 1) now = k)) as [<-|Hne].
    - intros _. exists (taskCounter s + 1)%N, now. split; [done|lia].
    - rewrite lookup_insert_ne by done. intros Hk.
      destruct (Hs k t Hk) as (n & now' & -> & Hle).
      exists n, now'. split; [done|lia]. }
  destruct (method === "task/get").
  { destruct (get_prop params "taskId") as [taskId|e]; [|done].
    by destruct (tasks_get _ s). }
  destruct (method === "task/cancel"); [|done].
  destruct (get_prop params "taskId") as [taskId|e]; [|done].
  destruct taskId; try done.
  destruct (tasks_get _ s); [|done].
  destruct (_ || _); [|done]. simpl.
  by do 2 apply ids_issued_update_task.
Qed.

(** The answers of [task/cancel]. *)
Lemma handleTask_cancel (now : Z) (params : list (string * value)) (s : Server)
    (k : string) (t : Task) :
  field "taskId" params = VStr k →
  tasks s !! k = Some t →
  handleTask now "task/cancel" (VObj params) s
  = if bool_decide (status t = pending ∨ status t = running)
    then (Return (VObj [("cancelled", VBool true)]),
          with_tasks (insert k (set_error "Cancelled by user" (set_status cancelled t))) s)
    else (Return (VObj [("cancelled", VBool false)]), s).
Proof.
  intros Hid Hk. unfold handleTask. simpl. rewrite Hid. simpl. rewrite Hk.
  destruct (status t); simpl; try reflexivity.
  all: unfold update_task, with_tasks; simpl; do 2 f_equal;
    by apply alter_twice_insert.
Qed.

End TaskTable.

(** ** All identifiers in the table were issued: an invariant of the server *)

Section Invariant.
Context `{Runtime}.

Ltac table_frame :=
  repeat (simplify_eq/=;
          first [ apply same_table_refl
                | apply setCurrentSketch_same_table
                | (split; reflexivity)
                | case_match ]).

Lemma handleContext_same_table ext method params (s : Server) :
  same_table s (snd (handleContext ext method params s)).
Proof. unfold handleContext. table_frame. Qed.

Lemma handleRoots_same_table method params (s : Server) :
  same_table s (snd (handleRoots method params s)).
Proof. unfold handleRoots. table_frame. Qed.

Lemma handleSketch_same_table ext method params (s : Server) :
  same_table s (snd (handleSketch ext method params s)).
Proof. unfold handleSketch. table_frame. Qed.

Lemma handleBuild_same_table ext method params (s : Server) :
  same_table s (snd (handleBuild ext method params s)).
Proof. unfold handleBuild. table_frame. Qed.

Lemma handleBoard_same_table ext method params (s : Server) :
  same_table s (snd (handleBoard ext method params s)).
Proof. unfold handleBoard. table_frame. Qed.

Lemma handleSerial_same_table ext method params (s : Server) :
  same_table s (snd (handleSerial ext method params s)).
Proof. unfold handleSerial. table_frame. Qed.

Lemma handleLibrary_same_table ext method params (s : Server) :
  same_table s (snd (handleLibrary ext method params s)).
Proof. unfold handleLibrary. table_frame. Qed.

Lemma routeRequest_ids_issued ext request (s : Server) :
  ids_issued s → ids_issued (snd (routeRequest ext request s)).
Proof.
  intros Hs. unfold routeRequest.
  set (s0 := log _ s). assert (ids_issued s0) as Hs0.
  { eapply ids_issued_same_table; [|exact Hs]. by split. }
  clearbody s0.
  repeat case_match; try done;
    first [ by apply handleTask_ids_issued
          | eapply ids_issued_same_table; [|exact Hs0];
            first [ apply handleContext_same_table | apply handleRoots_same_table
                  | apply handleSketch_same_table | apply handleBuild_same_table
                  | apply handleBoard_same_table | apply handleSerial_same_table
                  | apply handleLibrary_same_table ] ].
Qed.

Lemma socket_write_ids_issued socket message (s : Server) :
  ids_issued s → ids_issued (snd (socket_write socket message s)).
Proof.
  apply ids_issued_same_table, only_io_same_table, socket_write_only_io.
Qed.

Lemma handleMessage_ids_issued ext socket message (s : Server) :
  ids_issued s → ids_issued (snd (handleMessage ext socket message s)).
Proof.
  intros Hs. unfold handleMessage.
  destruct (JSON_parse message) as [request|]; simpl.
  { pose proof (routeRequest_ids_issued ext request s Hs) as Hr.
    destruct (routeRequest ext request s) as [[res|e] s1]; simpl in *.
    - pose proof (socket_write_ids_issued socket
                    (response_line (result_response request res)) s1 Hr) as Hw.
      destruct (socket_write socket _ s1) as [[u|e] s2]; simpl in *; [done|].
      by apply socket_write_ids_issued.
    - by apply socket_write_ids_issued. }
  eapply ids_issued_same_table; [|exact Hs]. by split.
Qed.

Lemma handle_lines_ids_issued exts k socket lines (s : Server) :
  ids_issued s → ids_issued (snd (handle_lines exts k socket lines s)).
Proof.
  revert k s. induction lines as [|line rest IH]; intros k s Hs; simpl; [done|].
  destruct (is_blank line); [by apply IH|].
  pose proof (handleMessage_ids_issued (exts k) socket line s Hs) as Hm.
  destruct (handleMessage (exts k) socket line s) as [[u|e] s1]; simpl in *;
    [by apply IH|done].
Qed.

Lemma on_data_ids_issued exts socket chunk (s : Server) :
  ids_issued s → ids_issued (snd (on_data exts socket chunk s)).
Proof.
  intros Hs. unfold on_data. destruct (sockets s !! socket) as [c|]; [|done].
  destruct (frame (buffer c) chunk) as [lines rest].
  apply handle_lines_ids_issued.
  eapply ids_issued_same_table; [|exact Hs]. by split.
Qed.

Lemma ids_issued_only_io (s s' : Server) :
  only_io s s' → ids_issued s → ids_issued s'.
Proof. intros Hio. by apply ids_issued_same_table, only_io_same_table. Qed.

Lemma runCompileTask_begin_only_io task taskId (s : Server) :
  only_io s (snd (runCompileTask_begin task taskId s)).
Proof.
  unfold runCompileTask_begin.
  repeat case_match; simpl;
    repeat first [ apply emitProgress_only_io
                 | eapply only_io_trans; [apply emitProgress_only_io|] ].
Qed.

Lemma runUploadTask_begin_only_io task taskId (s : Server) :
  only_io s (snd (runUploadTask_begin task taskId s)).
Proof.
  unfold runUploadTask_begin.
  repeat case_match; simpl;
    repeat first [ apply emitProgress_only_io
                 | eapply only_io_trans; [apply emitProgress_only_io|] ].
Qed.

Lemma runTask_catch_ids_issued taskId e (s : Server) :
  ids_issued s → ids_issued (runTask_catch taskId e s).
Proof. intros Hs. by do 2 apply ids_issued_update_task. Qed.

Lemma runTask_ids_issued taskId (s : Server) :
  ids_issued s → ids_issued (runTask taskId s).
Proof.
  intros Hs. unfold runTask. destruct (tasks s !! taskId) as [task|]; [|done].
  set (s2 := emitProgress taskId 0 "Starting..." _).
  assert (ids_issued s2) as Hs2.
  { eapply ids_issued_only_io; [apply emitProgress_only_io|].
    by apply ids_issued_update_task. }
  clearbody s2.
  assert (∀ started s3,
    ids_issued s3 →
    ids_issued match started with
               | Return call =>
                   with_awaiting (λ l : list (string * CoreCall), l ++ [(taskId, call)]) s3
               | Throw e => runTask_catch taskId e s3
               end) as Hend.
  { intros [call|e] s3 Hs3; [|by apply runTask_catch_ids_issued].
    eapply ids_issued_same_table; [|exact Hs3]. by split. }
  destruct (strict_eq_str (tool task) "arduino_compile").
  { pose proof (runCompileTask_begin_only_io task taskId s2) as Hio.
    destruct (runCompileTask_begin task taskId s2) as [started s3].
    apply Hend. by eapply ids_issued_only_io. }
  destruct (strict_eq_str (tool task) "arduino_upload").
  { pose proof (runUploadTask_begin_only_io task taskId s2) as Hio.
    destruct (runUploadTask_begin task taskId s2) as [started s3].
    apply Hend. by eapply ids_issued_only_io. }
  by apply (Hend (Throw _) s2).
Qed.

Lemma settle_ids_issued taskId outcome (s : Server) :
  ids_issued s → ids_issued (settle taskId outcome s).
Proof.
  intros Hs. unfold settle.
  destruct (take_call taskId (awaiting s)) as [[call rest]|]; [|done].
  set (s1 := with_awaiting _ s). assert (ids_issued s1) as Hs1.
  { eapply ids_issued_same_table; [|exact Hs]. by split. }
  clearbody s1.
  assert (ids_issued (snd (runCompileTask_resume taskId outcome s1))) as Hc.
  { unfold runCompileTask_resume. destruct outcome; simpl; [|done].
    eapply ids_issued_only_io; [apply emitProgress_only_io|].
    by do 2 apply ids_issued_update_task. }
  assert (ids_issued (snd (runUploadTask_resume taskId outcome s1))) as Hu.
  { unfold runUploadTask_resume. destruct outcome; simpl; [|done].
    destruct (get_prop _ _); simpl; [|done].
    eapply ids_issued_only_io; [apply emitProgress_only_io|].
    by do 2 apply ids_issued_update_task. }
  destruct call.
  - destruct (runCompileTask_resume taskId outcome s1) as [[u|e] s2]; simpl in *;
      [done|by apply runTask_catch_ids_issued].
  - destruct (runUploadTask_resume taskId outcome s1) as [[u|e] s2]; simpl in *;
      [done|by apply runTask_catch_ids_issued].
Qed.

Lemma step_ids_issued (s : Server) (ev : Event) :
  ids_issued s → ids_issued (step s ev).
Proof.
  intros Hs. destruct ev; simpl.
  - eapply ids_issued_same_table; [|exact Hs]. by split.
  - by apply on_data_ids_issued.
  - eapply ids_issued_same_table; [|exact Hs]. by split.
  - eapply ids_issued_same_table; [|exact Hs]. by split.
  - eapply ids_issued_same_table; [|exact Hs]. by split.
  - unfold run_immediate. destruct (immediates s); [done|].
    apply runTask_ids_issued. eapply ids_issued_same_table; [|exact Hs]. by split.
  - by apply settle_ids_issued.
  - eapply ids_issued_same_table; [apply setCurrentSketch_same_table|done].
  - eapply ids_issued_same_table; [|exact Hs]. by split.
  - eapply ids_issued_only_io; [apply broadcast_only_io|done].
Qed.

(** Whatever happened to a server since it was constructed, the keys of its
    task table are identifiers it issued. *)
Lemma run_ids_issued (library_injected : bool) (history : list Event) :
  ids_issued (run (new_server library_injected) history).
Proof.
  unfold run. generalize (ids_issued_new_server library_injected).
  generalize (new_server library_injected) as s.
  induction history as [|ev history IH]; intros s Hs; simpl; [done|].
  by apply IH, step_ids_issued.
Qed.

End Invariant.

(** ** What the task requests do *)

Section TaskRequests.
Context `{Runtime}.

(** C2: on a task of the table, [task/cancel] answers [{cancelled: true}]
    with the status set to [cancelled] and the error set to "Cancelled by
    user" if and only if the status was [pending] or [running] when it was
    called, and then nothing else of the task or the server changes; called on
    a [completed] or [failed] task it answers [{cancelled: false}] and leaves
    the server, the task with its status, result and error included, as it
    was. *)
Theorem task_cancel_effect (now : Z) (params : list (string * value))
    (s : Server) (k : string) (t : Task) :
  field "taskId" params = VStr k →
  tasks s !! k = Some t →
  let answer := fst (handleTask now "task/cancel" (VObj params) s) in
  let s' := snd (handleTask now "task/cancel" (VObj params) s) in
  ((answer = Return (VObj [("cancelled", VBool true)])
    ∧ status <$> tasks s' !! k = Some cancelled
    ∧ error <$> tasks s' !! k = Some (Some "Cancelled by user"))
   ↔ (status t = pending ∨ status t = running))
  ∧ (status t = pending ∨ status t = running →
       s' = with_tasks
              (insert k (set_error "Cancelled by user" (set_status cancelled t))) s)
  ∧ (status t = completed ∨ status t = failed →
       answer = Return (VObj [("cancelled", VBool false)]) ∧ s' = s).
Proof.
  intros Hid Hk. cbv zeta. rewrite (handleTask_cancel now params s k t Hid Hk).
  destruct (decide (status t = pending ∨ status t = running)) as [Hlive|Hdone].
  - rewrite bool_decide_true by done. simpl. rewrite lookup_insert_eq.
    split; [|split]; [tauto|done|].
    intros [Hc|Hf]; destruct Hlive as [Hp|Hr]; congruence.
  - rewrite bool_decide_false by done. simpl.
    split; [|split]; [|tauto|done].
    split; [intros [[=] _]|tauto].
Qed.

Lemma handleTask_get (now : Z) (params : list (string * value)) (s : Server) :
  handleTask now "task/get" (VObj params) s
  = match tasks_get (field "taskId" params) s with
    | None => (Throw (JsError ("Task not found: "
                               +:+ js_to_string (field "taskId" params))), s)
    | Some task => (Return (snapshot task), s)
    end.
Proof. reflexivity. Qed.


(** C3: [task/create] on any server that can be reached.  The identifier it
    makes is new to the table; the call returns [{taskId}], stores the task
    in status [pending], queues its execution and does nothing else: no part
    of the task has run.  A [task/get] on the server the call leaves behind
    reports [pending]. *)
Theorem task_create_pending (library_injected : bool) (history : list Event)
    (now now' : Z) (params : list (string * value)) :
  let s := run (new_server library_injected) history in
  let taskId := make_task_id (taskCounter s + 1) now in
  let task := {| task_id := taskId; status := pending;
                 tool := field "tool" params; arguments := field "arguments" params;
                 result := VUndefined; error := None; progress := None;
                 progressMessage := None |} in
  let s' := with_immediates (λ q : list string, q ++ [taskId])
              (with_tasks (insert taskId task)
                 (with_taskCounter (taskCounter s + 1) s)) in
  tasks s !! taskId = None
  ∧ handleTask now "task/create" (VObj params) s
    = (Return (VObj [("taskId", VStr taskId)]), s')
  ∧ tasks s' !! taskId = Some task
  ∧ handleTask now' "task/get" (VObj [("taskId", VStr taskId)]) s'
    = (Return (VObj [("status", VStr "pending"); ("result", VUndefined);
                     ("error", VUndefined); ("progress", VUndefined);
                     ("progressMessage", VUndefined)]), s').
Proof.
  intros s taskId task s'.
  split; [apply next_id_fresh, run_ids_issued|].
  split; [reflexivity|].
  assert (tasks s' !! taskId = Some task) as Hk by apply lookup_insert_eq.
  split; [exact Hk|].
  rewrite handleTask_get.
  change (tasks_get _ s') with (tasks s' !! taskId). by rewrite Hk.
Qed.

End TaskRequests.

(** ** Broadcast and the current sketch *)

Section Events.
Context `{Runtime}.

(** What [broadcast] does, socket objects whose [write] raises included: it
    serializes the event once and writes that text to every connection of
    the set whose [write] does not raise; a [write] that raises is caught
    and logged, and the other connections still get the event. *)
Lemma broadcast_writes (ev : IPCEvent) (s : Server) :
  NoDup (clients s) →
  let message := JSON_stringify (event_json ev) +:+ nl in
  let s' := broadcast ev s in
  (∀ socket c, socket ∈ clients s → sockets s !! socket = Some c →
     write_fault c = None →
     sockets s' !! socket
     = Some {| write_fault := None; written := written c ++ [message];
               buffer := buffer c |})
  ∧ (∀ socket c, sockets s !! socket = Some c →
       socket ∉ clients s ∨ write_fault c ≠ None → sockets s' !! socket = Some c)
  ∧ console s' = console s ++ omap (send_failure s) (clients s)
  ∧ clients s' = clients s
  ∧ only_io s s'.
Proof.
  intros Hnd message s'.
  destruct (broadcast_loop message (clients s) s Hnd) as (Hio & Hsock & Hcon).
  fold (broadcast ev s) in Hio, Hsock, Hcon. fold s' in Hio, Hsock, Hcon.
  split; [|split; [|split; [exact Hcon|split; [apply Hio|exact Hio]]]].
  - intros socket c Hin Hc Hok. rewrite Hsock, decide_True, Hc by done.
    simpl. unfold deliver. by rewrite Hok.
  - intros socket c Hc Hcase. rewrite Hsock, Hc.
    case_decide as Hin; [|done]. simpl. unfold deliver.
    destruct (write_fault c); [done|]. by destruct Hcase.
Qed.

Lemma omap_none {A B} (f : A → option B) (l : list A) :
  (∀ x, x ∈ l → f x = None) → omap f l = [].
Proof.
  induction l as [|a l IH]; intros Hf; [done|]. simpl.
  rewrite Hf by (apply elem_of_cons; by left).
  apply IH. intros x Hx. apply Hf, elem_of_cons. by right.
Qed.

(** C8: a broadcast over a set of live connections, one of which fails.  The
    connections are sockets of [net], whose [write] does not raise: a write
    that fails is reported by the ['error'] event of its socket once
    [broadcast] has returned.  The event is serialized once and that text is
    written to every connection of the set; [broadcast] returns without
    raising and without having logged anything, and touches nothing but the
    sockets it wrote to.  When the failure of [failing] is reported, it is
    logged and [failing] is dropped from the set; every other connection
    stays in the set and keeps what was delivered to it; a later broadcast
    writes nothing to [failing]. *)
Theorem broadcast_isolates_failures (ev : IPCEvent) (failing : nat) (err : Thrown)
    (s : Server) :
  NoDup (clients s) →
  (∀ socket, socket ∈ clients s → writable s socket) →
  let message := JSON_stringify (event_json ev) +:+ nl in
  let sent := broadcast ev s in
  let after := on_error failing err sent in
  (∀ socket c, socket ∈ clients s → sockets s !! socket = Some c →
     sockets sent !! socket
     = Some {| write_fault := None; written := written c ++ [message];
               buffer := buffer c |})
  ∧ (∀ socket, socket ∉ clients s → sockets sent !! socket = sockets s !! socket)
  ∧ console sent = console s
  ∧ only_io s sent
  ∧ console after
    = console s ++ [console_error "[arduino-mcp] Socket error:" (ThrownArg err)]
  ∧ clients after = clients_delete failing (clients s)
  ∧ (failing ∉ clients after)
  ∧ (∀ socket, socket ≠ failing → socket ∈ clients after ↔ socket ∈ clients s)
  ∧ sockets after = sockets sent
  ∧ ∀ ev', sockets (broadcast ev' after) !! failing = sockets after !! failing.
Proof.
  intros Hnd Hlive message sent after.
  assert (only_io s sent
          ∧ (∀ socket, sockets sent !! socket
               = if decide (socket ∈ clients s)
                 then deliver message <$> sockets s !! socket
                 else sockets s !! socket)
          ∧ console sent = console s ++ omap (send_failure s) (clients s))
    as (Hio & Hsock & Hcon)
    by exact (broadcast_loop message (clients s) s Hnd).
  assert (console sent = console s) as Hquiet.
  { rewrite Hcon. clear Hcon Hsock Hio.
    assert (∀ socket, socket ∈ clients s → send_failure s socket = None) as Hnone.
    { intros socket Hin. destruct (Hlive socket Hin) as (c & Hc & Hok).
      unfold send_failure. rewrite Hc. simpl. by rewrite Hok. }
    by rewrite (omap_none _ _ Hnone), app_nil_r. }
  assert (clients after = clients_delete failing (clients s)) as Hafter.
  { subst after. unfold on_error. cbn [clients with_clients log].
    by destruct Hio as (-> & _). }
  assert (∀ socket, socket ∈ clients after ↔ socket ∈ clients s ∧ socket ≠ failing)
    as Hin.
  { intros socket. rewrite Hafter. unfold clients_delete.
    rewrite list_elem_of_filter. tauto. }
  repeat split.
  - intros socket c Hsocket Hc. destruct (Hlive socket Hsocket) as (c' & Hc' & Hok).
    assert (c' = c) as -> by congruence.
    rewrite Hsock, decide_True, Hc by done. simpl. unfold deliver. by rewrite Hok.
  - intros socket Hout. by rewrite Hsock, decide_False.
  - exact Hquiet.
  - apply Hio.
  - apply Hio.
  - apply Hio.
  - apply Hio.
  - apply Hio.
  - apply Hio.
  - apply Hio.
  - apply Hio.
  - subst after. unfold on_error. cbn [console with_clients log]. by rewrite Hquiet.
  - exact Hafter.
  - rewrite Hin. tauto.
  - intros Hsocket. by apply Hin.
  - intros Hsocket. by apply Hin.
  - intros ev'. unfold broadcast.
    assert (NoDup (clients after)) as Hnd'
      by (rewrite Hafter; by apply NoDup_filter).
    destruct (broadcast_loop (JSON_stringify (event_json ev') +:+ nl)
                (clients after) after Hnd') as (_ & -> & _).
    rewrite decide_False; [done|]. rewrite Hin. tauto.
Qed.

(** C10: [setCurrentSketch] always stores the sketch it is given, and it
    broadcasts [roots/changed] exactly when the [uri] of the new sketch is not
    that of the previous one ([null] having none): every connection of the
    set that can be written to receives that one event then, and nothing
    otherwise.  Tasks, clients, build output and the rest of the server are
    not touched. *)
Theorem setCurrentSketch_effect (sketch : option Sketch) (s : Server) :
  NoDup (clients s) →
  let message := JSON_stringify (event_json roots_changed) +:+ nl in
  let same := bool_decide (uri_of (currentSketch s) = uri_of sketch) in
  let s' := setCurrentSketch sketch s in
  currentSketch s' = sketch
  ∧ s' = (if same then with_currentSketch sketch s
          else broadcast roots_changed (with_currentSketch sketch s))
  ∧ (∀ socket c, socket ∈ clients s → sockets s !! socket = Some c →
       write_fault c = None →
       written <$> sockets s' !! socket
       = Some (if same then written c else written c ++ [message]))
  ∧ clients s' = clients s ∧ tasks s' = tasks s ∧ taskCounter s' = taskCounter s
  ∧ lastBuildOutput s' = lastBuildOutput s ∧ libraryService s' = libraryService s
  ∧ immediates s' = immediates s ∧ awaiting s' = awaiting s.
Proof.
  intros Hnd message same s'.
  assert (s' = (if same then with_currentSketch sketch s
                else broadcast roots_changed (with_currentSketch sketch s))) as Hs'.
  { subst s' same. unfold setCurrentSketch, emitRootsChanged.
    by destruct (bool_decide _). }
  destruct (broadcast_loop message (clients s) (with_currentSketch sketch s) Hnd)
    as (Hio & Hsock & _).
  fold (broadcast roots_changed (with_currentSketch sketch s)) in Hio, Hsock.
  destruct Hio as (?&?&?&?&?&?&?&?).
  rewrite Hs'. destruct same; simpl.
  - repeat split; try done. intros socket c _ Hc _. by rewrite Hc.
  - repeat split; try done. intros socket c Hin Hc Hok.
    rewrite Hsock, decide_True by done. simpl. rewrite Hc. simpl.
    unfold deliver. by rewrite Hok.
Qed.

End Events.

(** ** Requests and responses *)

Section Responses.
Context `{Runtime}.

Lemma keeps_connections_refl (s : Server) : keeps_connections s s.
Proof. by split. Qed.

Lemma keeps_connections_trans (s1 s2 s3 : Server) :
  keeps_connections s1 s2 → keeps_connections s2 s3 → keeps_connections s1 s3.
Proof.
  intros [Hc12 H12] [Hc23 H23]. split; [congruence|].
  intros socket Hw. by apply H23, H12.
Qed.

Lemma keeps_connections_same (s s' : Server) :
  clients s' = clients s → sockets s' = sockets s → keeps_connections s s'.
Proof. intros Hcl Heq. split; [done|]. intros socket. unfold writable. by rewrite Heq. Qed.

Lemma broadcast_keeps_connections (ev : IPCEvent) (s : Server) :
  keeps_connections s (broadcast ev s).
Proof.
  split; [apply broadcast_only_io|].
  unfold broadcast. generalize (JSON_stringify (event_json ev) +:+ nl) as m.
  intros m. generalize (clients s) as l. intros l. revert s.
  induction l as [|client l IH]; intros s socket; simpl; [done|].
  intros (c & Hc & Hok). apply IH. unfold writable.
  rewrite broadcast_to_sockets, Hc. case_decide; [|by exists c].
  simpl. exists (deliver m c). split; [done|]. unfold deliver. by rewrite Hok.
Qed.

Lemma setCurrentSketch_keeps_connections (sketch : option Sketch) (s : Server) :
  keeps_connections s (setCurrentSketch sketch s).
Proof.
  unfold setCurrentSketch. case_match; [|by apply keeps_connections_same].
  eapply keeps_connections_trans; [|apply broadcast_keeps_connections].
  by apply keeps_connections_same.
Qed.

Ltac socket_frame :=
  repeat (simplify_eq/=;
          first [ apply keeps_connections_refl
                | apply setCurrentSketch_keeps_connections
                | (apply keeps_connections_same; reflexivity)
                | case_match ]).

Lemma routeRequest_keeps_connections ext request (s : Server) :
  keeps_connections s (snd (routeRequest ext request s)).
Proof.
  unfold routeRequest. set (s0 := log _ s).
  eapply (keeps_connections_trans _ s0); [by apply keeps_connections_same|].
  clearbody s0.
  unfold handleContext, handleRoots, handleTask, handleSketch, handleBuild,
    handleBoard, handleSerial, handleLibrary.
  socket_frame.
Qed.

(** A parsed request on a connection that can be written to: [handleMessage]
    routes it, writes the response and returns normally; the connection can
    still be written to afterwards. *)
Lemma handleMessage_parsed ext socket message request (s : Server) :
  JSON_parse message = Some request →
  writable s socket →
  handleMessage ext socket message s = (Return tt, respond ext socket request s)
  ∧ writable (respond ext socket request s) socket
  ∧ sockets (respond ext socket request s)
    = alter (deliver (response_line (reply ext request s))) socket
        (sockets (snd (routeRequest ext request s)))
  ∧ clients (respond ext socket request s) = clients s.
Proof.
  intros Hparse Hw. unfold handleMessage, respond, reply. rewrite Hparse.
  destruct (routeRequest_keeps_connections ext request s) as [Hclients Hkeeps].
  destruct (Hkeeps socket Hw) as (c & Hc & Hok). clear Hkeeps.
  destruct (routeRequest ext request s) as [routed s1]. simpl in *.
  assert (∀ m, socket_write socket m s1
               = (Return tt, with_sockets (insert socket (deliver m c)) s1)) as Hwrite.
  { intros m. pose proof (socket_write_cases socket m s1) as Hcases.
    by rewrite Hc, Hok in Hcases. }
  assert (∀ m, insert socket (deliver m c) (sockets s1)
               = alter (deliver m) socket (sockets s1)) as Halter.
  { intros m. apply map_eq. intros j. destruct (decide (socket = j)) as [<-|Hne].
    - by rewrite lookup_insert_eq, lookup_alter_eq, Hc.
    - by rewrite lookup_insert_ne, lookup_alter_ne. }
  assert (∀ m, writable (with_sockets (insert socket (deliver m c)) s1) socket) as Hstill.
  { intros m. exists (deliver m c). simpl. rewrite lookup_insert_eq.
    split; [done|]. unfold deliver. by rewrite Hok. }
  destruct routed as [res|e]; rewrite !Hwrite; simpl; rewrite <-Halter; auto.
Qed.

(** A line that does not parse is logged and dropped. *)
Lemma handleMessage_unparsed ext socket message (s : Server) :
  JSON_parse message = None →
  handleMessage ext socket message s
  = (Return tt, log (console_error "[arduino-mcp] Invalid JSON:" (TextArg message)) s).
Proof. intros Hparse. unfold handleMessage. by rewrite Hparse. Qed.

(** C7: for every parsed request on a connection that takes writes,
    [handleMessage] returns normally and writes exactly one response after
    whatever routing itself sent: it echoes the request's [id], carries the
    result if routing returned one, and [error.code = -1] with the message of
    the failure if routing or the handler threw.  The connection stays in the
    set and can still be written to. *)
Theorem handleMessage_responds ext socket message request (s : Server) :
  JSON_parse message = Some request →
  writable s socket →
  let routed := routeRequest ext request s in
  let response := reply ext request s in
  let s' := snd (handleMessage ext socket message s) in
  fst (handleMessage ext socket message s) = Return tt
  ∧ written <$> sockets s' !! socket
    = (λ c, written c ++ [response_line response]) <$> sockets (snd routed) !! socket
  ∧ (∀ other, other ≠ socket → sockets s' !! other = sockets (snd routed) !! other)
  ∧ resp_id response = req_id request
  ∧ (∀ res, fst routed = Return res →
       response = {| resp_id := req_id request; resp_result := Some res;
                     resp_error := None |})
  ∧ (∀ e, fst routed = Throw e →
       response = {| resp_id := req_id request; resp_result := None;
                     resp_error := Some {| err_code := -1;
                                           err_message := error_message e;
                                           err_data := None |} |})
  ∧ writable s' socket
  ∧ clients s' = clients s.
Proof.
  intros Hparse Hw routed response s'.
  destruct (handleMessage_parsed ext socket message request s Hparse Hw)
    as (Heq & Hstill & Hsock & Hclients).
  destruct (routeRequest_keeps_connections ext request s) as [_ Hkeeps].
  destruct (Hkeeps socket Hw) as (c & Hc & Hok). clear Hkeeps.
  subst s'. rewrite Heq. simpl. rewrite Hsock.
  split; [done|]. split.
  { rewrite lookup_alter_eq. fold routed. fold routed in Hc. rewrite Hc. simpl.
    unfold deliver. by rewrite Hok. }
  split; [intros other Hne; by rewrite lookup_alter_ne|].
  subst response. unfold reply. fold routed.
  split; [by destruct (fst routed)|].
  split; [by intros res ->|]. split; [by intros e ->|]. by split.
Qed.

End Responses.

(** ** Methods the router does not know *)

Section Routing.
Context `{Runtime}.

Lemma routeRequest_unknown ext request (s : Server) :
  known_method (req_method request) = false →
  routeRequest ext request s
  = (Throw (JsError (not_found_message (libraryService s) (req_method request))),
     log (console_log ("[arduino-mcp] Handling: " +:+ req_method request)) s).
Proof.
  intros Hk. unfold known_method, known_methods in Hk. cbn [existsb] in Hk.
  repeat (apply orb_false_elim in Hk as [? Hk]).
  unfold routeRequest, not_found_message.
  unfold handleContext, handleRoots, handleTask, handleSketch, handleBuild,
    handleBoard, handleSerial, handleLibrary.
  generalize dependent (req_method request). intros method. intros.
  repeat match goal with
         | Hf : (method === _) = false |- _ => rewrite !Hf; clear Hf
         end.
  cbn [orb log libraryService].
  destruct (libraryService s); cbn [negb]; repeat case_match; reflexivity.
Qed.

(** C4, as the code has it: a request whose method the router does not know
    is answered with an error of code -1 whose message says so; every failure
    of a matched handler is answered with an error of the same code and the
    same members, so only the message text tells the two apart. *)
Theorem unknown_method_error ext socket message request (s : Server) :
  JSON_parse message = Some request →
  writable s socket →
  known_method (req_method request) = false →
  let response :=
    {| resp_id := req_id request; resp_result := None;
       resp_error :=
         Some {| err_code := -1;
                 err_message := not_found_message (libraryService s) (req_method request);
                 err_data := None |} |} in
  reply ext request s = response
  ∧ handleMessage ext socket message s
    = (Return tt,
       snd (socket_write socket (response_line response)
              (log (console_log ("[arduino-mcp] Handling: " +:+ req_method request)) s)))
  ∧ (∀ ext' request' s' e,
       fst (routeRequest ext' request' s') = Throw e →
       error_shape (reply ext' request' s') = error_shape response).
Proof.
  intros Hparse Hw Hunknown response.
  assert (reply ext request s = response) as Hreply.
  { unfold reply. by rewrite routeRequest_unknown. }
  split; [exact Hreply|]. split.
  - destruct (handleMessage_parsed ext socket message request s Hparse Hw) as [-> _].
    unfold respond. by rewrite Hreply, routeRequest_unknown.
  - intros ext' request' s' e He. unfold reply. by rewrite He.
Qed.

End Routing.

(** ** Lines *)

Lemma split_lines_plain (l : string) :
  occurs newline l = false → split_lines l = [l].
Proof.
  induction l as [|c l IH]; [done|]. cbn [occurs split_lines].
  intros [Hc Hl]%orb_false_elim. rewrite Ascii.eqb_sym, Hc, (IH Hl). done.
Qed.

Lemma split_lines_line (l rest : string) :
  occurs newline l = false →
  split_lines (l +:+ nl +:+ rest) = l :: split_lines rest.
Proof.
  induction l as [|c l IH].
  - intros _. reflexivity.
  - cbn [occurs]. intros [Hc Hl]%orb_false_elim.
    change (String c l +:+ nl +:+ rest) with (String c (l +:+ nl +:+ rest)).
    cbn [split_lines]. rewrite Ascii.eqb_sym, Hc, (IH Hl). done.
Qed.

Lemma split_lines_end (l : string) :
  occurs newline l = false → split_lines (l +:+ nl) = [l; ""].
Proof.
  intros Hl. change (l +:+ nl) with (l +:+ nl +:+ "").
  by rewrite split_lines_line.
Qed.

Section Lines.
Context `{Runtime}.

(** C6: a chunk that completes three lines, an invalid one between two
    requests.  The listener returns normally; the first request is routed and
    answered, the invalid line is passed over without anything being written
    to any connection, and the second request is routed and answered. *)
Theorem malformed_line_isolated (exts : nat → Ext) (socket : nat)
    (chunk : list byte) (c : Connection) (l1 bad l2 : string)
    (r1 r2 : IPCRequest) (s : Server) :
  (∀ text, is_blank text = true → JSON_parse text = None) →
  sockets s !! socket = Some c →
  write_fault c = None →
  buffer c +:+ Buffer_toString chunk = l1 +:+ nl +:+ bad +:+ nl +:+ l2 +:+ nl →
  occurs newline l1 = false →
  occurs newline bad = false →
  occurs newline l2 = false →
  JSON_parse l1 = Some r1 →
  JSON_parse bad = None →
  JSON_parse l2 = Some r2 →
  let s0 := with_sockets
              (insert socket {| write_fault := None; written := written c;
                                buffer := "" |}) s in
  let s1 := respond (exts 0%nat) socket r1 s0 in
  on_data exts socket chunk s
  = (Return tt, respond (exts 2%nat) socket r2 (discard bad s1))
  ∧ sockets (discard bad s1) = sockets s1
  ∧ only_io s1 (discard bad s1).
Proof.
  intros Hblank Hc Hok Htext Hl1 Hbad Hl2 Hp1 Hpbad Hp2 s0 s1.
  assert (∀ l r, JSON_parse l = Some r → is_blank l = false) as Hfull.
  { intros l r Hl. destruct (is_blank l) eqn:Hb; [|done].
    rewrite (Hblank l Hb) in Hl. discriminate. }
  assert (sockets (discard bad s1) = sockets s1 ∧ only_io s1 (discard bad s1))
    as [Hsame Hio].
  { unfold discard. destruct (is_blank bad); repeat split. }
  split; [|by split].
  unfold on_data, frame. rewrite Hc, Htext, Hok.
  rewrite (split_lines_line l1), (split_lines_line bad), (split_lines_end l2) by done.
  cbn [split_lines removelast List.last]. fold s0.
  assert (writable s0 socket) as Hw0.
  { eexists. split; [apply lookup_insert_eq|done]. }
  cbn [handle_lines]. rewrite (Hfull l1 r1 Hp1).
  destruct (handleMessage_parsed (exts 0%nat) socket l1 r1 s0 Hp1 Hw0) as (-> & Hw1 & _).
  fold s1. fold s1 in Hw1.
  assert (writable (discard bad s1) socket) as Hw1'.
  { destruct Hw1 as (c1 & ? & ?). exists c1. by rewrite Hsame. }
  rewrite (Hfull l2 r2 Hp2), (handleMessage_unparsed _ _ _ _ Hpbad).
  fold (discard bad s1).
  destruct (handleMessage_parsed (exts 2%nat) socket l2 r2 _ Hp2 Hw1') as (Hm & _).
  unfold discard in Hm |- *. destruct (is_blank bad); by rewrite Hm.
Qed.

End Lines.

(** ** Framing *)

Lemma append_empty_r (s : string) : s +:+ "" = s.
Proof.
  induction s as [|c s IH]; [done|].
  change (String c s +:+ "") with (String c (s +:+ "")). by rewrite IH.
Qed.

Lemma append_assoc (a b c : string) : (a +:+ b) +:+ c = a +:+ b +:+ c.
Proof.
  induction a as [|x a IH]; [done|].
  change ((String x a +:+ b) +:+ c) with (String x ((a +:+ b) +:+ c)).
  change (String x a +:+ b +:+ c) with (String x (a +:+ b +:+ c)). by rewrite IH.
Qed.

Lemma last_app_nonempty {A} (l1 l2 : list A) (d : A) :
  l2 ≠ [] → List.last (l1 ++ l2) d = List.last l2 d.
Proof.
  intros Hne. induction l1 as [|x l1 IH]; [done|].
  cbn [app List.last]. rewrite IH. destruct (l1 ++ l2) eqn:Heq; [|done].
  apply app_eq_nil in Heq as [_ ->]. done.
Qed.

Lemma split_lines_nonempty (s : string) : split_lines s ≠ [].
Proof.
  destruct s as [|c s]; [done|]. cbn [split_lines].
  destruct (Ascii.eqb c newline); [done|]. by destruct (split_lines s).
Qed.

(** Splitting a text in two places: the lines that the first part completes,
    then the lines of its unfinished line followed by the second part. *)
Lemma split_lines_app (x y : string) :
  split_lines (x +:+ y)
  = removelast (split_lines x) ++ split_lines (List.last (split_lines x) "" +:+ y).
Proof.
  induction x as [|c x IH]; [done|].
  change (String c x +:+ y) with (String c (x +:+ y)). cbn [split_lines].
  pose proof (split_lines_nonempty x) as Hne.
  destruct (Ascii.eqb c newline) eqn:Hc.
  - rewrite IH. destruct (split_lines x) as [|h t]; [done|]. reflexivity.
  - rewrite IH. destruct (split_lines x) as [|h [|h' t]]; [done| |].
    + cbn [removelast List.last app].
      change (String c h +:+ y) with (String c (h +:+ y)).
      cbn [split_lines]. by rewrite Hc.
    + reflexivity.
Qed.

Lemma last_split_lines_plain (s : string) :
  occurs newline (List.last (split_lines s) "") = false.
Proof.
  induction s as [|c s IH]; [done|]. cbn [split_lines].
  pose proof (split_lines_nonempty s) as Hne.
  destruct (Ascii.eqb c newline) eqn:Hc.
  - by destruct (split_lines s).
  - destruct (split_lines s) as [|h [|h' t]]; [done| |exact IH].
    cbn [List.last occurs] in *. by rewrite Ascii.eqb_sym, Hc, IH.
Qed.

(** The lines the listener delivers are those of the text it has decoded,
    chunk by chunk. *)
Lemma receive_decoded (buf : string) (chunks : list (list byte)) :
  occurs newline buf = false →
  receive buf chunks = lines_of (buf +:+ decoded chunks).
Proof.
  revert buf. induction chunks as [|chunk rest IH]; intros buf Hbuf.
  - cbn [receive decoded]. unfold lines_of.
    by rewrite append_empty_r, split_lines_plain.
  - cbn [receive decoded]. unfold frame.
    rewrite (IH _ (last_split_lines_plain _)). unfold lines_of.
    rewrite <-append_assoc.
    rewrite (split_lines_app (buf +:+ Buffer_toString chunk) (decoded rest)).
    set (done_lines := removelast (split_lines (buf +:+ Buffer_toString chunk))).
    set (tail := split_lines _).
    assert (tail ≠ []) as Hne by apply split_lines_nonempty.
    rewrite removelast_app by done. rewrite List.filter_app.
    f_equal. by rewrite last_app_nonempty.
Qed.

(** Whenever decoding the chunks one by one gives the text of the whole
    stream, the listener delivers the lines it would deliver for the stream
    in one chunk. *)
Lemma receive_chunking (chunks : list (list byte)) :
  decoded chunks = Buffer_toString (concat chunks) →
  receive "" chunks = receive "" [concat chunks].
Proof.
  intros Hdec. rewrite !receive_decoded by done. cbn [decoded].
  by rewrite Hdec, append_empty_r.
Qed.

Lemma Buffer_toString_ascii_app (a b : list byte) :
  Forall is_ascii a →
  Buffer_toString (a ++ b) = Buffer_toString a +:+ Buffer_toString b.
Proof.
  induction 1 as [|x a Hx _ IH]; [done|].
  cbn [app Buffer_toString]. rewrite Hx, IH. by rewrite append_assoc.
Qed.

(** A stream of ASCII bytes gives the same lines however it is cut. *)
Lemma receive_ascii_chunking (chunks : list (list byte)) :
  Forall (Forall is_ascii) chunks →
  receive "" chunks = receive "" [concat chunks].
Proof.
  intros Hascii. apply receive_chunking.
  induction Hascii as [|chunk rest Hchunk _ IH]; [done|].
  cbn [decoded concat]. by rewrite Buffer_toString_ascii_app, IH.
Qed.

(** ** The scenarios, evaluated *)

Section Evaluated.
Import Sample Scenario.
#[local] Existing Instance sample_runtime.

(** C5 fails on the code: the listener decodes every chunk on its own
    ([data.toString()]), so a stream cut inside a character of more than one
    byte does not give the line that the stream gives in one chunk.  Here the
    two bytes of the last letter of "// café" arrive in different
    chunks, and each becomes U+FFFD. *)
Theorem framing_splits_character :
  let whole := wire set_content in
  let first := take 104 whole in
  let second := drop 104 whole in
  first ++ second = whole
  ∧ List.last first x00 = xc3
  ∧ head second = Some xa9
  ∧ receive "" [whole] = ([request_line set_content], "")
  ∧ receive "" [first; second] = ([set_content_broken], "")
  ∧ receive "" [first; second] ≠ receive "" [whole]
  ∧ receive "" ((λ b, [b]) <$> whole) ≠ receive "" [whole].
Proof.
  vm_compute. do 5 (split; [reflexivity|]). split; intros [=].
Qed.

(** C1 fails on the code: a task that was cancelled, and reported as
    [cancelled], is reported as [completed] (with a result, and still with
    the error of the cancellation) once the compiler is done, or as [failed]
    (with another error) if the compiler fails; a task cancelled while
    [pending] is [running] as soon as its [setImmediate] callback runs.
    The first two parts list everything the client receives. *)
Theorem cancelled_task_changes_again :
  let finished := run (new_server true) (cancel_while_running (Return built)) in
  let broke :=
    run (new_server true) (cancel_while_running (Throw (JsError "exit status 1"))) in
  let before :=
    [ sample_stringify (event_json roots_changed) +:+ nl;
      result_line create_compile (VObj [("taskId", VStr first_id)]);
      progress_line 0 "Starting...";
      progress_line 10 "Preparing compilation...";
      progress_line 20 "Compiling...";
      result_line cancel_first (VObj [("cancelled", VBool true)]);
      status_line "cancelled" VUndefined "Cancelled by user" ] in
  let created :=
    snd (handleTask 1700000000000 "task/create" (req_params create_compile)
           (with_currentSketch (Some blink) (new_server true))) in
  let cancelled_early :=
    snd (handleTask 1700000000001 "task/cancel" (req_params cancel_first) created) in
  written <$> sockets finished !! 1%nat
  = Some (before ++
          [ progress_line 100 "Compilation complete";
            status_line "completed"
              (VObj [("success", VBool true);
                     ("buildPath", VStr "/tmp/arduino/build");
                     ("executableSectionsSize", VUndefined)])
              "Cancelled by user" ])
  ∧ written <$> sockets broke !! 1%nat
    = Some (before ++
            [ status_line "failed" VUndefined "Compilation failed: exit status 1" ])
  ∧ status <$> tasks cancelled_early !! first_id = Some cancelled
  ∧ status <$> tasks (run_immediate cancelled_early) !! first_id = Some running.
Proof. vm_compute. repeat split. Qed.

(** C4 as it is stated fails on the code: the response to a method that is not
    known and the response to a failing handler carry errors of one code and
    one structure. *)
Lemma routing_error_same_shape :
  let s := handleClientConnection 1 (new_server true) in
  resp_error (reply calm no_such_method s)
  = Some {| err_code := -1; err_message := "Unknown IPC method: robot/dance";
            err_data := None |}
  ∧ resp_error (reply calm get_missing s)
    = Some {| err_code := -1; err_message := "Task not found: task_7_0";
              err_data := None |}
  ∧ error_shape (reply calm no_such_method s) = error_shape (reply calm get_missing s).
Proof. vm_compute. repeat split. Qed.

(** The sample parser rejects every blank text. *)
Lemma sample_parse_blank (text : string) :
  is_blank text = true → sample_parse text = None.
Proof.
  intros Hblank. unfold sample_parse, known_requests. cbn [List.find].
  repeat match goal with
         | |- context [request_line ?r === text] =>
             destruct (request_line r === text) eqn:Heq;
             [apply String.eqb_eq in Heq; rewrite <-Heq in Hblank;
              vm_compute in Hblank; discriminate|clear Heq]
         end.
  reflexivity.
Qed.

(** A task that was just created is cancelled. *)
Lemma task_cancel_effect_witness :
  let created :=
    snd (handleTask 1700000000000 "task/create" (req_params create_compile)
           (new_server true)) in
  let task := {| task_id := first_id; status := pending;
                 tool := VStr "arduino_compile";
                 arguments := VObj [("fqbn", VStr "arduino:avr:uno")];
                 result := VUndefined; error := None; progress := None;
                 progressMessage := None |} in
  req_params cancel_first = VObj [("taskId", VStr first_id)]
  ∧ field "taskId" [("taskId", VStr first_id)] = VStr first_id
  ∧ tasks created !! first_id = Some task
  ∧ fst (handleTask 0 "task/cancel" (req_params cancel_first) created)
    = Return (VObj [("cancelled", VBool true)]).
Proof.
  intros created task.
  assert (field "taskId" [("taskId", VStr first_id)] = VStr first_id) as Hid
    by reflexivity.
  split; [reflexivity|].
  assert (tasks created !! first_id = Some task) as Hk by (vm_compute; reflexivity).
  split; [exact Hid|]. split; [exact Hk|].
  destruct (task_cancel_effect 0 [("taskId", VStr first_id)] created first_id task
              Hid Hk)
    as (Hiff & _ & _).
  apply Hiff. left. reflexivity.
Defined.


(** A method of a known domain that no handler has a case for. *)
Lemma unknown_method_error_witness :
  JSON_parse (request_line no_such_suffix) = Some no_such_suffix
  ∧ writable one_client 1
  ∧ known_method (req_method no_such_suffix) = false
  ∧ resp_error (reply calm no_such_suffix one_client)
    = Some {| err_code := -1;
              err_message := "Unknown serial method: serial/getConfig";
              err_data := None |}.
Proof.
  assert (JSON_parse (request_line no_such_suffix) = Some no_such_suffix) as Hparse
    by (vm_compute; reflexivity).
  assert (writable one_client 1) as Hw by (eexists; split; vm_compute; reflexivity).
  assert (known_method (req_method no_such_suffix) = false) as Hunknown
    by (vm_compute; reflexivity).
  split; [exact Hparse|]. split; [exact Hw|]. split; [exact Hunknown|].
  destruct (unknown_method_error calm 1 (request_line no_such_suffix) no_such_suffix
              one_client Hparse Hw Hunknown) as (-> & _).
  vm_compute. reflexivity.
Defined.

(** [roots/list] on a new connection. *)
Lemma handleMessage_responds_witness :
  JSON_parse (request_line list_roots) = Some list_roots
  ∧ writable one_client 1
  ∧ written <$>
      sockets (snd (handleMessage calm 1 (request_line list_roots) one_client)) !! 1%nat
    = Some [result_line list_roots (VArr [])].
Proof.
  assert (JSON_parse (request_line list_roots) = Some list_roots) as Hparse
    by (vm_compute; reflexivity).
  assert (writable one_client 1) as Hw by (eexists; split; vm_compute; reflexivity).
  split; [exact Hparse|]. split; [exact Hw|].
  destruct (handleMessage_responds calm 1 (request_line list_roots) list_roots
              one_client Hparse Hw) as (_ & -> & _).
  vm_compute. reflexivity.
Defined.

(** Two requests with a text that is no JSON between them, in one chunk. *)
Lemma malformed_line_isolated_witness :
  sockets one_client !! 1%nat
  = Some {| write_fault := None; written := []; buffer := "" |}
  ∧ JSON_parse (request_line list_roots) = Some list_roots
  ∧ JSON_parse not_json = None
  ∧ JSON_parse (request_line get_missing) = Some get_missing
  ∧ fst (on_data (λ _, calm) 1 three_lines one_client) = Return tt
  ∧ written <$> sockets (snd (on_data (λ _, calm) 1 three_lines one_client)) !! 1%nat
    = Some [ result_line list_roots (VArr []);
             error_line get_missing "Task not found: task_7_0" ].
Proof.
  pose proof (malformed_line_isolated (λ _, calm) 1 three_lines
                {| write_fault := None; written := []; buffer := "" |}
                (request_line list_roots) not_json (request_line get_missing)
                list_roots get_missing one_client sample_parse_blank) as Hthm.
  repeat (match type of Hthm with
          | ?P → _ =>
              let Hp := fresh in
              assert P as Hp by (vm_compute; reflexivity);
              specialize (Hthm Hp)
          end).
  destruct Hthm as (-> & _).
  vm_compute. repeat split.
Defined.

(** A broadcast over three connections; the write to the second fails. *)
Lemma broadcast_isolates_failures_witness :
  let sent := broadcast roots_changed three_clients in
  let after := on_error 2 (JsError "write EPIPE") sent in
  let message := sample_stringify (event_json roots_changed) +:+ nl in
  NoDup (clients three_clients)
  ∧ (∀ socket, socket ∈ clients three_clients → writable three_clients socket)
  ∧ clients three_clients = [1; 2; 3]%nat
  ∧ clients after = [1; 3]%nat
  ∧ written <$> sockets after !! 1%nat = Some [message]
  ∧ written <$> sockets after !! 3%nat = Some [message]
  ∧ console after
    = console three_clients
      ++ [console_error "[arduino-mcp] Socket error:"
            (ThrownArg (JsError "write EPIPE"))].
Proof.
  cbv zeta.
  assert (NoDup (clients three_clients)) as Hnd.
  { apply NoDup_ListNoDup. vm_compute. repeat constructor; simpl; lia. }
  assert (∀ socket, socket ∈ clients three_clients → writable three_clients socket)
    as Hlive.
  { intros socket Hin. change (clients three_clients) with [1; 2; 3]%nat in Hin.
    rewrite !elem_of_cons, elem_of_nil in Hin.
    destruct Hin as [->|[->|[->|[]]]]; eexists; split; vm_compute; reflexivity. }
  split; [exact Hnd|]. split; [exact Hlive|]. split; [reflexivity|].
  pose proof (broadcast_isolates_failures roots_changed 2 (JsError "write EPIPE")
                three_clients Hnd Hlive) as Hthm.
  cbv zeta in Hthm.
  destruct Hthm as (Hsent & _ & _ & _ & Hconsole & Hclients & _ & _ & Hsockets & _).
  split; [rewrite Hclients; vm_compute; reflexivity|].
  rewrite Hsockets.
  rewrite (Hsent 1%nat {| write_fault := None; written := []; buffer := "" |});
    [|vm_compute; set_solver|vm_compute; reflexivity].
  rewrite (Hsent 3%nat {| write_fault := None; written := []; buffer := "" |});
    [|vm_compute; set_solver|vm_compute; reflexivity].
  split; [reflexivity|]. split; [reflexivity|]. exact Hconsole.
Defined.

(** A first sketch is opened while one client is connected. *)
Lemma setCurrentSketch_effect_witness :
  NoDup (clients one_client)
  ∧ currentSketch (setCurrentSketch (Some fade) one_client) = Some fade
  ∧ written <$> sockets (setCurrentSketch (Some fade) one_client) !! 1%nat
    = Some [sample_stringify (event_json roots_changed) +:+ nl].
Proof.
  assert (NoDup (clients one_client)) as Hnd.
  { apply NoDup_ListNoDup. vm_compute. repeat constructor; simpl; lia. }
  split; [exact Hnd|].
  destruct (setCurrentSketch_effect (Some fade) one_client Hnd)
    as (Hstored & _ & Hsent & _).
  split; [exact Hstored|].
  rewrite (Hsent 1%nat {| write_fault := None; written := []; buffer := "" |});
    [vm_compute; reflexivity|vm_compute; set_solver|vm_compute; reflexivity|reflexivity].
Defined.

End Evaluated.

(** * Further properties *)

Set Warnings "-clear-no-such-hyp".


(** ** What running and settling a task do *)

Section TaskEffects.
Context `{Runtime}.

Lemma only_io_same_tasking (s s' : Server) : only_io s s' → same_tasking s s'.
Proof. intros (?&?&?&?&?&?&?&?). by repeat split. Qed.

Lemma same_tasking_refl (s : Server) : same_tasking s s.
Proof. by repeat split. Qed.

Lemma same_tasking_trans (s1 s2 s3 : Server) :
  same_tasking s1 s2 → same_tasking s2 s3 → same_tasking s1 s3.
Proof. intros (?&?&?&?) (?&?&?&?). repeat split; congruence. Qed.

Lemma runCompileTask_begin_admission (t : Task) (k : string) (s : Server) :
  strict_eq_str (tool t) "arduino_compile" = true →
  fst (runCompileTask_begin t k s) = admission t (currentSketch s).
Proof.
  intros Htool. unfold admission, runCompileTask_begin. rewrite Htool.
  destruct (emitProgress_only_io k 10 "Preparing compilation..." s)
    as (_&_&_&_&->&_).
  destruct (currentSketch s); [|done].
  destruct (get_prop (arguments t) "fqbn") as [fqbn|e]; [|done].
  by destruct (truthy fqbn).
Qed.

Lemma runUploadTask_begin_admission (t : Task) (k : string) (s : Server) :
  strict_eq_str (tool t) "arduino_compile" = false →
  strict_eq_str (tool t) "arduino_upload" = true →
  fst (runUploadTask_begin t k s) = admission t (currentSketch s).
Proof.
  intros Hnot Htool. unfold admission, runUploadTask_begin. rewrite Hnot, Htool.
  destruct (emitProgress_only_io k 10 "Preparing upload..." s)
    as (_&_&_&_&->&_).
  destruct (currentSketch s); [|done].
  destruct (get_prop (arguments t) "fqbn") as [fqbn|e]; [|done].
  destruct (truthy fqbn); [|done]. by destruct (truthy (optchain _ _)).
Qed.

(** [runTask] on a task of the table: the status becomes [running], progress
    is broadcast, and then the task waits for the call it was admitted with,
    or fails with the error it was refused with. *)
Lemma runTask_effect (k : string) (t : Task) (s : Server) :
  tasks s !! k = Some t →
  ∃ s2, only_io (update_task k (set_status running) s) s2
    ∧ runTask k s
      = match admission t (currentSketch s) with
        | Return call =>
            with_awaiting (λ l : list (string * CoreCall), l ++ [(k, call)]) s2
        | Throw e => runTask_catch k e s2
        end.
Proof.
  intros Hk. unfold runTask. rewrite Hk.
  set (s1 := update_task k (set_status running) s).
  set (s2 := emitProgress k 0 "Starting..." s1).
  assert (only_io s1 s2) as H12 by apply emitProgress_only_io.
  assert (currentSketch s2 = currentSketch s) as Hsk.
  { destruct H12 as (_&_&_&_&->&_). reflexivity. }
  destruct (strict_eq_str (tool t) "arduino_compile") eqn:Hc.
  { pose proof (runCompileTask_begin_admission t k s2 Hc) as Hadm.
    pose proof (runCompileTask_begin_only_io t k s2) as Hio.
    destruct (runCompileTask_begin t k s2) as [started s3]. simpl in *.
    exists s3. split; [by eapply only_io_trans|]. by rewrite <-Hsk, <-Hadm. }
  destruct (strict_eq_str (tool t) "arduino_upload") eqn:Hu.
  { pose proof (runUploadTask_begin_admission t k s2 Hc Hu) as Hadm.
    pose proof (runUploadTask_begin_only_io t k s2) as Hio.
    destruct (runUploadTask_begin t k s2) as [started s3]. simpl in *.
    exists s3. split; [by eapply only_io_trans|]. by rewrite <-Hsk, <-Hadm. }
  exists s2. split; [done|]. unfold admission. by rewrite Hc, Hu.
Qed.

(** [settle] on a waiting call: the entry leaves the schedule; the task is
    [completed] with the result, and the last progress is broadcast, or it
    is [failed] with the error. *)
Lemma settle_effect (k : string) (outcome : Completion value) (call : CoreCall)
    (rest : list (string * CoreCall)) (s : Server) :
  take_call k (awaiting s) = Some (call, rest) →
  let s1 := with_awaiting (λ _, rest) s in
  ∃ s2,
    settle k outcome s = s2
    ∧ match conclusion call outcome with
      | Return res =>
          only_io (update_task k (set_status completed)
                     (update_task k (set_result res) s1)) s2
      | Throw e => s2 = runTask_catch k e s1
      end.
Proof.
  intros Htake s1. unfold settle. rewrite Htake. fold s1.
  eexists. split; [reflexivity|].
  destruct call, outcome as [res|e]; simpl.
  - apply emitProgress_only_io.
  - reflexivity.
  - destruct (get_prop res "portAfterUpload"); simpl; [|reflexivity].
    apply emitProgress_only_io.
  - reflexivity.
Qed.

End TaskEffects.

(** ** Invariants of the task subsystem, in general *)

Section TaskingFrames.
Context `{Runtime}.

Lemma setCurrentSketch_same_tasking (sketch : option Sketch) (s : Server) :
  same_tasking s (setCurrentSketch sketch s).
Proof.
  unfold setCurrentSketch. case_match; [|by repeat split].
  eapply same_tasking_trans; [|apply only_io_same_tasking, broadcast_only_io].
  by repeat split.
Qed.

Ltac tasking_frame :=
  repeat (simplify_eq/=;
          first [ apply same_tasking_refl
                | apply setCurrentSketch_same_tasking
                | (repeat split; reflexivity)
                | case_match ]).

(** Outside the [task/] domain no request touches the tasks or their
    schedule. *)
Lemma routeRequest_same_tasking ext request (s : Server) :
  startsWith (req_method request) "task/" = false →
  same_tasking s (snd (routeRequest ext request s)).
Proof.
  intros Hnot. unfold routeRequest. rewrite Hnot. set (s0 := log _ s).
  eapply (same_tasking_trans _ s0); [by repeat split|]. clearbody s0.
  unfold handleContext, handleRoots, handleSketch, handleBuild,
    handleBoard, handleSerial, handleLibrary.
  tasking_frame.
Qed.

End TaskingFrames.

Lemma task_prefix_only (method : string) :
  startsWith method "task/" = true →
  startsWith method "context/" = false ∧ startsWith method "roots/" = false.
Proof.
  unfold startsWith. destruct method as [|a method]; [done|]. cbn [String.prefix].
  destruct (ascii_dec "t" a) as [<-|]; [|done]. intros _. done.
Qed.

Section TaskingInvariant.
Context `{Runtime}.
Variable P : Server → Prop.
Hypothesis P_frame : ∀ s s', same_tasking s s' → P s → P s'.
Hypothesis P_request :
  ∀ now method params s, ids_issued s → P s → P (snd (handleTask now method params s)).
Hypothesis P_immediate : ∀ s, ids_issued s → P s → P (run_immediate s).
Hypothesis P_settle : ∀ k outcome s, ids_issued s → P s → P (settle k outcome s).

Lemma routeRequest_preserves ext request (s : Server) :
  ids_issued s → P s → P (snd (routeRequest ext request s)).
Proof.
  intros Hs HP.
  destruct (startsWith (req_method request) "task/") eqn:Htask.
  - unfold routeRequest. set (s0 := log _ s).
    assert (ids_issued s0 ∧ P s0) as [Hs0 HP0].
    { split; [eapply ids_issued_same_table; [|exact Hs]; by split|].
      eapply P_frame; [|exact HP]. by repeat split. }
    clearbody s0. destruct (task_prefix_only _ Htask) as [-> ->]. rewrite Htask.
    by apply P_request.
  - eapply P_frame; [|exact HP]. by apply routeRequest_same_tasking.
Qed.

Lemma socket_write_preserves socket message (s : Server) :
  P s → P (snd (socket_write socket message s)).
Proof. apply P_frame, only_io_same_tasking, socket_write_only_io. Qed.

Lemma handleMessage_preserves ext socket message (s : Server) :
  ids_issued s → P s → P (snd (handleMessage ext socket message s)).
Proof.
  intros Hs HP. unfold handleMessage.
  destruct (JSON_parse message) as [request|]; simpl.
  { pose proof (routeRequest_preserves ext request s Hs HP) as Hr.
    destruct (routeRequest ext request s) as [[res|e] s1]; simpl in *.
    - pose proof (socket_write_preserves socket
                    (response_line (result_response request res)) s1 Hr) as Hw.
      destruct (socket_write socket _ s1) as [[u|e] s2]; simpl in *; [done|].
      by apply socket_write_preserves.
    - by apply socket_write_preserves. }
  eapply P_frame; [|exact HP]. by repeat split.
Qed.

Lemma handle_lines_preserves exts k socket lines (s : Server) :
  ids_issued s → P s → P (snd (handle_lines exts k socket lines s)).
Proof.
  revert k s. induction lines as [|line rest IH]; intros k s Hs HP; simpl; [done|].
  destruct (is_blank line); [by apply IH|].
  pose proof (handleMessage_preserves (exts k) socket line s Hs HP) as Hm.
  pose proof (handleMessage_ids_issued (exts k) socket line s Hs) as Hi.
  destruct (handleMessage (exts k) socket line s) as [[u|e] s1]; simpl in *;
    [by apply IH|done].
Qed.

Lemma step_preserves (s : Server) (ev : Event) :
  ids_issued s → P s → P (step s ev).
Proof.
  intros Hs HP. destruct ev; simpl.
  - eapply P_frame; [|exact HP]. by repeat split.
  - unfold on_data. destruct (sockets s !! socket) as [c|]; [|done].
    destruct (frame (buffer c) chunk) as [lines rest].
    apply handle_lines_preserves.
    + eapply ids_issued_same_table; [|exact Hs]. by split.
    + eapply P_frame; [|exact HP]. by repeat split.
  - eapply P_frame; [|exact HP]. by repeat split.
  - eapply P_frame; [|exact HP]. by repeat split.
  - eapply P_frame; [|exact HP]. by repeat split.
  - by apply P_immediate.
  - by apply P_settle.
  - eapply P_frame; [apply setCurrentSketch_same_tasking|done].
  - eapply P_frame; [|exact HP]. by repeat split.
  - eapply P_frame; [apply only_io_same_tasking, broadcast_only_io|done].
Qed.

(** A property of the tasks and their schedule that requests, the callbacks
    and the settled calls keep holds after every history. *)
Lemma run_preserves (s : Server) (history : list Event) :
  ids_issued s → P s → P (run s history).
Proof.
  unfold run. revert s.
  induction history as [|ev history IH]; intros s Hs HP; simpl; [done|].
  apply IH; [by apply step_ids_issued|by apply step_preserves].
Qed.

End TaskingInvariant.

(** ** How the task table changes *)

Section TableChanges.
Context `{Runtime}.

Lemma alter_lookup_insert (f : Task → Task) (m : gmap string Task) k t :
  m !! k = Some t → alter f k m = <[k := f t]> m.
Proof.
  intros Hk. apply map_eq. intros j. rewrite lookup_alter, lookup_insert.
  case_decide; [|done]. by rewrite Hk.
Qed.

Lemma alter_missing (f : Task → Task) (m : gmap string Task) k :
  m !! k = None → alter f k m = m.
Proof.
  intros Hk. apply map_eq. intros j. rewrite lookup_alter.
  case_decide; [|done]. subst. by rewrite Hk.
Qed.

Lemma runTask_missing (k : string) (s : Server) :
  tasks s !! k = None → runTask k s = s.
Proof. intros Hk. unfold runTask. by rewrite Hk. Qed.

Lemma runTask_catch_change (k : string) (e : Thrown) (t : Task) (s : Server) :
  tasks s !! k = Some t →
  table_step (tasks s) (tasks (runTask_catch k e s)).
Proof.
  intros Hk. unfold runTask_catch, update_task. cbn [tasks with_tasks].
  rewrite (alter_twice_insert _ _ _ _ _ Hk).
  apply (ts_change _ k t); [done|]. apply tr_fail.
Qed.

Lemma get_prop_Return (o : value) (k : string) (v : value) :
  get_prop o k = Return v → v = optchain o k.
Proof. by destruct o; intros [=]. Qed.

Lemma handleTask_changes (now : Z) (method : string)
    (params : value) (s : Server) :
  ids_issued s →
  rtc table_step (tasks s) (tasks (snd (handleTask now method params s))).
Proof.
  intros Hs. unfold handleTask.
  destruct (method === "task/create").
  { destruct (get_prop params "tool") as [tool|e] eqn:Htool; [|done].
    apply get_prop_Return in Htool as ->.
    apply rtc_once. cbn [snd tasks with_immediates with_tasks with_taskCounter].
    apply (ts_create _ _ params). by apply next_id_fresh. }
  destruct (method === "task/get").
  { destruct (get_prop params "taskId") as [taskId|e]; [|done].
    by destruct (tasks_get _ s). }
  destruct (method === "task/cancel"); [|done].
  destruct (get_prop params "taskId") as [[| | | |k| |]|e]; try done.
  cbn [tasks_get]. destruct (tasks s !! k) as [t|] eqn:Hk; [|done].
  destruct (bool_decide (status t = pending) || bool_decide (status t = running))
    eqn:Hlive; [|done].
  apply rtc_once. unfold update_task. cbn [snd tasks with_tasks].
  rewrite (alter_twice_insert _ _ _ _ _ Hk).
  apply (ts_change _ k t); [done|]. apply tr_cancel.
  apply orb_true_iff in Hlive as [?%bool_decide_eq_true|?%bool_decide_eq_true]; auto.
Qed.

Lemma runTask_changes (k : string) (s : Server) :
  rtc table_step (tasks s) (tasks (runTask k s)).
Proof.
  destruct (tasks s !! k) as [t|] eqn:Hk; [|by rewrite runTask_missing].
  destruct (runTask_effect k t s Hk) as (s2 & Hio & ->).
  assert (tasks s2 = <[k := set_status running t]> (tasks s)) as Hs2.
  { destruct Hio as (_ & -> & _). unfold update_task. cbn [tasks with_tasks].
    by apply alter_lookup_insert. }
  assert (table_step (tasks s) (tasks s2)) as Hrun.
  { rewrite Hs2. apply (ts_change _ k t); [done|apply tr_run]. }
  destruct (admission t (currentSketch s)) as [call|e].
  - by apply rtc_once.
  - eapply rtc_l; [exact Hrun|]. apply rtc_once.
    apply (runTask_catch_change k e (set_status running t)).
    by rewrite Hs2, lookup_insert_eq.
Qed.

Lemma settle_changes (k : string) (outcome : Completion value) (s : Server) :
  rtc table_step (tasks s) (tasks (settle k outcome s)).
Proof.
  destruct (take_call k (awaiting s)) as [[call rest]|] eqn:Htake;
    [|unfold settle; by rewrite Htake].
  destruct (settle_effect k outcome call rest s Htake) as (s2 & -> & Hs2).
  destruct (tasks s !! k) as [t|] eqn:Hk.
  - destruct (conclusion call outcome) as [res|e] eqn:Hres.
    + destruct Hs2 as (_ & -> & _). apply rtc_once.
      unfold update_task. cbn [tasks with_tasks with_awaiting].
      rewrite (alter_twice_insert _ _ _ _ _ Hk).
      apply (ts_change _ k t); [done|]. apply tr_complete.
      destruct call, outcome; simplify_eq/=; try done.
      by destruct (get_prop _ _); simplify_eq/=.
    + subst s2. apply rtc_once.
      by apply (runTask_catch_change k e t (with_awaiting (λ _, rest) s)).
  - assert (tasks s2 = tasks s) as ->; [|done].
    destruct (conclusion call outcome) as [res|e].
    + destruct Hs2 as (_ & -> & _). unfold update_task.
      cbn [tasks with_tasks with_awaiting].
      rewrite (alter_missing _ (tasks s)) by done. by rewrite alter_missing.
    + subst s2. unfold runTask_catch, update_task.
      cbn [tasks with_tasks with_awaiting].
      rewrite (alter_missing _ (tasks s)) by done. by rewrite alter_missing.
Qed.

(** Over any history, the task table changes by these steps only. *)
Lemma run_changes (s : Server) (history : list Event) :
  ids_issued s → rtc table_step (tasks s) (tasks (run s history)).
Proof.
  intros Hs.
  apply (run_preserves (λ s', rtc table_step (tasks s) (tasks s'))); try done.
  - intros s1 s2 (-> & _). done.
  - intros now method params s1 Hs1 Hreach.
    etrans; [exact Hreach|by apply handleTask_changes].
  - intros s1 _ Hreach. etrans; [exact Hreach|]. unfold run_immediate.
    destruct (immediates s1) as [|k rest]; [done|].
    apply (runTask_changes k (with_immediates (λ _, rest) s1)).
  - intros k outcome s1 _ Hreach. etrans; [exact Hreach|apply settle_changes].
Qed.

End TableChanges.

(** ** Invariants of the tasks *)

Section EveryTask.
Variable φ : string → Task → Prop.
Hypothesis φ_new : ∀ k params, φ k (new_task k params).
Hypothesis φ_transition : ∀ k t t', transition t t' → φ k t → φ k t'.

Lemma table_step_every (m m' : gmap string Task) :
  table_step m m' →
  (∀ k t, m !! k = Some t → φ k t) → ∀ k t, m' !! k = Some t → φ k t.
Proof.
  intros Hstep Hm k t.
  destruct Hstep as [k0 params Hfree|k0 t0 t0' Hk0 Htr];
    rewrite lookup_insert; case_decide; subst; try (by apply Hm).
  - intros [= <-]. apply φ_new.
  - intros [= <-]. by apply (φ_transition _ t0), Hm.
Qed.

Lemma table_steps_every (m m' : gmap string Task) :
  rtc table_step m m' →
  (∀ k t, m !! k = Some t → φ k t) → ∀ k t, m' !! k = Some t → φ k t.
Proof.
  induction 1 as [|m1 m2 m3 Hstep _ IH]; [done|].
  intros Hm. apply IH. by apply (table_step_every m1).
Qed.

End EveryTask.

Section TaskInvariants.
Context `{Runtime}.

(** What holds of a new task and is kept by every change of a task holds of
    every task of every state a server can reach. *)
Lemma reachable_every (φ : string → Task → Prop) :
  (∀ k params, φ k (new_task k params)) →
  (∀ k t t', transition t t' → φ k t → φ k t') →
  ∀ library_injected history k t,
    tasks (run (new_server library_injected) history) !! k = Some t → φ k t.
Proof.
  intros Hnew Htr library_injected history.
  apply (table_steps_every φ Hnew Htr (tasks (new_server library_injected))).
  - apply run_changes, ids_issued_new_server.
  - intros k t. simpl. by rewrite lookup_empty.
Qed.

(** X1: whatever has happened to a server, an event changes its task table
    only by creating a [pending] task under an identifier that is new, or by
    one of four changes of a task: to [running]; to [failed] with an error;
    from [pending] or [running] to [cancelled] with the fixed error; to
    [completed] with a result that says [success: true]. *)
Theorem task_table_changes (library_injected : bool) (history : list Event)
    (ev : Event) :
  let s := run (new_server library_injected) history in
  rtc table_step (tasks s) (tasks (step s ev)).
Proof.
  intros s. apply (run_changes s [ev]). apply run_ids_issued.
Qed.

(** X2: in every state a server can reach, the members of every task go
    with its status: a [pending] task has neither result nor error, a
    [failed] one has an error, a [cancelled] one has the error "Cancelled by
    user", and a [completed] one has a result with [success: true]. *)
Theorem task_members_consistent (library_injected : bool) (history : list Event)
    (k : string) (t : Task) :
  tasks (run (new_server library_injected) history) !! k = Some t → consistent t.
Proof.
  apply (reachable_every (λ _, consistent)).
  - intros k0 params. repeat split; done.
  - intros _ t0 t0' Htr (Hp & Hf & Hc & Hd).
    destruct Htr; repeat split; simpl; try done; eauto.
Qed.

(** X3: progress is broadcast and never stored: in every state a server can
    reach no task has [progress] or [progressMessage], so [task/get] reports
    both as [undefined] for every task. *)
Theorem progress_never_stored (library_injected : bool) (history : list Event)
    (now : Z) (k : string) (t : Task) :
  let s := run (new_server library_injected) history in
  tasks s !! k = Some t →
  progress t = None ∧ progressMessage t = None
  ∧ ∃ answer, handleTask now "task/get" (VObj [("taskId", VStr k)]) s
              = (Return answer, s)
      ∧ optchain answer "progress" = VUndefined
      ∧ optchain answer "progressMessage" = VUndefined.
Proof.
  intros s Hk.
  assert (progress t = None ∧ progressMessage t = None) as [Hp Hm].
  { revert Hk.
    apply (reachable_every (λ _ t, progress t = None ∧ progressMessage t = None)).
    - done.
    - intros _ t0 t0' Htr. by destruct Htr. }
  split; [done|]. split; [done|].
  exists (snapshot t). rewrite handleTask_get.
  change (field "taskId" [("taskId", VStr k)]) with (VStr k).
  unfold tasks_get. rewrite Hk. unfold snapshot. simpl. by rewrite Hp, Hm.
Qed.

End TaskInvariants.

(** ** Running and settling, member by member *)

Section TaskFields.
Context `{Runtime}.

Lemma runTask_fields (k : string) (t : Task) (s : Server) :
  tasks s !! k = Some t →
  tasks (runTask k s) = <[k := fst (admitted k t (currentSketch s))]> (tasks s)
  ∧ awaiting (runTask k s) = awaiting s ++ snd (admitted k t (currentSketch s))
  ∧ immediates (runTask k s) = immediates s
  ∧ taskCounter (runTask k s) = taskCounter s
  ∧ clients (runTask k s) = clients s
  ∧ currentSketch (runTask k s) = currentSketch s
  ∧ lastBuildOutput (runTask k s) = lastBuildOutput s.
Proof.
  intros Hk. destruct (runTask_effect k t s Hk) as (s2 & Hio & ->).
  destruct Hio as (Hcl & Ht & Hn & Hb & Hsk & _ & Hi & Ha).
  assert (tasks s2 = <[k := set_status running t]> (tasks s)) as Hs2.
  { rewrite Ht. unfold update_task. cbn [tasks with_tasks].
    by apply alter_lookup_insert. }
  unfold admitted. destruct (admission t (currentSketch s)) as [call|e].
  - cbn [fst snd]. repeat split; try done. simpl. by rewrite Ha.
  - cbn [fst snd]. unfold runTask_catch, update_task.
    cbn [tasks awaiting immediates taskCounter clients currentSketch
         lastBuildOutput with_tasks].
    repeat split; try done; [|by rewrite Ha, app_nil_r].
    rewrite (alter_twice_insert _ _ _ k (set_status running t))
      by (by rewrite Hs2, lookup_insert_eq).
    rewrite Hs2. by rewrite insert_insert_eq.
Qed.

Lemma settle_fields (k : string) (outcome : Completion value) (call : CoreCall)
    (rest : list (string * CoreCall)) (t : Task) (s : Server) :
  take_call k (awaiting s) = Some (call, rest) →
  tasks s !! k = Some t →
  tasks (settle k outcome s) = <[k := concluded t call outcome]> (tasks s)
  ∧ awaiting (settle k outcome s) = rest
  ∧ immediates (settle k outcome s) = immediates s
  ∧ taskCounter (settle k outcome s) = taskCounter s
  ∧ clients (settle k outcome s) = clients s
  ∧ currentSketch (settle k outcome s) = currentSketch s
  ∧ lastBuildOutput (settle k outcome s) = lastBuildOutput s.
Proof.
  intros Htake Hk.
  destruct (settle_effect k outcome call rest s Htake) as (s2 & -> & Hs2).
  unfold concluded. destruct (conclusion call outcome) as [res|e].
  - destruct Hs2 as (-> & -> & -> & -> & -> & _ & -> & ->).
    unfold update_task.
    cbn [tasks awaiting immediates taskCounter clients currentSketch
         lastBuildOutput with_tasks with_awaiting].
    repeat split; try done. by apply alter_twice_insert.
  - subst s2. unfold runTask_catch, update_task.
    cbn [tasks awaiting immediates taskCounter clients currentSketch
         lastBuildOutput with_tasks with_awaiting].
    repeat split; try done. by apply alter_twice_insert.
Qed.

Lemma settle_not_waiting (k : string) (outcome : Completion value) (s : Server) :
  take_call k (awaiting s) = None → settle k outcome s = s.
Proof. intros Htake. unfold settle. by rewrite Htake. Qed.

Lemma settle_missing (k : string) (outcome : Completion value) (call : CoreCall)
    (rest : list (string * CoreCall)) (s : Server) :
  take_call k (awaiting s) = Some (call, rest) →
  tasks s !! k = None →
  tasks (settle k outcome s) = tasks s
  ∧ awaiting (settle k outcome s) = rest
  ∧ immediates (settle k outcome s) = immediates s
  ∧ taskCounter (settle k outcome s) = taskCounter s.
Proof.
  intros Htake Hk.
  destruct (settle_effect k outcome call rest s Htake) as (s2 & -> & Hs2).
  destruct (conclusion call outcome) as [res|e].
  - destruct Hs2 as (_ & -> & -> & _ & _ & _ & -> & ->).
    unfold update_task.
    cbn [tasks awaiting immediates taskCounter with_tasks with_awaiting].
    repeat split; try done.
    rewrite (alter_missing _ (tasks s)) by done. by rewrite alter_missing.
  - subst s2. unfold runTask_catch, update_task.
    cbn [tasks awaiting immediates taskCounter with_tasks with_awaiting].
    repeat split; try done.
    rewrite (alter_missing _ (tasks s)) by done. by rewrite alter_missing.
Qed.

(** [take_call] takes the first entry of the task out and leaves the others. *)
Lemma take_call_spec (k : string) (l : list (string * CoreCall)) :
  match take_call k l with
  | None => k ∉ l.*1
  | Some (call, rest) =>
      ∃ before after, l = before ++ (k, call) :: after
        ∧ rest = before ++ after ∧ k ∉ before.*1
  end.
Proof.
  induction l as [|[k' call'] l IH]; cbn [take_call]; [apply not_elem_of_nil|].
  destruct (k' === k) eqn:Heq.
  - apply String.eqb_eq in Heq as ->. exists [], l.
    split; [done|]. split; [done|]. apply not_elem_of_nil.
  - apply String.eqb_neq in Heq.
    destruct (take_call k l) as [[call rest]|].
    + destruct IH as (before & after & -> & -> & Hnot).
      exists ((k', call') :: before), after. repeat split.
      cbn [fmap list_fmap fst]. intros [?|?]%elem_of_cons; [congruence|done].
    + cbn [fmap list_fmap fst]. intros [?|?]%elem_of_cons; [congruence|done].
Qed.

End TaskFields.

(** ** Invariants of the schedule *)

Section Schedule.
Context `{Runtime}.

Lemma handleTask_fields (now : Z) (method : string)
    (params : value) (s : Server) :
  let s' := snd (handleTask now method params s) in
  let taskId := make_task_id (taskCounter s + 1) now in
  (method = "task/create"
   ∧ tasks s' = <[taskId := new_task taskId params]> (tasks s)
   ∧ taskCounter s' = (taskCounter s + 1)%N
   ∧ immediates s' = immediates s ++ [taskId]
   ∧ awaiting s' = awaiting s)
  ∨ (∃ k t, tasks s !! k = Some t
       ∧ (status t = pending ∨ status t = running)
       ∧ tasks s' = <[k := set_error "Cancelled by user" (set_status cancelled t)]> (tasks s)
       ∧ taskCounter s' = taskCounter s
       ∧ immediates s' = immediates s ∧ awaiting s' = awaiting s)
  ∨ (method = "task/create"
     ∧ tasks s' = tasks s
     ∧ taskCounter s' = (taskCounter s + 1)%N
     ∧ immediates s' = immediates s ∧ awaiting s' = awaiting s)
  ∨ s' = s.
Proof.
  intros s' taskId. subst s'. unfold handleTask.
  destruct (method === "task/create") eqn:Hc.
  { apply String.eqb_eq in Hc.
    destruct (get_prop params "tool") as [tool|e] eqn:Htool.
    - left. apply get_prop_Return in Htool as ->. by repeat split.
    - right; right; left. by repeat split. }
  destruct (method === "task/get").
  { right; right; right.
    destruct (get_prop params "taskId") as [taskId'|e]; [|done].
    by destruct (tasks_get _ s). }
  destruct (method === "task/cancel"); [|by right; right; right].
  destruct (get_prop params "taskId") as [[| | | |k| |]|e];
    try (by right; right; right).
  cbn [tasks_get]. destruct (tasks s !! k) as [t|] eqn:Hk; [|by right; right; right].
  destruct (bool_decide (status t = pending) || bool_decide (status t = running))
    eqn:Hlive; [|by right; right; right].
  right; left. exists k, t. split; [done|]. split.
  { apply orb_true_iff in Hlive as [?%bool_decide_eq_true|?%bool_decide_eq_true]; auto. }
  unfold update_task. cbn [snd tasks taskCounter immediates awaiting with_tasks].
  repeat split. by apply alter_twice_insert.
Qed.

Lemma nothing_forgotten_run (s : Server) (history : list Event) :
  ids_issued s → nothing_forgotten s → nothing_forgotten (run s history).
Proof.
  apply (run_preserves nothing_forgotten).
  - intros s1 s2 (Ht & _ & Hi & Ha) Hs1 k t. rewrite Ht, Hi, Ha. apply Hs1.
  - intros now method params s1 _ Hs1.
    destruct (handleTask_fields now method params s1)
      as [(_ & Ht & _ & Hi & Ha)
         |[(k0 & t0 & Hk0 & _ & Ht & _ & Hi & Ha)
          |[(_ & Ht & _ & Hi & Ha)| ->]]];
      [| | |done].
    + intros k t. rewrite Ht, Hi, Ha, lookup_insert.
      case_decide as Heq.
      * intros [= <-]. subst. split; [|done]. intros _. set_solver.
      * intros Hk. destruct (Hs1 k t Hk) as [Hp Hr]. split; [|done].
        intros Hst. apply elem_of_app. left. auto.
    + intros k t. rewrite Ht, Hi, Ha, lookup_insert.
      case_decide as Heq; [|apply Hs1]. by intros [= <-].
    + intros k t. rewrite Ht, Hi, Ha. apply Hs1.
  - intros s1 _ Hs1. unfold run_immediate.
    destruct (immediates s1) as [|k0 rest] eqn:Hq; [done|].
    set (s1' := with_immediates (λ _, rest) s1).
    destruct (tasks s1 !! k0) as [t0|] eqn:Hk0.
    + destruct (runTask_fields k0 t0 s1' Hk0) as (Ht & Ha & Hi & _).
      intros k t. rewrite Ht, Ha, Hi. cbn [tasks immediates awaiting s1' with_immediates].
      rewrite lookup_insert. case_decide as Heq.
      * intros [= <-]. subst k. unfold admitted.
        destruct (admission _ _); cbn [fst snd]; split; try done.
        intros _. cbn [fmap list_fmap]. rewrite fmap_app. set_solver.
      * intros Hk. destruct (Hs1 k t Hk) as [Hp Hr]. split.
        -- intros Hst. specialize (Hp Hst). rewrite Hq in Hp.
           apply elem_of_cons in Hp as [?|?]; [congruence|done].
        -- intros Hst. rewrite fmap_app. apply elem_of_app. left. auto.
    + rewrite (runTask_missing k0 s1') by done.
      intros k t Hk. destruct (Hs1 k t Hk) as [Hp Hr]. split; [|done].
      intros Hst. specialize (Hp Hst). rewrite Hq in Hp.
      apply elem_of_cons in Hp as [->|?]; [|done].
      cbn [tasks s1' with_immediates] in Hk. congruence.
  - intros k0 outcome s1 _ Hs1.
    pose proof (take_call_spec k0 (awaiting s1)) as Hspec.
    destruct (take_call k0 (awaiting s1)) as [[call rest]|] eqn:Htake;
      [|by rewrite settle_not_waiting].
    destruct Hspec as (before & after & Hl & -> & _).
    assert (∀ k, k ≠ k0 → k ∈ (awaiting s1).*1 → k ∈ (before ++ after).*1) as Hkeep.
    { intros k Hne. rewrite Hl, !fmap_app, fmap_cons. cbn [fst]. set_solver. }
    destruct (tasks s1 !! k0) as [t0|] eqn:Hk0.
    + destruct (settle_fields k0 outcome call _ t0 s1 Htake Hk0) as (Ht & Ha & Hi & _).
      intros k t. rewrite Ht, Ha, Hi, lookup_insert. case_decide as Heq.
      * intros [= <-]. unfold concluded. by destruct (conclusion _ _).
      * intros Hk. destruct (Hs1 k t Hk) as [Hp Hr]. split; [done|].
        intros Hst. apply Hkeep; [congruence|auto].
    + destruct (settle_missing k0 outcome call _ s1 Htake Hk0) as (Ht & Ha & Hi & _).
      intros k t. rewrite Ht, Ha, Hi. intros Hk.
      destruct (Hs1 k t Hk) as [Hp Hr]. split; [done|].
      intros Hst. apply Hkeep; [congruence|auto].
Qed.

Lemma scheduled_once_run (s : Server) (history : list Event) :
  ids_issued s → scheduled_once s → scheduled_once (run s history).
Proof.
  apply (run_preserves scheduled_once).
  - intros s1 s2 (_ & Hn & Hi & Ha). unfold scheduled_once, scheduled.
    by rewrite Hn, Hi, Ha.
  - intros now method params s1 _ [Hnd Hissued].
    destruct (handleTask_fields now method params s1)
      as [(_ & _ & Hn & Hi & Ha)
         |[(k0 & t0 & _ & _ & _ & Hn & Hi & Ha)
          |[(_ & _ & Hn & Hi & Ha)| ->]]];
      [| | |done].
    + unfold scheduled_once, scheduled in *. rewrite Hn, Hi, Ha. split.
      * rewrite <-app_assoc. apply NoDup_app. apply NoDup_app in Hnd as (Hq & Hqa & Ha').
        split; [done|]. split.
        -- intros k Hk [Hnew|Hin]%elem_of_cons.
           ++ subst k. destruct (Hissued _ (proj2 (elem_of_app _ _ _) (or_introl Hk)))
                as (n & now' & Heq & Hle).
              apply make_task_id_inj in Heq as [<- _]. lia.
           ++ by apply (Hqa k).
        -- apply NoDup_cons. split; [|done]. intros Hin.
           destruct (Hissued _ (proj2 (elem_of_app _ _ _) (or_intror Hin)))
             as (n & now' & Heq & Hle).
           apply make_task_id_inj in Heq as [<- _]. lia.
      * intros k Hk.
        assert (k ∈ immediates s1 ++ (awaiting s1).*1 ∨ k = make_task_id (taskCounter s1 + 1) now)
          as [Hold| ->] by set_solver.
        -- destruct (Hissued k Hold) as (n & now' & -> & Hle).
           exists n, now'. split; [done|lia].
        -- eexists _, _. split; [done|lia].
    + unfold scheduled_once, scheduled in *. by rewrite Hn, Hi, Ha.
    + unfold scheduled_once, scheduled in *. rewrite Hn, Hi, Ha.
      split; [done|]. intros k Hk.
      destruct (Hissued k Hk) as (n & now' & -> & Hle).
      exists n, now'. split; [done|lia].
  - intros s1 _ [Hnd Hissued]. unfold run_immediate.
    destruct (immediates s1) as [|k0 rest] eqn:Hq; [done|].
    set (s1' := with_immediates (λ _, rest) s1).
    assert (scheduled_once s1') as [Hnd' Hissued'].
    { unfold scheduled_once, scheduled in *.
      cbn [immediates awaiting taskCounter s1' with_immediates]. rewrite Hq in *.
      split; [by apply NoDup_cons in Hnd as [_ ?]|].
      intros k Hk. apply Hissued. set_solver. }
    destruct (tasks s1 !! k0) as [t0|] eqn:Hk0;
      [|by rewrite (runTask_missing k0 s1')].
    destruct (runTask_fields k0 t0 s1' Hk0) as (_ & Ha & Hi & Hn & _).
    unfold scheduled_once, scheduled in *. rewrite Ha, Hi, Hn.
    cbn [immediates awaiting taskCounter s1' with_immediates] in *. rewrite Hq in *.
    unfold admitted. destruct (admission _ _); cbn [snd]; [|by rewrite app_nil_r].
    rewrite fmap_app. cbn [fmap list_fmap fst]. split.
    + rewrite app_assoc. apply NoDup_app. split; [done|].
      split; [|apply NoDup_singleton].
      intros k Hk ->%list_elem_of_singleton.
      apply NoDup_cons in Hnd as [Hnot _]. done.
    + intros k Hk. apply Hissued. set_solver.
  - intros k0 outcome s1 _ [Hnd Hissued].
    pose proof (take_call_spec k0 (awaiting s1)) as Hspec.
    destruct (take_call k0 (awaiting s1)) as [[call rest]|] eqn:Htake;
      [|by rewrite settle_not_waiting].
    destruct Hspec as (before & after & Hl & -> & _).
    assert (awaiting (settle k0 outcome s1) = before ++ after
            ∧ immediates (settle k0 outcome s1) = immediates s1
            ∧ taskCounter (settle k0 outcome s1) = taskCounter s1) as (Ha & Hi & Hn).
    { destruct (tasks s1 !! k0) as [t0|] eqn:Hk0.
      - by destruct (settle_fields k0 outcome call _ t0 s1 Htake Hk0)
          as (_ & ? & ? & ? & _).
      - by destruct (settle_missing k0 outcome call _ s1 Htake Hk0)
          as (_ & ? & ? & ?). }
    unfold scheduled_once, scheduled in *. rewrite Ha, Hi, Hn.
    rewrite Hl in Hnd, Hissued. rewrite !fmap_app, fmap_cons in Hnd, Hissued.
    cbn [fst] in Hnd, Hissued. rewrite fmap_app. split.
    + apply NoDup_app in Hnd as (Hq & Hqa & Ha').
      apply NoDup_app in Ha' as (Hb & Hba & Haf). apply NoDup_cons in Haf as [Hk0 Haf].
      apply NoDup_app. split; [done|]. split; [set_solver|].
      apply NoDup_app. split; [done|]. split; [set_solver|done].
    + intros k Hk. apply Hissued. set_solver.
Qed.

End Schedule.

(** ** The tasks of a server that can be reached *)

Section Reachable.
Context `{Runtime}.

(** X4: no task is forgotten.  In every state a server can reach, every
    [pending] task has its [setImmediate] callback in the queue and every
    [running] task has a [coreService] call it waits for. *)
Theorem task_never_forgotten (library_injected : bool) (history : list Event)
    (k : string) (t : Task) :
  let s := run (new_server library_injected) history in
  tasks s !! k = Some t →
  (status t = pending → k ∈ immediates s)
  ∧ (status t = running → k ∈ (awaiting s).*1).
Proof.
  intros s. apply (nothing_forgotten_run (new_server library_injected) history).
  - apply ids_issued_new_server.
  - intros k0 t0. simpl. by rewrite lookup_empty.
Qed.

(** X5: no task is scheduled twice.  In every state a server can reach, an
    identifier occurs at most once among the queued callbacks and the calls
    waited for, taken together. *)
Theorem task_scheduled_once (library_injected : bool) (history : list Event) :
  let s := run (new_server library_injected) history in
  NoDup (immediates s ++ (awaiting s).*1).
Proof.
  intros s.
  apply (scheduled_once_run (new_server library_injected) history).
  - apply ids_issued_new_server.
  - split; [apply NoDup_nil_2|]. intros k Hk. by apply elem_of_nil in Hk.
Qed.

Lemma table_steps_persist (m m' : gmap string Task) :
  rtc table_step m m' →
  ∀ k t, m !! k = Some t →
    ∃ t', m' !! k = Some t' ∧ task_id t' = task_id t ∧ tool t' = tool t
          ∧ arguments t' = arguments t.
Proof.
  induction 1 as [m|m1 m2 m3 Hstep _ IH]; intros k t Hk; [by exists t|].
  assert (∃ t2, m2 !! k = Some t2 ∧ task_id t2 = task_id t ∧ tool t2 = tool t
                ∧ arguments t2 = arguments t) as (t2 & Hk2 & Hid & Htool & Hargs).
  { destruct Hstep as [k0 params Hfree|k0 t0 t0' Hk0 Htr];
      rewrite lookup_insert; case_decide; subst; try (by exists t).
    - congruence.
    - exists t0'. rewrite Hk0 in Hk. injection Hk as ->.
      split; [done|]. by destruct Htr. }
  destruct (IH k t2 Hk2) as (t' & Hk' & ? & ? & ?).
  exists t'. repeat split; congruence.
Qed.

(** X6: tasks stay.  A task that is in the table is there after every further
    history, under the same key, which is its [id], and with the [tool] and
    the [arguments] it was created with; no event removes or replaces a
    task. *)
Theorem tasks_persist (library_injected : bool) (before after : list Event)
    (k : string) (t : Task) :
  tasks (run (new_server library_injected) before) !! k = Some t →
  ∃ t', tasks (run (new_server library_injected) (before ++ after)) !! k = Some t'
    ∧ task_id t' = k ∧ task_id t = k
    ∧ tool t' = tool t ∧ arguments t' = arguments t.
Proof.
  intros Hk. unfold run. rewrite foldl_app.
  fold (run (new_server library_injected) before).
  fold (run (run (new_server library_injected) before) after).
  assert (task_id t = k) as Hid.
  { revert Hk. apply (reachable_every (λ k t, task_id t = k)); [done|].
    intros k0 t0 t0' Htr. by destruct Htr. }
  destruct (table_steps_persist _ _
              (run_changes (run (new_server library_injected) before) after
                 (run_ids_issued library_injected before)) k t Hk)
    as (t' & Hk' & Hid' & Htool & Hargs).
  exists t'. repeat split; congruence.
Qed.

(** X7: the counter counts the creations that were asked for, not the tasks.
    In every state a server can reach the task table has at most
    [taskCounter] entries.  A [task/create] moves the counter by one whatever
    its parameters are, and adds one task to the table, unless [params] is
    [undefined] or [null]: then the request fails, on reading [params.tool],
    after the counter was moved, and nothing else has changed. *)
Theorem counter_bounds_tasks (library_injected : bool) (history : list Event)
    (now : Z) (params : value) :
  let s := run (new_server library_injected) history in
  let outcome := handleTask now "task/create" params s in
  (N.of_nat (size (tasks s)) ≤ taskCounter s)%N
  ∧ taskCounter (snd outcome) = (taskCounter s + 1)%N
  ∧ match params with
    | VUndefined | VNull =>
        fst outcome = get_prop params "tool"
        ∧ (∃ e, fst outcome = Throw e)
        ∧ snd outcome = with_taskCounter (taskCounter s + 1) s
    | _ => size (tasks (snd outcome)) = S (size (tasks s))
    end.
Proof.
  intros s outcome.
  assert (ids_issued s) as Hs by apply run_ids_issued.
  split; [|split].
  - apply (run_preserves (λ s, (N.of_nat (size (tasks s)) ≤ taskCounter s)%N)).
    + intros s1 s2 (-> & -> & _). done.
    + intros now0 method params0 s1 Hs1 Hsize.
      destruct (handleTask_fields now0 method params0 s1)
        as [(_ & Ht & Hn & _)
           |[(k0 & t0 & Hk0 & _ & Ht & Hn & _)
            |[(_ & Ht & Hn & _)| ->]]]; [| | |done].
      * rewrite Ht, Hn, map_size_insert_None by (by apply next_id_fresh). lia.
      * rewrite Ht, Hn, map_size_insert_Some by done. done.
      * rewrite Ht, Hn. lia.
    + intros s1 _ Hsize. unfold run_immediate.
      destruct (immediates s1) as [|k0 rest]; [done|].
      set (s1' := with_immediates (λ _, rest) s1).
      destruct (tasks s1 !! k0) as [t0|] eqn:Hk0;
        [|by rewrite (runTask_missing k0 s1')].
      destruct (runTask_fields k0 t0 s1' Hk0) as (Ht & _ & _ & Hn & _).
      rewrite Ht, Hn. cbn [tasks taskCounter s1' with_immediates].
      by rewrite map_size_insert_Some.
    + intros k0 outcome0 s1 _ Hsize.
      destruct (take_call k0 (awaiting s1)) as [[call rest]|] eqn:Htake;
        [|by rewrite settle_not_waiting].
      destruct (tasks s1 !! k0) as [t0|] eqn:Hk0.
      * destruct (settle_fields k0 outcome0 call rest t0 s1 Htake Hk0)
          as (Ht & _ & _ & Hn & _).
        rewrite Ht, Hn. by rewrite map_size_insert_Some.
      * destruct (settle_missing k0 outcome0 call rest s1 Htake Hk0)
          as (Ht & _ & _ & Hn).
        by rewrite Ht, Hn.
    + apply ids_issued_new_server.
    + cbn [tasks taskCounter new_server]. rewrite map_size_empty. lia.
  - subst outcome. unfold handleTask.
    change ("task/create" === "task/create") with true. cbv match.
    by destruct (get_prop params "tool").
  - subst outcome. unfold handleTask.
    change ("task/create" === "task/create") with true. cbv match.
    destruct params; cbn [get_prop snd fst tasks with_immediates with_tasks
                          with_taskCounter optchain];
      try (rewrite map_size_insert_None by (by apply next_id_fresh); reflexivity).
    + split; [done|]. split; [by eexists|done].
    + split; [done|]. split; [by eexists|done].
Qed.


(** X9: what a settled [coreService] call does.  If the task waits for one,
    the oldest entry leaves the schedule; the task is [completed] with
    [{success: true, ...}] taken from what the call returned, or [failed]
    with "Compilation failed: ..." or "Upload failed: ..." when the call
    threw (or, for an upload, returned [null] or [undefined]).  If the task
    does not wait for a call, nothing happens. *)
Theorem settle_outcome (k : string) (outcome : Completion value) (t : Task)
    (s : Server) :
  tasks s !! k = Some t →
  match take_call k (awaiting s) with
  | None => settle k outcome s = s
  | Some (call, rest) =>
      tasks (settle k outcome s)
      = <[k := match conclusion call outcome with
               | Return res => set_status completed (set_result res t)
               | Throw e => set_error (error_message e) (set_status failed t)
               end]> (tasks s)
      ∧ awaiting (settle k outcome s) = rest
      ∧ immediates (settle k outcome s) = immediates s
      ∧ taskCounter (settle k outcome s) = taskCounter s
      ∧ clients (settle k outcome s) = clients s
      ∧ currentSketch (settle k outcome s) = currentSketch s
      ∧ lastBuildOutput (settle k outcome s) = lastBuildOutput s
  end.
Proof.
  intros Hk.
  destruct (take_call k (awaiting s)) as [[call rest]|] eqn:Htake;
    [|by apply settle_not_waiting].
  exact (settle_fields k outcome call rest t s Htake Hk).
Qed.

Lemma take_call_newest (k : string) (call : CoreCall) (l : list (string * CoreCall)) :
  k ∉ l.*1 → take_call k (l ++ [(k, call)]) = Some (call, l).
Proof.
  induction l as [|[k' call'] l IH]; cbn [take_call app fmap list_fmap fst].
  - intros _. by rewrite String.eqb_refl.
  - intros [Hne Hnot]%not_elem_of_cons.
    destruct (k' === k) eqn:Heq; [apply String.eqb_eq in Heq; congruence|].
    by rewrite (IH Hnot).
Qed.

(** X10: a compile task from creation to completion.  On a reachable server
    with an open sketch and no callback queued, a task created for
    [arduino_compile] with a board in [arguments.fqbn], whose callback then
    runs and whose compiler call then returns, is reported by [task/get] as
    [completed], with the build path the compiler gave and without error. *)
Theorem compile_task_completes (library_injected : bool) (history : list Event)
    (now now' : Z) (params args : list (string * value)) (sk : Sketch)
    (res : value) :
  let s := run (new_server library_injected) history in
  let taskId := make_task_id (taskCounter s + 1) now in
  let s3 := settle taskId (Return res)
              (run_immediate (snd (handleTask now "task/create" (VObj params) s))) in
  immediates s = [] →
  currentSketch s = Some sk →
  field "tool" params = VStr "arduino_compile" →
  field "arguments" params = VObj args →
  truthy (field "fqbn" args) = true →
  fst (handleTask now' "task/get" (VObj [("taskId", VStr taskId)]) s3)
  = Return (VObj [("status", VStr "completed");
                  ("result", VObj [("success", VBool true);
                                   ("buildPath", optchain res "buildPath");
                                   ("executableSectionsSize",
                                    optchain res "executableSectionsSize")]);
                  ("error", VUndefined); ("progress", VUndefined);
                  ("progressMessage", VUndefined)]).
Proof.
  intros s taskId s3 Hidle Hsk Htool Hargs Hfqbn.
  assert (ids_issued s) as Hs by apply run_ids_issued.
  assert (taskId ∉ (awaiting s).*1) as Hnew.
  { intros Hin.
    destruct (scheduled_once_run (new_server library_injected) history) as [_ Hissued].
    - apply ids_issued_new_server.
    - split; [apply NoDup_nil_2|]. intros k Hk. by apply elem_of_nil in Hk.
    - destruct (Hissued taskId) as (n & now0 & Heq & Hle).
      + apply elem_of_app. by right.
      + apply make_task_id_inj in Heq as [<- _]. fold s in Hle. lia. }
  set (s1 := snd (handleTask now "task/create" (VObj params) s)) in *.
  set (task := new_task taskId (VObj params)).
  assert (tasks s1 = <[taskId := task]> (tasks s) ∧ immediates s1 = [taskId]
          ∧ awaiting s1 = awaiting s ∧ currentSketch s1 = Some sk)
    as (Ht1 & Hi1 & Ha1 & Hsk1).
  { subst s1. unfold handleTask. simpl. by rewrite Hidle, Hsk. }
  set (s2 := run_immediate s1) in *.
  set (call := Compile sk (field "fqbn" args)
                 (js_or (optchain (VObj args) "verbose") (VBool false))).
  assert (admission task (Some sk) = Return call) as Hadm.
  { unfold admission, task, new_task. cbn [tool arguments optchain].
    rewrite Htool, Hargs. simpl. by rewrite Hfqbn. }
  assert (tasks s2 = <[taskId := set_status running task]> (tasks s)
          ∧ awaiting s2 = awaiting s ++ [(taskId, call)]) as (Ht2 & Ha2).
  { subst s2. unfold run_immediate. rewrite Hi1.
    destruct (runTask_fields taskId task (with_immediates (λ _, []) s1))
      as (Ht & Ha & _).
    { cbn [tasks with_immediates]. by rewrite Ht1, lookup_insert_eq. }
    cbn [tasks awaiting currentSketch with_immediates] in Ht, Ha.
    rewrite Ht, Ha, Ht1, Ha1, Hsk1. unfold admitted. rewrite Hadm. cbn [fst snd].
    by rewrite insert_insert_eq. }
  assert (tasks s3 !! taskId
          = Some (concluded (set_status running task) call (Return res))) as Hk3.
  { subst s3.
    destruct (settle_fields taskId (Return res) call (awaiting s)
                (set_status running task) s2) as (Ht & _).
    - rewrite Ha2. by apply take_call_newest.
    - by rewrite Ht2, lookup_insert_eq.
    - by rewrite Ht, lookup_insert_eq. }
  rewrite handleTask_get.
  change (field "taskId" [("taskId", VStr taskId)]) with (VStr taskId).
  unfold tasks_get. rewrite Hk3. reflexivity.
Qed.

End Reachable.

(** ** What requests leave alone *)

Section RequestFrames.
Context `{Runtime}.

Lemma extends_output_refl (s : Server) : extends_output s s.
Proof. intros socket. destruct (sockets s !! socket) as [c|]; [|done]. by exists c. Qed.

Lemma extends_output_trans (s1 s2 s3 : Server) :
  extends_output s1 s2 → extends_output s2 s3 → extends_output s1 s3.
Proof.
  intros H12 H23 socket. specialize (H12 socket). specialize (H23 socket).
  destruct (sockets s1 !! socket) as [c1|].
  - destruct H12 as (c2 & Hc2 & Hb & Hf & Hw). rewrite Hc2 in H23.
    destruct H23 as (c3 & Hc3 & Hb' & Hf' & Hw').
    exists c3. repeat split; [done|congruence|congruence|by etrans].
  - by rewrite H12 in H23.
Qed.

Lemma extends_output_same (s s' : Server) :
  sockets s' = sockets s → extends_output s s'.
Proof. intros Heq. unfold extends_output. rewrite Heq. apply extends_output_refl. Qed.

Lemma deliver_extends (message : string) (c : Connection) :
  buffer (deliver message c) = buffer c
  ∧ write_fault (deliver message c) = write_fault c
  ∧ written c `prefix_of` written (deliver message c).
Proof.
  unfold deliver. destruct (write_fault c) eqn:Hf; simpl; repeat split; try done.
  by apply prefix_app_r.
Qed.

Lemma broadcast_extends_output (ev : IPCEvent) (s : Server) :
  extends_output s (broadcast ev s).
Proof.
  unfold broadcast. generalize (JSON_stringify (event_json ev) +:+ nl) as m.
  intros m. generalize (clients s) as l. intros l. revert s.
  induction l as [|client l IH]; intros s; cbn [foldl]; [apply extends_output_refl|].
  eapply extends_output_trans; [|apply IH].
  intros socket. rewrite broadcast_to_sockets.
  destruct (sockets s !! socket) as [c|]; [|by case_decide].
  case_decide; [|by exists c]. simpl. exists (deliver m c).
  split; [done|]. apply deliver_extends.
Qed.

Lemma socket_write_extends_output socket message (s : Server) :
  extends_output s (snd (socket_write socket message s)).
Proof.
  pose proof (socket_write_cases socket message s) as Hw.
  destruct (sockets s !! socket) as [c|] eqn:Hc;
    [|rewrite Hw; apply extends_output_refl].
  destruct (write_fault c) eqn:Hf; rewrite Hw; [apply extends_output_refl|].
  intros other. cbn [snd sockets with_sockets]. rewrite lookup_insert.
  case_decide as Heq.
  - subst. rewrite Hc. exists (deliver message c). split; [done|].
    apply deliver_extends.
  - destruct (sockets s !! other) as [c'|]; [by exists c'|done].
Qed.

Lemma setCurrentSketch_extends_output (sketch : option Sketch) (s : Server) :
  extends_output s (setCurrentSketch sketch s).
Proof.
  unfold setCurrentSketch. case_match; [|by apply extends_output_same].
  eapply extends_output_trans; [|apply broadcast_extends_output].
  by apply extends_output_same.
Qed.

Ltac output_frame :=
  repeat (simplify_eq/=;
          first [ apply extends_output_refl
                | apply setCurrentSketch_extends_output
                | (apply extends_output_same; reflexivity)
                | case_match ]).

Lemma routeRequest_extends_output ext request (s : Server) :
  extends_output s (snd (routeRequest ext request s)).
Proof.
  unfold routeRequest. set (s0 := log _ s).
  eapply (extends_output_trans _ s0); [by apply extends_output_same|].
  clearbody s0.
  unfold handleContext, handleRoots, handleTask, handleSketch, handleBuild,
    handleBoard, handleSerial, handleLibrary.
  output_frame.
Qed.

Lemma setCurrentSketch_fixed (sketch : option Sketch) (s : Server) :
  lastBuildOutput (setCurrentSketch sketch s) = lastBuildOutput s
  ∧ libraryService (setCurrentSketch sketch s) = libraryService s.
Proof.
  unfold setCurrentSketch. case_match; [|done].
  destruct (broadcast_only_io roots_changed (with_currentSketch sketch s))
    as (_&_&_&Hb&_&Hl&_). by split.
Qed.

Lemma routeRequest_fixed ext request (s : Server) :
  lastBuildOutput (snd (routeRequest ext request s)) = lastBuildOutput s
  ∧ libraryService (snd (routeRequest ext request s)) = libraryService s
  ∧ (taskCounter s ≤ taskCounter (snd (routeRequest ext request s)))%N.
Proof.
  unfold routeRequest. set (s0 := log _ s).
  change (lastBuildOutput s) with (lastBuildOutput s0).
  change (libraryService s) with (libraryService s0).
  change (taskCounter s) with (taskCounter s0). clearbody s0.
  unfold handleContext, handleRoots, handleTask, handleSketch, handleBuild,
    handleBoard, handleSerial, handleLibrary.
  repeat case_match; simplify_eq/=;
    try (repeat split; first [reflexivity|lia]).
  all: try match goal with
       | |- context [setCurrentSketch ?sk ?s] =>
           destruct (setCurrentSketch_fixed sk s) as [-> ->];
           destruct (setCurrentSketch_same_table sk s) as [_ ->]
       end; repeat split; first [reflexivity | lia | congruence].
Qed.

(** X11: a request leaves in place what the server has: the set of clients,
    the stored build output and the injected library service are as before;
    every connection is still there, with its buffer and its fault; what a
    connection had received is still there, possibly followed by more; the
    task counter has not gone down. *)
Theorem requests_only_extend_output ext request (s : Server) :
  let s' := snd (routeRequest ext request s) in
  extends_output s s'
  ∧ clients s' = clients s
  ∧ lastBuildOutput s' = lastBuildOutput s
  ∧ libraryService s' = libraryService s
  ∧ (taskCounter s ≤ taskCounter s')%N.
Proof.
  intros s'. split; [apply routeRequest_extends_output|].
  split; [apply routeRequest_keeps_connections|]. apply routeRequest_fixed.
Qed.

(** X12: only four methods change the server.  A request for any method
    other than [task/create], [task/cancel], [sketch/open] and
    [sketch/fromExample], whatever its parameters and whatever the services
    answer, leaves every member of the server as it was, the console
    apart. *)
Theorem other_requests_only_log ext request (s : Server) :
  existsb (String.eqb (req_method request)) state_changing_methods = false →
  same_but_console s (snd (routeRequest ext request s)).
Proof.
  intros Hk. unfold state_changing_methods in Hk. cbn [existsb] in Hk.
  repeat (apply orb_false_elim in Hk as [? Hk]).
  unfold routeRequest. set (s0 := log _ s).
  assert (same_but_console s s0) as Hlog by (by repeat split).
  unfold same_but_console in *.
  destruct Hlog as (<-&<-&<-&<-&<-&<-&<-&<-&<-). clearbody s0.
  unfold handleContext, handleRoots, handleTask, handleSketch, handleBuild,
    handleBoard, handleSerial, handleLibrary.
  generalize dependent (req_method request). intros method. intros.
  repeat match goal with
         | Hf : (method === _) = false |- _ => rewrite !Hf; clear Hf
         end.
  repeat case_match; simplify_eq/=; repeat split;
    first [reflexivity | congruence].
Qed.

End RequestFrames.

(** ** The handlers *)

(** Evaluates the tests of the router and of a handler on a method that is
    known. *)
Ltac route :=
  unfold routeRequest, request_for; cbn [req_method req_params];
  repeat match goal with
         | |- context [startsWith ?a ?b] =>
             let v := eval vm_compute in (startsWith a b) in
             change (startsWith a b) with v
         end;
  cbv beta match;
  unfold handleContext, handleRoots, handleSketch, handleBuild, handleBoard,
    handleSerial, handleLibrary, handleTask;
  repeat match goal with
         | |- context [String.eqb ?a ?b] =>
             let v := eval vm_compute in (String.eqb a b) in
             change (String.eqb a b) with v
         end;
  cbv beta match.

Lemma library_prefix_only (method : string) :
  startsWith method "library/" = true →
  startsWith method "context/" = false ∧ startsWith method "roots/" = false
  ∧ startsWith method "task/" = false ∧ startsWith method "sketch/" = false
  ∧ startsWith method "build/" = false ∧ startsWith method "board/" = false
  ∧ startsWith method "serial/" = false.
Proof.
  unfold startsWith. destruct method as [|a method]; [done|]. cbn [String.prefix].
  destruct (ascii_dec "l" a) as [<-|]; [|done]. intros _. done.
Qed.

Section Stored.
Context `{Runtime}.

Lemma same_stored_refl (s : Server) : same_stored s s.
Proof. done. Qed.

Lemma same_stored_trans (s1 s2 s3 : Server) :
  same_stored s1 s2 → same_stored s2 s3 → same_stored s1 s3.
Proof. intros [? ?] [? ?]. split; congruence. Qed.

Lemma only_io_same_stored (s s' : Server) : only_io s s' → same_stored s s'.
Proof. intros (_&_&_&?&_&?&_). by split. Qed.

Lemma runTask_same_stored (k : string) (s : Server) : same_stored s (runTask k s).
Proof.
  destruct (tasks s !! k) as [t|] eqn:Hk; [|by rewrite runTask_missing].
  destruct (runTask_effect k t s Hk) as (s2 & Hio & ->).
  apply only_io_same_stored in Hio. destruct Hio as [Hb Hl].
  by destruct (admission t (currentSketch s)).
Qed.

Lemma settle_same_stored (k : string) (outcome : Completion value) (s : Server) :
  same_stored s (settle k outcome s).
Proof.
  destruct (take_call k (awaiting s)) as [[call rest]|] eqn:Htake;
    [|by rewrite settle_not_waiting].
  destruct (settle_effect k outcome call rest s Htake) as (s2 & -> & Hs2).
  destruct (conclusion call outcome) as [res|e]; [|by subst].
  by apply only_io_same_stored in Hs2.
Qed.

Lemma handleMessage_same_stored ext socket message (s : Server) :
  same_stored s (snd (handleMessage ext socket message s)).
Proof.
  unfold handleMessage. destruct (JSON_parse message) as [request|]; [|done].
  pose proof (routeRequest_fixed ext request s) as (Hb & Hl & _).
  destruct (routeRequest ext request s) as [routed s1]. cbn [snd] in *.
  apply (same_stored_trans _ s1); [by split|].
  destruct routed as [res|e].
  - pose proof (socket_write_only_io socket
                  (response_line (result_response request res)) s1) as Hw.
    destruct (socket_write socket _ s1) as [[[]|e] s2]; cbn [snd] in *.
    + by apply only_io_same_stored.
    + eapply same_stored_trans; [by apply only_io_same_stored|].
      apply only_io_same_stored, socket_write_only_io.
  - apply only_io_same_stored, socket_write_only_io.
Qed.

Lemma handle_lines_same_stored exts k socket lines (s : Server) :
  same_stored s (snd (handle_lines exts k socket lines s)).
Proof.
  revert k s. induction lines as [|line rest IH]; intros k s; cbn [handle_lines];
    [done|].
  destruct (is_blank line); [apply IH|].
  pose proof (handleMessage_same_stored (exts k) socket line s) as Hm.
  destruct (handleMessage (exts k) socket line s) as [[[]|e] s']; cbn [snd] in *;
    [|done].
  eapply same_stored_trans; [exact Hm|apply IH].
Qed.

Lemma step_same_stored (s : Server) (ev : Event) :
  is_build_output ev = false → same_stored s (step s ev).
Proof.
  destruct ev; cbn [is_build_output step]; intros Hev; try done.
  - unfold on_data. destruct (sockets s !! socket) as [c|]; [|done].
    destruct (frame (buffer c) chunk) as [lines rest].
    eapply same_stored_trans; [|apply handle_lines_same_stored]. done.
  - unfold run_immediate. destruct (immediates s) as [|k rest]; [done|].
    eapply same_stored_trans; [|apply runTask_same_stored]. done.
  - apply settle_same_stored.
  - apply setCurrentSketch_fixed.
  - apply only_io_same_stored, broadcast_only_io.
Qed.

Lemma step_library (s : Server) (ev : Event) :
  libraryService (step s ev) = libraryService s.
Proof.
  destruct (is_build_output ev) eqn:Hev; [by destruct ev|].
  by apply step_same_stored.
Qed.

Lemma run_same_stored (s : Server) (history : list Event) :
  forallb (λ ev, negb (is_build_output ev)) history = true →
  same_stored s (run s history).
Proof.
  revert s. induction history as [|ev history IH]; intros s; cbn [forallb]; [done|].
  intros [Hev Hrest]%andb_prop. apply negb_true_iff in Hev.
  change (run s (ev :: history)) with (run (step s ev) history).
  eapply same_stored_trans; [by apply step_same_stored|by apply IH].
Qed.

Lemma run_library (s : Server) (history : list Event) :
  libraryService (run s history) = libraryService s.
Proof.
  revert s. induction history as [|ev history IH]; intros s; [done|].
  change (run s (ev :: history)) with (run (step s ev) history).
  by rewrite IH, step_library.
Qed.

(** X13: a server constructed without the library service never gets one.
    After any history of events, any request whose method starts with
    [library/], a method that the library handler does not know included,
    fails with 'LibraryService not available'. *)
Theorem library_needs_service ext request (history : list Event) :
  startsWith (req_method request) "library/" = true →
  fst (routeRequest ext request (run (new_server false) history))
  = Throw (JsError "LibraryService not available").
Proof.
  intros Hp. destruct (library_prefix_only _ Hp) as (H1&H2&H3&H4&H5&H6&H7).
  unfold routeRequest. rewrite H1, H2, H3, H4, H5, H6, H7, Hp.
  unfold handleLibrary. cbn [libraryService log]. by rewrite run_library.
Qed.

(** X14: no request, no task and no connection event changes the stored build
    output: after any history in which the IDE does not call
    [setBuildOutput], the stored output is the one before, and
    [build/getOutput] answers with it (with two empty texts when there was
    none).  In particular a compile task that runs to completion does not
    record its output. *)
Theorem build_output_kept ext id params (s : Server) (history : list Event) :
  forallb (λ ev, negb (is_build_output ev)) history = true →
  lastBuildOutput (run s history) = lastBuildOutput s
  ∧ fst (routeRequest ext (request_for id "build/getOutput" params) (run s history))
    = Return (output_json (lastBuildOutput s)).
Proof.
  intros Hh. destruct (run_same_stored s history Hh) as [Hb _].
  split; [done|]. route. cbn [lastBuildOutput log fst]. rewrite Hb.
  unfold output_json. by repeat case_match.
Qed.

Lemma collect_diagnostics_filter (lines : list string) :
  collect_diagnostics lines
  = (trim <$> error_lines lines, trim <$> warning_lines lines).
Proof.
  unfold error_lines, warning_lines.
  induction lines as [|line rest IH]; [done|].
  cbn [collect_diagnostics List.filter]. rewrite IH.
  destruct (includes line "error:"); [done|].
  by destruct (includes line "warning:").
Qed.

(** X15: what [build/getErrors] answers after [setBuildOutput]: the errors
    are the lines of [stderr] that contain 'error:', the warnings are the
    lines that contain 'warning:' and not 'error:', both in the order of the
    output and trimmed; [stdout] is not looked at. *)
Theorem build_errors_classified ext id params (stdout stderr : string)
    (s : Server) :
  fst (routeRequest ext (request_for id "build/getErrors" params)
         (setBuildOutput stdout stderr s))
  = Return (VObj [("errors", strs (trim <$> error_lines (split_lines stderr)));
                  ("warnings", strs (trim <$> warning_lines (split_lines stderr)))]).
Proof.
  route. cbn [lastBuildOutput log setBuildOutput with_lastBuildOutput].
  by rewrite collect_diagnostics_filter.
Qed.

Lemma get_prop_Throw (o : value) (k : string) (e : Thrown) :
  get_prop o k = Throw e → o = VUndefined ∨ o = VNull.
Proof. destruct o; intros [=]; auto. Qed.

(** X16: a request that fails has changed nothing but the console, three
    cases apart, in which the source changes the server before the statement
    that throws: [task/create] whose [params] is [undefined] or [null] (the
    counter was moved before [params.tool] was read); [sketch/open] where
    [loadSketch] resolves to [undefined] or [null] (the current sketch was
    replaced by it, and [roots/changed] broadcast if a sketch was open,
    before [sketch.name] was read); [sketch/fromExample] where [copy] or
    [loadSketch] resolves to [undefined] or [null] (the current sketch was
    replaced by what [copy] gave before the names were read). *)
Theorem failed_request_effect ext request (e : Thrown) (s : Server) :
  fst (routeRequest ext request s) = Throw e →
  let s0 := log (console_log ("[arduino-mcp] Handling: " +:+ req_method request)) s in
  let s' := snd (routeRequest ext request s) in
  s' = s0
  ∨ (req_method request = "task/create"
     ∧ (req_params request = VUndefined ∨ req_params request = VNull)
     ∧ s' = with_taskCounter (taskCounter s + 1) s0)
  ∨ (req_method request = "sketch/open"
     ∧ ∃ null, loadSketch ext = Return (Nothing null)
         ∧ s' = setCurrentSketch None s0)
  ∨ (req_method request = "sketch/fromExample"
     ∧ ∃ example created null,
         loadSketch ext = Return example ∧ copy ext = Return created
         ∧ (created = Nothing null ∨ example = Nothing null)
         ∧ s' = setCurrentSketch (as_current created) s0).
Proof.
  destruct request as [id method params]. cbn [req_method req_params].
  unfold routeRequest. cbn [req_method req_params]. set (s0 := log _ s).
  change (taskCounter s) with (taskCounter s0). clearbody s0.
  unfold handleContext, handleRoots, handleTask, handleSketch, handleBuild,
    handleBoard, handleSerial, handleLibrary.
  intros Hthrow. cbv zeta.
  repeat case_match; simplify_eq/=;
    first
      [ by left
      | right; left; split; [by apply String.eqb_eq|];
        split; [by eapply get_prop_Throw|done]
      | right; right; left; split; [by apply String.eqb_eq|]; by eexists
      | right; right; right; split; [by apply String.eqb_eq|];
        eexists _, _, _; split; [done|]; split; [done|];
        split; [(by left) || (by right)|done] ].
Qed.

Lemma setCurrentSketch_current (sketch : option Sketch) (s : Server) :
  currentSketch (setCurrentSketch sketch s) = sketch.
Proof.
  unfold setCurrentSketch, emitRootsChanged. case_match; [|done].
  by destruct (broadcast_only_io {| event := "roots/changed"; data := VObj [] |}
                 (with_currentSketch sketch s)) as (_&_&_&_&->&_).
Qed.

(** X17: what [sketch/open] opens is what the server then reports: when the
    path is given and the sketch loads, the request answers with the sketch,
    and the requests [sketch/getCurrent], [roots/list] and [sketch/getFiles]
    that follow answer with that sketch, its one root and its files. *)
Theorem sketch_open_then_current ext ext' id id' params params' (sk : Sketch)
    (s : Server) :
  truthy (field "path" params) = true →
  loadSketch ext = Return (Got sk) →
  let opened := routeRequest ext (request_for id "sketch/open" (VObj params)) s in
  let ask method := fst (routeRequest ext' (request_for id' method params')
                           (snd opened)) in
  fst opened = Return (sketch_json sk)
  ∧ currentSketch (snd opened) = Some sk
  ∧ ask "sketch/getCurrent" = Return (sketch_json sk)
  ∧ ask "roots/list" = Return (VArr [root_json sk])
  ∧ ask "sketch/getFiles"
    = Return (VObj [("mainFile", VStr (mainFileUri sk));
                    ("otherSketchFiles", strs (otherSketchFileUris sk));
                    ("additionalFiles", strs (additionalFileUris sk));
                    ("rootFolderFiles", strs (rootFolderFileUris sk))]).
Proof.
  intros Hpath Hload opened ask.
  assert (opened = (Return (sketch_json sk),
                    setCurrentSketch (Some sk)
                      (log (console_log "[arduino-mcp] Handling: sketch/open") s)))
    as Hopened.
  { subst opened. route. cbn [get_prop optchain]. by rewrite Hpath, Hload. }
  rewrite Hopened. cbn [fst snd]. split; [done|].
  split; [apply setCurrentSketch_current|].
  subst ask. cbv beta. rewrite Hopened. cbn [snd].
  repeat split; route; cbn [currentSketch log];
    by rewrite setCurrentSketch_current.
Qed.

(** X18: [context/getState] always answers.  Whatever the parameters and
    whether or not the port detection fails, the request returns the state
    object and changes nothing but the console: the connected boards are
    those the detection gave, none when it failed; the open sketch is the
    current one or null; the selected board is null and the serial monitor
    is reported as not connected. *)
Theorem context_state_always_answers ext id params (s : Server) :
  ∃ v, fst (routeRequest ext (request_for id "context/getState" params) s) = Return v
    ∧ optchain v "connected_boards"
      = match service ext with Return boards => boards | Throw _ => VArr [] end
    ∧ optchain v "open_sketch"
      = match currentSketch s with
        | Some sk => VObj [("name", VStr (name sk)); ("uri", VStr (uri sk));
                           ("mainFileUri", VStr (mainFileUri sk))]
        | None => VNull
        end
    ∧ optchain v "selected_board" = VNull
    ∧ optchain v "serial_connected" = VBool false
    ∧ optchain v "mcp_version" = VStr "0.1.0".
Proof.
  route. destruct (service ext) as [boards|e]; eexists; (split; [reflexivity|]);
    repeat split.
Qed.


(** X20: eight methods that the protocol declares can never succeed: for
    [build/upload], [board/select], the four serial monitor methods and the
    two serial configuration methods, every request fails, whatever the
    parameters, the services and the state of the server. *)
Theorem dead_methods_never_succeed ext id (method : string) params (s : Server) :
  method ∈ dead_methods →
  method ∈ declared_methods
  ∧ ∃ message, fst (routeRequest ext (request_for id method params) s)
               = Throw (JsError message).
Proof.
  unfold dead_methods. rewrite !elem_of_cons, elem_of_nil.
  intros Hm. split.
  - unfold declared_methods. rewrite !elem_of_cons.
    repeat destruct Hm as [->|Hm]; [tauto..|done].
  - repeat destruct Hm as [->|Hm]; [..|done]; route; by eexists.
Qed.

End Stored.

(** ** Connections *)

Lemma unsplit_split_lines (text : string) :
  unsplit (removelast (split_lines text)) (List.last (split_lines text) "") = text
  ∧ Forall (λ l, occurs newline l = false) (split_lines text).
Proof.
  induction text as [|c text [IHtext IHplain]]; [by repeat constructor|].
  cbn [split_lines]. pose proof (split_lines_nonempty text) as Hne.
  destruct (Ascii.eqb c newline) eqn:Hc.
  - apply Ascii.eqb_eq in Hc as ->. split; [|by constructor].
    destruct (split_lines text) as [|h t] eqn:Hs; [done|].
    change (removelast ("" :: h :: t)) with ("" :: removelast (h :: t)).
    change (List.last ("" :: h :: t) "") with (List.last (h :: t) "").
    cbn [unsplit foldr]. fold (unsplit (removelast (h :: t)) (List.last (h :: t) "")).
    by rewrite IHtext.
  - destruct (split_lines text) as [|h [|h' t]] eqn:Hs; [done| |].
    + cbn [removelast List.last unsplit foldr] in *. subst. split; [done|].
      apply Forall_cons_1 in IHplain as [Hh _]. constructor; [|done].
      cbn [occurs]. by rewrite Ascii.eqb_sym, Hc, Hh.
    + change (removelast (String c h :: h' :: t))
        with (String c h :: removelast (h' :: t)).
      change (removelast (h :: h' :: t)) with (h :: removelast (h' :: t)) in IHtext.
      change (List.last (String c h :: h' :: t) "") with (List.last (h' :: t) "").
      change (List.last (h :: h' :: t) "") with (List.last (h' :: t) "") in IHtext.
      cbn [unsplit foldr] in *. split.
      * rewrite <-IHtext. reflexivity.
      * apply Forall_cons_1 in IHplain as [Hh Ht]. constructor; [|done].
        cbn [occurs]. by rewrite Ascii.eqb_sym, Hc, Hh.
Qed.

Lemma Forall_removelast {A} (P : A → Prop) (l : list A) :
  Forall P l → Forall P (removelast l).
Proof.
  induction 1 as [|x l Hx Hl IH]; [done|]. destruct l as [|y l]; [constructor|].
  change (removelast (x :: y :: l)) with (x :: removelast (y :: l)).
  by constructor.
Qed.

(** X21: the framing loses no text and invents none: the complete lines that
    a chunk gives, each followed by a newline, and then the new buffer are
    the old buffer followed by the decoded chunk; no line and no buffer holds
    a newline. *)
Theorem frame_conserves_text (buf : string) (chunk : list byte) :
  unsplit (fst (frame buf chunk)) (snd (frame buf chunk))
  = buf +:+ Buffer_toString chunk
  ∧ Forall (λ l, occurs newline l = false) (fst (frame buf chunk))
  ∧ occurs newline (snd (frame buf chunk)) = false.
Proof.
  unfold frame. cbn [fst snd].
  destruct (unsplit_split_lines (buf +:+ Buffer_toString chunk)) as [Htext Hplain].
  split; [done|]. split; [by apply Forall_removelast|apply last_split_lines_plain].
Qed.

Lemma decoded_ascii (chunks : list (list byte)) :
  Forall (Forall is_ascii) chunks →
  decoded chunks = Buffer_toString (concat chunks).
Proof.
  induction 1 as [|chunk rest Hchunk _ IH]; [done|].
  cbn [decoded concat]. by rewrite Buffer_toString_ascii_app, IH.
Qed.

(** X22: on a stream of ASCII bytes the framing does what the protocol asks
    for.  However the stream is cut into chunks, and whatever unfinished line
    the buffer holds at the start, the lines handed to [handleMessage] are
    the complete lines of the whole text that are not blank, in order, and
    the buffer is left with its unfinished last line. *)
Theorem ascii_stream_lines (buf : string) (chunks : list (list byte)) :
  occurs newline buf = false →
  Forall (Forall is_ascii) chunks →
  receive buf chunks = lines_of (buf +:+ Buffer_toString (concat chunks)).
Proof.
  intros Hbuf Hascii. rewrite receive_decoded by done.
  by rewrite decoded_ascii.
Qed.

Section Connections.
Context `{Runtime}.

Lemma emitProgress_extends_output k percent message (s : Server) :
  extends_output s (emitProgress k percent message s).
Proof. apply broadcast_extends_output. Qed.

Ltac output_chain :=
  repeat match goal with
         | |- extends_output ?s ?s => apply extends_output_refl
         | |- extends_output ?s (emitProgress ?k ?p ?m ?x) =>
             apply (extends_output_trans s x); [|apply emitProgress_extends_output]
         | |- extends_output ?s (update_task ?k ?f ?x) =>
             apply (extends_output_trans s x); [|by apply extends_output_same]
         | |- extends_output ?s (with_awaiting ?f ?x) =>
             apply (extends_output_trans s x); [|by apply extends_output_same]
         | |- extends_output ?s (with_immediates ?f ?x) =>
             apply (extends_output_trans s x); [|by apply extends_output_same]
         | |- extends_output ?s (runTask_catch ?k ?e ?x) =>
             apply (extends_output_trans s x); [|by apply extends_output_same]
         end.

Lemma runTask_extends_output (k : string) (s : Server) :
  extends_output s (runTask k s).
Proof.
  unfold runTask, runCompileTask_begin, runUploadTask_begin.
  repeat case_match; simplify_eq/=; output_chain.
Qed.

Lemma settle_extends_output (k : string) (outcome : Completion value) (s : Server) :
  extends_output s (settle k outcome s).
Proof.
  unfold settle, runCompileTask_resume, runUploadTask_resume.
  repeat case_match; simplify_eq/=; output_chain.
Qed.

Lemma handleMessage_extends_output ext socket message (s : Server) :
  extends_output s (snd (handleMessage ext socket message s)).
Proof.
  unfold handleMessage.
  destruct (JSON_parse message) as [request|]; [|by apply extends_output_same].
  pose proof (routeRequest_extends_output ext request s) as Hr.
  destruct (routeRequest ext request s) as [routed s1]. cbn [snd] in *.
  apply (extends_output_trans _ s1); [done|].
  destruct routed as [res|e]; [|apply socket_write_extends_output].
  pose proof (socket_write_extends_output socket
                (response_line (result_response request res)) s1) as Hw.
  destruct (socket_write socket _ s1) as [[[]|e] s2]; cbn [snd] in *; [done|].
  eapply extends_output_trans; [exact Hw|apply socket_write_extends_output].
Qed.

Lemma handle_lines_extends_output exts k socket lines (s : Server) :
  extends_output s (snd (handle_lines exts k socket lines s)).
Proof.
  revert k s. induction lines as [|line rest IH]; intros k s; cbn [handle_lines];
    [apply extends_output_refl|].
  destruct (is_blank line); [apply IH|].
  pose proof (handleMessage_extends_output (exts k) socket line s) as Hm.
  destruct (handleMessage (exts k) socket line s) as [[[]|e] s']; cbn [snd] in *;
    [|done].
  eapply extends_output_trans; [exact Hm|apply IH].
Qed.

Lemma extends_output_buffer (s s' : Server) (socket : nat) (c : Connection) :
  extends_output s s' → sockets s !! socket = Some c →
  ∃ c', sockets s' !! socket = Some c' ∧ buffer c' = buffer c.
Proof.
  intros He Hc. specialize (He socket). rewrite Hc in He.
  destruct He as (c' & ? & ? & _). by exists c'.
Qed.

Lemma step_buffer (socket : nat) (c : Connection) (ev : Event) (s : Server) :
  sockets s !! socket = Some c → accepts socket ev = false →
  ∃ c', sockets (step s ev) !! socket = Some c'
    ∧ buffer c' = buffer_after socket (buffer c) ev.
Proof.
  intros Hc Hev. destruct ev as [k|k chunk exts|k|k err|k err| |k outcome|sk|o e|];
    cbn [step buffer_after accepts] in *.
  - apply bool_decide_eq_false in Hev. exists c. split; [|done].
    unfold handleClientConnection. cbn [sockets with_sockets with_clients log].
    by rewrite lookup_insert_ne.
  - unfold on_data. destruct (sockets s !! k) as [ck|] eqn:Hk.
    + destruct (frame (buffer ck) chunk) as [lines rest] eqn:Hframe.
      set (s1 := with_sockets _ s).
      pose proof (handle_lines_extends_output exts 0 k lines s1) as He.
      case_decide as Hks.
      * subst k. assert (ck = c) as -> by congruence.
        assert (sockets s1 !! socket
                = Some {| write_fault := write_fault c; written := written c;
                          buffer := rest |}) as H1
          by (subst s1; cbn [sockets with_sockets]; by rewrite lookup_insert_eq).
        destruct (extends_output_buffer _ _ _ _ He H1) as (c' & ? & ?).
        exists c'. split; [done|]. by rewrite Hframe.
      * assert (sockets s1 !! socket = Some c) as H1
          by (subst s1; cbn [sockets with_sockets]; by rewrite lookup_insert_ne).
        apply (extends_output_buffer _ _ _ _ He H1).
    + exists c. split; [done|]. case_decide; [congruence|done].
  - exists c. split; [exact Hc|done].
  - exists c. split; [exact Hc|done].
  - unfold raise_on_write. cbn [sockets with_sockets].
    destruct (decide (k = socket)) as [->|Hne].
    + rewrite lookup_alter_eq, Hc. by eexists.
    + rewrite lookup_alter_ne by done. by exists c.
  - unfold run_immediate. destruct (immediates s) as [|k rest]; [by exists c|].
    apply (extends_output_buffer (with_immediates (λ _, rest) s)); [|done].
    apply runTask_extends_output.
  - by apply (extends_output_buffer s); [apply settle_extends_output|].
  - by apply (extends_output_buffer s); [apply setCurrentSketch_extends_output|].
  - exists c. split; [exact Hc|done].
  - unfold emitRootsChanged.
    by apply (extends_output_buffer s); [apply broadcast_extends_output|].
Qed.

Lemma receive_snd (buf : string) (chunk : list byte) (rest : list (list byte)) :
  snd (receive buf (chunk :: rest)) = snd (receive (snd (frame buf chunk)) rest).
Proof.
  cbn [receive]. destruct (frame buf chunk) as [lines buf']. cbn [snd].
  by destruct (receive buf' rest).
Qed.

Lemma chunks_for_cons (socket : nat) (ev : Event) (history : list Event) :
  chunks_for socket (ev :: history)
  = match ev with
    | Data k chunk _ =>
        if decide (k = socket) then chunk :: chunks_for socket history
        else chunks_for socket history
    | _ => chunks_for socket history
    end.
Proof. destruct ev; try reflexivity. unfold chunks_for. simpl. by case_decide. Qed.

Lemma run_buffer (socket : nat) (history : list Event) (c : Connection)
    (s : Server) :
  sockets s !! socket = Some c →
  forallb (λ ev, negb (accepts socket ev)) history = true →
  buffer <$> sockets (run s history) !! socket
  = Some (snd (receive (buffer c) (chunks_for socket history))).
Proof.
  revert c s. induction history as [|ev history IH]; intros c s Hc;
    cbn [forallb].
  - intros _. cbn [run foldl chunks_for omap receive snd]. by rewrite Hc.
  - intros [Hev Hrest]%andb_prop. apply negb_true_iff in Hev.
    change (run s (ev :: history)) with (run (step s ev) history).
    destruct (step_buffer socket c ev s Hc Hev) as (c' & Hc' & Hbuf).
    rewrite (IH c' _ Hc' Hrest), Hbuf, chunks_for_cons. f_equal.
    destruct ev; cbn [buffer_after]; try done.
    case_decide; [|done]. by rewrite receive_snd.
Qed.

(** X23: the buffer of a connection depends on nothing but the chunks that
    this connection received.  After any history of events in which the
    socket is not accepted anew (requests and failures on this and on other
    connections, tasks, broadcasts), the buffer is the one
    that the framing gives for the chunks of this connection alone; when it
    held no newline at the start, it is the unfinished last line of the
    decoded text. *)
Theorem connection_buffer (socket : nat) (history : list Event) (c : Connection)
    (s : Server) :
  sockets s !! socket = Some c →
  forallb (λ ev, negb (accepts socket ev)) history = true →
  let chunks := chunks_for socket history in
  buffer <$> sockets (run s history) !! socket
  = Some (snd (receive (buffer c) chunks))
  ∧ (occurs newline (buffer c) = false →
     snd (receive (buffer c) chunks)
     = List.last (split_lines (buffer c +:+ decoded chunks)) "").
Proof.
  intros Hc Hh chunks. split; [by apply run_buffer|].
  intros Hplain. by rewrite receive_decoded.
Qed.

(** X24: what the unguarded [socket.write] in the [catch] clause of
    [handleMessage] means, if a [write] raises (no [net.Socket] raises on a
    string, so this is about a socket object that does).  The request is
    executed and then lost: the handler's result (or error) cannot be
    written, the write of the error response raises in the same way, the
    promise of the ['data'] listener is rejected with that exception, and the
    lines that follow in the chunk are not handled. *)
Theorem broken_socket_rejects exts (k socket : nat) (message : string)
    (rest : list string) (request : IPCRequest) (c : Connection) (e : Thrown)
    (s : Server) :
  sockets s !! socket = Some c → write_fault c = Some e →
  is_blank message = false → JSON_parse message = Some request →
  handle_lines exts k socket (message :: rest) s
  = (Throw e, snd (routeRequest (exts k) request s)).
Proof.
  intros Hc Hf Hblank Hparse. cbn [handle_lines]. rewrite Hblank.
  unfold handleMessage. rewrite Hparse.
  pose proof (routeRequest_extends_output (exts k) request s socket) as He.
  rewrite Hc in He. destruct He as (c' & Hc' & _ & Hf' & _). rewrite Hf in Hf'.
  destruct (routeRequest (exts k) request s) as [routed s1]. cbn [snd] in *.
  assert (∀ m, socket_write socket m s1 = (Throw e, s1)) as Hw.
  { intros m. pose proof (socket_write_cases socket m s1) as Hw.
    by rewrite Hc', Hf' in Hw. }
  destruct routed as [res|e']; by rewrite !Hw.
Qed.

(** X25: after its ['close'] or ['error'] listener has run, a connection
    receives no event any more, and every other connection receives what it
    would have received: a broadcast leaves the socket of the closed
    connection as it was and does to every other socket what it would have
    done without the closing. *)
Theorem closed_client_gets_nothing (socket : nat) (err : Thrown) (ev : IPCEvent)
    (s closed : Server) :
  NoDup (clients s) →
  closed = on_close socket s ∨ closed = on_error socket err s →
  let s' := broadcast ev closed in
  (socket ∉ clients s')
  ∧ sockets s' !! socket = sockets s !! socket
  ∧ ∀ other, other ≠ socket →
      sockets s' !! other = sockets (broadcast ev s) !! other.
Proof.
  intros Hnd Hclosed s'.
  assert (clients closed = clients_delete socket (clients s)
          ∧ sockets closed = sockets s) as [Hcl Hso]
    by (by destruct Hclosed as [->| ->]).
  assert (NoDup (clients closed)) as Hnd'
    by (rewrite Hcl; by apply NoDup_filter).
  subst s'. unfold broadcast.
  set (m := JSON_stringify (event_json ev) +:+ nl).
  destruct (broadcast_loop m (clients closed) closed Hnd') as (Hio & Hs' & _).
  destruct (broadcast_loop m (clients s) s Hnd) as (_ & Hs & _).
  cbv zeta in Hio, Hs', Hs.
  assert (∀ x, x ∈ clients closed ↔ x ∈ clients s ∧ x ≠ socket) as Hin.
  { intros x. rewrite Hcl. unfold clients_delete. rewrite list_elem_of_filter.
    tauto. }
  split; [|split].
  - destruct Hio as [-> _]. rewrite Hin. tauto.
  - rewrite Hs', Hso. rewrite decide_False; [done|]. rewrite Hin. tauto.
  - intros other Hne. rewrite Hs', Hs, Hso.
    destruct (decide (other ∈ clients s)) as [Hx|Hx].
    + rewrite decide_True; [done|]. by apply Hin.
    + rewrite decide_False; [done|]. rewrite Hin. tauto.
Qed.

End Connections.

(** ** The set of clients *)

Section Clients.
Context `{Runtime}.

Lemma registered_frame (s s' : Server) :
  clients s' = clients s → extends_output s s' → registered s → registered s'.
Proof.
  intros Hcl He [Hnd Hreg]. split; [by rewrite Hcl|].
  intros k Hk. rewrite Hcl in Hk. destruct (Hreg k Hk) as [c Hc].
  specialize (He k). rewrite Hc in He. destruct He as (c' & -> & _). by eexists.
Qed.

Lemma runTask_clients (k : string) (s : Server) : clients (runTask k s) = clients s.
Proof.
  destruct (tasks s !! k) as [t|] eqn:Hk; [|by rewrite runTask_missing].
  destruct (runTask_effect k t s Hk) as (s2 & Hio & ->).
  destruct Hio as (Hcl & _). by destruct (admission t (currentSketch s)).
Qed.

Lemma settle_clients (k : string) (outcome : Completion value) (s : Server) :
  clients (settle k outcome s) = clients s.
Proof.
  destruct (take_call k (awaiting s)) as [[call rest]|] eqn:Htake;
    [|by rewrite settle_not_waiting].
  destruct (settle_effect k outcome call rest s Htake) as (s2 & -> & Hs2).
  destruct (conclusion call outcome) as [res|e]; [|by subst].
  by destruct Hs2 as (-> & _).
Qed.

Lemma handleMessage_clients ext socket message (s : Server) :
  clients (snd (handleMessage ext socket message s)) = clients s.
Proof.
  unfold handleMessage. destruct (JSON_parse message) as [request|]; [|done].
  destruct (routeRequest_keeps_connections ext request s) as [Hcl _].
  destruct (routeRequest ext request s) as [routed s1]. cbn [snd] in *.
  rewrite <-Hcl. destruct routed as [res|e]; [|apply socket_write_only_io].
  pose proof (socket_write_only_io socket
                (response_line (result_response request res)) s1) as [Hw _].
  destruct (socket_write socket _ s1) as [[[]|e] s2]; cbn [snd] in *; [done|].
  rewrite <-Hw. apply socket_write_only_io.
Qed.

Lemma handle_lines_clients exts k socket lines (s : Server) :
  clients (snd (handle_lines exts k socket lines s)) = clients s.
Proof.
  revert k s. induction lines as [|line rest IH]; intros k s; cbn [handle_lines];
    [done|].
  destruct (is_blank line); [apply IH|].
  pose proof (handleMessage_clients (exts k) socket line s) as Hm.
  destruct (handleMessage (exts k) socket line s) as [[[]|e] s']; cbn [snd] in *;
    [|done].
  by rewrite IH.
Qed.

Lemma step_registered (s : Server) (ev : Event) :
  registered s → registered (step s ev).
Proof.
  intros Hreg.
  destruct ev as [k|k chunk exts|k|k err|k err| |k outcome|sk|o e|]; cbn [step].
  - destruct Hreg as [Hnd Hreg]. unfold registered, handleClientConnection, clients_add.
    cbn [clients sockets with_sockets with_clients log]. split.
    + case_bool_decide as Hin; [done|]. apply NoDup_app. split; [done|].
      split; [|apply NoDup_singleton].
      intros x Hx ->%list_elem_of_singleton. done.
    + intros x Hx. destruct (decide (x = k)) as [->|Hne].
      * rewrite lookup_insert_eq. by eexists.
      * rewrite lookup_insert_ne by done. apply Hreg.
        case_bool_decide; [done|].
        apply elem_of_app in Hx as [Hx|Hx%list_elem_of_singleton]; done.
  - unfold on_data. destruct (sockets s !! k) as [c|] eqn:Hc; [|done].
    destruct (frame (buffer c) chunk) as [lines rest].
    set (s1 := with_sockets _ s).
    apply (registered_frame s1);
      [apply handle_lines_clients|apply handle_lines_extends_output|].
    destruct Hreg as [Hnd Hreg]. split; [done|]. intros x Hx.
    subst s1. cbn [sockets with_sockets].
    destruct (decide (x = k)) as [->|Hne].
    + rewrite lookup_insert_eq. by eexists.
    + rewrite lookup_insert_ne by done. by apply Hreg.
  - destruct Hreg as [Hnd Hreg]. unfold registered, on_close, clients_delete.
    cbn [clients sockets with_clients log]. split; [by apply NoDup_filter|].
    intros x [_ Hx]%list_elem_of_filter. by apply Hreg.
  - destruct Hreg as [Hnd Hreg]. unfold registered, on_error, clients_delete.
    cbn [clients sockets with_clients log]. split; [by apply NoDup_filter|].
    intros x [_ Hx]%list_elem_of_filter. by apply Hreg.
  - destruct Hreg as [Hnd Hreg]. unfold registered, raise_on_write.
    cbn [clients sockets with_sockets]. split; [done|]. intros x Hx.
    destruct (Hreg x Hx) as [c Hc].
    destruct (decide (x = k)) as [->|Hne].
    + rewrite lookup_alter_eq, Hc. by eexists.
    + rewrite lookup_alter_ne by done. by eexists.
  - unfold run_immediate. destruct (immediates s) as [|k rest]; [done|].
    apply (registered_frame (with_immediates (λ _, rest) s));
      [apply runTask_clients|apply runTask_extends_output|done].
  - by apply (registered_frame s);
      [apply settle_clients|apply settle_extends_output|].
  - by apply (registered_frame s);
      [apply setCurrentSketch_keeps_connections
      |apply setCurrentSketch_extends_output|].
  - done.
  - unfold emitRootsChanged.
    by apply (registered_frame s);
      [apply broadcast_only_io|apply broadcast_extends_output|].
Qed.

Lemma run_registered (s : Server) (history : list Event) :
  registered s → registered (run s history).
Proof.
  revert s. induction history as [|ev history IH]; intros s Hreg; [done|].
  change (run s (ev :: history)) with (run (step s ev) history).
  by apply IH, step_registered.
Qed.

Lemma clients_registered_run (library_injected : bool) (history : list Event) :
  registered (run (new_server library_injected) history).
Proof.
  apply run_registered. split; [apply NoDup_nil_2|].
  intros k Hk. by apply elem_of_nil in Hk.
Qed.

(** X26: the clients of a running server are a set of accepted sockets: after
    any history of events no socket is twice among the clients (accepting a
    socket that is already a client does not add it again), and every client
    is a socket the server has accepted, so that a broadcast writes to each
    client once. *)
Theorem clients_are_registered (library_injected : bool) (history : list Event) :
  registered (run (new_server library_injected) history).
Proof. apply clients_registered_run. Qed.

Lemma fault_free_frame (s s' : Server) :
  extends_output s s' → fault_free s → fault_free s'.
Proof.
  intros He Hs k c' Hc'. specialize (He k).
  destruct (sockets s !! k) as [c|] eqn:Hc; [|congruence].
  destruct He as (c'' & Hc'' & _ & Hf & _).
  assert (c'' = c') as -> by congruence. rewrite Hf. by apply (Hs k).
Qed.

Lemma step_fault_free (s : Server) (ev : Event) :
  raises ev = false → fault_free s → fault_free (step s ev).
Proof.
  intros Hev Hs.
  destruct ev as [k|k chunk exts|k|k err|k err| |k outcome|sk|o e|];
    cbn [step raises] in *; try done.
  - intros x c. unfold handleClientConnection.
    cbn [sockets with_sockets with_clients log]. rewrite lookup_insert.
    case_decide; [by intros [= <-]|apply Hs].
  - unfold on_data. destruct (sockets s !! k) as [c|] eqn:Hc; [|done].
    destruct (frame (buffer c) chunk) as [lines rest].
    apply (fault_free_frame (with_sockets
             (insert k {| write_fault := write_fault c; written := written c;
                          buffer := rest |}) s));
      [apply handle_lines_extends_output|].
    intros x c'. cbn [sockets with_sockets]. rewrite lookup_insert.
    case_decide; [|apply Hs]. intros [= <-]. cbn [write_fault]. by apply (Hs k).
  - unfold run_immediate. destruct (immediates s) as [|k rest]; [done|].
    by apply (fault_free_frame (with_immediates (λ _, rest) s));
      [apply runTask_extends_output|].
  - by apply (fault_free_frame s); [apply settle_extends_output|].
  - by apply (fault_free_frame s); [apply setCurrentSketch_extends_output|].
  - unfold emitRootsChanged.
    by apply (fault_free_frame s); [apply broadcast_extends_output|].
Qed.

(** On a server that runs on [net], where no [write] raises, every client
    takes writes: the hypotheses on the clients of the properties of
    [broadcast], [setCurrentSketch] and [handleMessage] hold in every state
    it reaches. *)
Lemma net_clients_writable (library_injected : bool) (history : list Event) :
  forallb (λ ev, negb (raises ev)) history = true →
  let s := run (new_server library_injected) history in
  NoDup (clients s) ∧ ∀ k, k ∈ clients s → writable s k.
Proof.
  intros Hh s.
  destruct (clients_registered_run library_injected history) as [Hnd Hreg].
  split; [exact Hnd|]. intros k Hk. destruct (Hreg k Hk) as [c Hc].
  exists c. split; [exact Hc|]. clear Hk. revert k c Hc. fold (fault_free s). subst s.
  assert (fault_free (new_server library_injected)) as Hnew
    by (intros k c; cbn [sockets new_server]; by rewrite lookup_empty).
  revert Hnew Hh. generalize (new_server library_injected) as s0.
  clear Hnd Hreg.
  induction history as [|ev history IH]; intros s0 Hs0; cbn [forallb]; [done|].
  intros [Hev Hrest]%andb_prop. apply negb_true_iff in Hev.
  change (run s0 (ev :: history)) with (run (step s0 ev) history).
  apply IH; [by apply step_fault_free|done].
Qed.

Lemma routeRequest_sockets ext request (s : Server) :
  req_method request ≠ "sketch/open" →
  req_method request ≠ "sketch/fromExample" →
  sockets (snd (routeRequest ext request s)) = sockets s.
Proof.
  intros Ho%String.eqb_neq Hx%String.eqb_neq.
  unfold routeRequest. set (s0 := log _ s).
  change (sockets s) with (sockets s0). clearbody s0.
  unfold handleContext, handleRoots, handleTask, handleSketch, handleBuild,
    handleBoard, handleSerial, handleLibrary.
  generalize dependent (req_method request). intros method Ho Hx.
  rewrite !Ho, !Hx.
  repeat case_match; simplify_eq/=; reflexivity.
Qed.

Lemma socket_write_other socket message (s : Server) (other : nat) :
  other ≠ socket →
  sockets (snd (socket_write socket message s)) !! other = sockets s !! other.
Proof.
  intros Hne. pose proof (socket_write_cases socket message s) as Hw.
  destruct (sockets s !! socket) as [c|]; [|by rewrite Hw].
  destruct (write_fault c); rewrite Hw; [done|].
  cbn [snd sockets with_sockets]. by rewrite lookup_insert_ne.
Qed.

(** X27: a response goes to the connection that sent the request and to no
    other.  For every request but [sketch/open] and [sketch/fromExample]
    (which broadcast that the roots changed), handling the message leaves
    every other connection exactly as it was: nothing is written to it, and
    neither its buffer nor its fault changes. *)
Theorem response_only_to_requester ext socket message request (s : Server) :
  JSON_parse message = Some request →
  req_method request ≠ "sketch/open" →
  req_method request ≠ "sketch/fromExample" →
  ∀ other, other ≠ socket →
    sockets (snd (handleMessage ext socket message s)) !! other
    = sockets s !! other.
Proof.
  intros Hparse Ho Hx other Hne. unfold handleMessage. rewrite Hparse.
  pose proof (routeRequest_sockets ext request s Ho Hx) as Hs.
  destruct (routeRequest ext request s) as [routed s1]. cbn [snd] in *.
  rewrite <-Hs. destruct routed as [res|e]; [|by apply socket_write_other].
  pose proof (socket_write_other socket
                (response_line (result_response request res)) s1 other Hne) as Hw.
  destruct (socket_write socket _ s1) as [[[]|e] s2]; cbn [snd] in *; [done|].
  rewrite <-Hw. by apply socket_write_other.
Qed.

End Clients.

(** ** The further properties on the scenarios *)

Section Instances.
Import Sample Scenario Cases.
#[local] Existing Instance sample_runtime.

(** The task of a finished compilation. *)
Lemma task_members_consistent_witness :
  tasks (run (new_server true) compile_finished) !! first_id = Some completed_task
  ∧ consistent completed_task.
Proof.
  assert (tasks (run (new_server true) compile_finished) !! first_id
          = Some completed_task) as Hk by (vm_compute; reflexivity).
  split; [exact Hk|].
  exact (task_members_consistent true compile_finished first_id completed_task Hk).
Defined.

(** The task while the compiler runs, after three progress events. *)
Lemma progress_never_stored_witness :
  tasks (run (new_server true) compile_started) !! first_id = Some running_task
  ∧ progress running_task = None.
Proof.
  assert (tasks (run (new_server true) compile_started) !! first_id
          = Some running_task) as Hk by (vm_compute; reflexivity).
  split; [exact Hk|].
  exact (proj1 (progress_never_stored true compile_started 0 first_id
                  running_task Hk)).
Defined.

(** The running task waits for its compiler call. *)
Lemma task_never_forgotten_witness :
  tasks (run (new_server true) compile_started) !! first_id = Some running_task
  ∧ first_id ∈ (awaiting (run (new_server true) compile_started)).*1.
Proof.
  assert (tasks (run (new_server true) compile_started) !! first_id
          = Some running_task) as Hk by (vm_compute; reflexivity).
  split; [exact Hk|].
  apply (task_never_forgotten true compile_started first_id running_task Hk).
  reflexivity.
Defined.

(** The created task is still there when the compiler is done. *)
Lemma tasks_persist_witness :
  tasks (run (new_server true) compile_created) !! first_id = Some created_task
  ∧ ∃ t', tasks (run (new_server true) (compile_created
                                           ++ [Immediate;
                                               Settle first_id (Return built)]))
            !! first_id = Some t'
      ∧ tool t' = VStr "arduino_compile".
Proof.
  assert (tasks (run (new_server true) compile_created) !! first_id
          = Some created_task) as Hk by (vm_compute; reflexivity).
  split; [exact Hk|].
  destruct (tasks_persist true compile_created
              [Immediate; Settle first_id (Return built)] first_id created_task Hk)
    as (t' & Hk' & _ & _ & Htool & _).
  exists t'. split; [exact Hk'|exact Htool].
Defined.


(** The compiler call of the running task returns. *)
Lemma settle_outcome_witness :
  let s := run (new_server true) compile_started in
  tasks s !! first_id = Some running_task
  ∧ take_call first_id (awaiting s) = Some (compile_call, [])
  ∧ tasks (settle first_id (Return built) s) !! first_id = Some completed_task.
Proof.
  intros s.
  assert (tasks s !! first_id = Some running_task) as Hk by (vm_compute; reflexivity).
  assert (take_call first_id (awaiting s) = Some (compile_call, [])) as Ht
    by (vm_compute; reflexivity).
  split; [exact Hk|]. split; [exact Ht|].
  pose proof (settle_outcome first_id (Return built) running_task s Hk) as Hthm.
  rewrite Ht in Hthm. destruct Hthm as (-> & _).
  rewrite lookup_insert_eq. reflexivity.
Defined.

(** A compile task on a server with one client and an open sketch. *)
Lemma compile_task_completes_witness :
  let s := run (new_server true) [Connect 1; SetCurrentSketch (Some blink)] in
  let s3 := settle first_id (Return built)
              (run_immediate
                 (snd (handleTask 1700000000000 "task/create"
                         (req_params create_compile) s))) in
  immediates s = [] ∧ currentSketch s = Some blink
  ∧ fst (handleTask 0 "task/get" (VObj [("taskId", VStr first_id)]) s3)
    = Return (snapshot completed_task).
Proof.
  intros s s3. split; [reflexivity|]. split; [vm_compute; reflexivity|].
  exact (compile_task_completes true [Connect 1; SetCurrentSketch (Some blink)]
           1700000000000 0
           [("tool", VStr "arduino_compile");
            ("arguments", VObj [("fqbn", VStr "arduino:avr:uno")])]
           [("fqbn", VStr "arduino:avr:uno")] blink built
           eq_refl eq_refl eq_refl eq_refl eq_refl).
Defined.

(** [roots/list] on a server with one client. *)
Lemma other_requests_only_log_witness :
  existsb (String.eqb (req_method list_roots)) state_changing_methods = false
  ∧ sockets (snd (routeRequest calm list_roots one_client)) = sockets one_client.
Proof.
  assert (existsb (String.eqb (req_method list_roots)) state_changing_methods
          = false) as Hm by reflexivity.
  split; [exact Hm|].
  destruct (other_requests_only_log calm list_roots one_client Hm)
    as (_&_&_&_&_&_&Hs&_).
  exact Hs.
Defined.

(** [library/list] on a server without the library service. *)
Lemma library_needs_service_witness :
  startsWith (req_method list_libraries) "library/" = true
  ∧ fst (routeRequest calm list_libraries (run (new_server false) compile_started))
    = Throw (JsError "LibraryService not available").
Proof.
  split; [reflexivity|].
  exact (library_needs_service calm list_libraries compile_started eq_refl).
Defined.

(** A finished compilation has stored no output. *)
Lemma build_output_kept_witness :
  forallb (λ ev, negb (is_build_output ev)) compile_finished = true
  ∧ lastBuildOutput (run (new_server true) compile_finished) = None.
Proof.
  split; [reflexivity|].
  exact (proj1 (build_output_kept calm "req_11" VUndefined (new_server true)
                  compile_finished eq_refl)).
Defined.

(** [task/get] for a task that does not exist leaves the server as it was;
    [sketch/open] where [loadSketch] resolves to [undefined] fails after it
    has closed the sketch that was open. *)
Lemma failed_request_effect_witness :
  fst (routeRequest calm get_missing one_client)
  = Throw (JsError "Task not found: task_7_0")
  ∧ snd (routeRequest calm get_missing one_client)
    = log (console_log "[arduino-mcp] Handling: task/get") one_client
  ∧ fst (routeRequest absent open_blink fade_open)
    = Throw (JsError "Cannot read properties of undefined (reading 'name')")
  ∧ currentSketch fade_open = Some fade
  ∧ currentSketch (snd (routeRequest absent open_blink fade_open)) = None.
Proof.
  assert (fst (routeRequest calm get_missing one_client)
          = Throw (JsError "Task not found: task_7_0")) as He
    by (vm_compute; reflexivity).
  split; [exact He|]. split.
  - destruct (failed_request_effect calm get_missing _ one_client He)
      as [Hs|[(Hm & _)|[(Hm & _)|(Hm & _)]]]; [exact Hs|discriminate Hm..].
  - vm_compute. repeat split.
Defined.

(** A client opens the sketch Blink and asks for the roots. *)
Lemma sketch_open_then_current_witness :
  truthy (field "path" blink_path) = true
  ∧ loadSketch calm = Return (Got blink)
  ∧ fst (routeRequest calm (request_for "req_13" "roots/list" (VObj []))
           (snd (routeRequest calm open_blink one_client)))
    = Return (VArr [root_json blink]).
Proof.
  split; [reflexivity|]. split; [reflexivity|].
  destruct (sketch_open_then_current calm calm "req_12" "req_13" blink_path
              (VObj []) blink one_client eq_refl eq_refl)
    as (_ & _ & _ & Hroots & _).
  exact Hroots.
Defined.


(** [serial/read]. *)
Lemma dead_methods_never_succeed_witness :
  "serial/read" ∈ dead_methods
  ∧ ∃ message, fst (routeRequest calm read_serial one_client)
               = Throw (JsError message).
Proof.
  assert ("serial/read" ∈ dead_methods) as Hm
    by (unfold dead_methods; rewrite !elem_of_cons; tauto).
  split; [exact Hm|].
  exact (proj2 (dead_methods_never_succeed calm "req_10" "serial/read" (VObj [])
                  one_client Hm)).
Defined.

(** A line and a half, in three chunks. *)
Lemma ascii_stream_lines_witness :
  receive "" [list_byte_of_string "{not js"; wire list_roots;
              list_byte_of_string "{no"]
  = lines_of ("{not js" +:+ request_line list_roots +:+ nl +:+ "{no").
Proof.
  rewrite (ascii_stream_lines "" [list_byte_of_string "{not js"; wire list_roots;
                                  list_byte_of_string "{no"]).
  - vm_compute. reflexivity.
  - reflexivity.
  - vm_compute. repeat (constructor; try reflexivity).
Defined.

(** The first connection of [interleaved] keeps its half line. *)
Lemma connection_buffer_witness :
  sockets one_client !! 1%nat
  = Some {| write_fault := None; written := []; buffer := "" |}
  ∧ forallb (λ ev, negb (accepts 1 ev)) interleaved = true
  ∧ buffer <$> sockets (run one_client interleaved) !! 1%nat = Some "{not json".
Proof.
  assert (sockets one_client !! 1%nat
          = Some {| write_fault := None; written := []; buffer := "" |}) as Hc
    by (vm_compute; reflexivity).
  assert (forallb (λ ev, negb (accepts 1 ev)) interleaved = true) as Hh
    by reflexivity.
  split; [exact Hc|]. split; [exact Hh|].
  destruct (connection_buffer 1 interleaved _ one_client Hc Hh) as [-> _].
  vm_compute. reflexivity.
Defined.

(** Two requests in one chunk on a connection whose socket object raises on
    [write]. *)
Lemma broken_socket_rejects_witness :
  sockets raising_socket !! 1%nat
  = Some {| write_fault := Some (JsError "write EPIPE"); written := [];
            buffer := "" |}
  ∧ is_blank (request_line list_roots) = false
  ∧ JSON_parse (request_line list_roots) = Some list_roots
  ∧ fst (handle_lines (λ _, calm) 0 1
           [request_line list_roots; request_line get_missing] raising_socket)
    = Throw (JsError "write EPIPE").
Proof.
  assert (sockets raising_socket !! 1%nat
          = Some {| write_fault := Some (JsError "write EPIPE"); written := [];
                    buffer := "" |}) as Hc by (vm_compute; reflexivity).
  assert (is_blank (request_line list_roots) = false) as Hb
    by (vm_compute; reflexivity).
  assert (JSON_parse (request_line list_roots) = Some list_roots) as Hp
    by (vm_compute; reflexivity).
  split; [exact Hc|]. split; [exact Hb|]. split; [exact Hp|].
  rewrite (broken_socket_rejects (λ _, calm) 0 1 (request_line list_roots)
             [request_line get_missing] list_roots _ (JsError "write EPIPE")
             raising_socket Hc eq_refl Hb Hp).
  reflexivity.
Defined.

(** The third of three clients closes; the first still gets the event. *)
Lemma closed_client_gets_nothing_witness :
  NoDup (clients three_clients)
  ∧ written <$> sockets (broadcast roots_changed (on_close 3 three_clients)) !! 3%nat
    = Some []
  ∧ written <$> sockets (broadcast roots_changed (on_close 3 three_clients)) !! 1%nat
    = Some [sample_stringify (event_json roots_changed) +:+ nl].
Proof.
  assert (NoDup (clients three_clients)) as Hnd.
  { apply NoDup_ListNoDup. vm_compute. repeat constructor; simpl; lia. }
  split; [exact Hnd|].
  destruct (closed_client_gets_nothing 3 (JsError "") roots_changed three_clients
              (on_close 3 three_clients) Hnd (or_introl eq_refl))
    as (_ & -> & Hother).
  split; [vm_compute; reflexivity|].
  rewrite (Hother 1%nat) by lia. vm_compute. reflexivity.
Defined.

(** The first of two clients asks for the roots. *)
Lemma response_only_to_requester_witness :
  JSON_parse (request_line list_roots) = Some list_roots
  ∧ sockets (snd (handleMessage calm 1 (request_line list_roots) two_clients))
      !! 2%nat
    = Some {| write_fault := None; written := []; buffer := "" |}.
Proof.
  assert (JSON_parse (request_line list_roots) = Some list_roots) as Hp
    by (vm_compute; reflexivity).
  split; [exact Hp|].
  rewrite (response_only_to_requester calm 1 (request_line list_roots) list_roots
             two_clients Hp) by (vm_compute; lia || discriminate).
  vm_compute. reflexivity.
Defined.

End Instances.
